(** * Wave.tsx: audio-reactive circular waveform layers

    A shallow embedding of [src/Wave.tsx].  JavaScript numbers are modelled
    as real numbers ([R]): the rounding of IEEE doubles and of the
    [Float32Array] stores is not represented.  Quantities that the source
    computes from bytes with integer-valued arithmetic (the audio sum, the
    weighted sample sum, the index buffer) are computed in [Z] and injected
    with [IZR], so that they can be evaluated.

    [Math.random] is an oracle: every function that draws random numbers
    takes the sequence of draws as an argument.  React refs ([useRef]) are
    fields of an explicit per-instance state record that [useFrame] maps to
    the next state; props are an argument of every render and every frame. *)

From Stdlib Require Import String Reals Lra Lia ZArith List Bool.
Import ListNotations.
Open Scope R_scope.

(** ** Typed arrays and counted loops *)

(** [a[i] = v] on a typed array: the length is fixed and a store outside the
    array is ignored. *)
Fixpoint store {A : Type} (i : nat) (v : A) (a : list A) : list A :=
  match a, i with
  | [], _ => []
  | _ :: t, O => v :: t
  | h :: t, S j => h :: store j v t
  end.

(** [for (let i = 0; i < n; i++) body], threading the mutated variables. *)
Definition for_loop {T : Type} (n : nat) (body : nat -> T -> T) (init : T) : T :=
  fold_left (fun st i => body i st) (seq 0 n) init.

(** [const bufferLength = 512] in both components. *)
Definition bufferLength : nat := 512.

(** ** Props *)

Record UndulationTerm : Type := mkTerm {
  frequency : R;
  amplitude : R;
  speed : R
}.

(** [interface WaveformProps]: every field is optional. *)
Module Props.
Record t : Type := mk {
  baseRadius : option R;
  color : option string;
  opacity : option R;
  smoothingFactor : option R;
  audioScale : option R;
  undulationPattern : option (list UndulationTerm);
  increaseResponseRate : option R;
  decreaseResponseRate : option R;
  color2 : option string;
  pulseScale : option R;
  speedScale : option R
}.

(** The props object [{}]. *)
Definition empty : t :=
  mk None None None None None None None None None None None.
End Props.

Definition WaveformProps : Type := Props.t.

(** Destructuring with a default value: [{ x = d }]. *)
Definition withDefault {A : Type} (d : A) (o : option A) : A :=
  match o with
  | Some v => v
  | None => d
  end.

(** ** What a frame callback reads from outside the component

    [analyser] is [Some dataArray] when microphone acquisition succeeded
    ([analyserRef.current] and [dataArrayRef.current] are set together by
    [setupAudio], or neither is); [dataArray] is then the content that
    [getByteTimeDomainData] leaves in the byte array for this frame.
    [meshRef] tells whether the mesh ref is attached, [elapsedTime] is
    [clock.elapsedTime], and [random i] is the value of the [Math.random()]
    call made in iteration [i] of the vertex loop. *)
Record FrameEnv : Type := mkEnv {
  analyser : option (list Z);
  meshRef : bool;
  elapsedTime : R;
  random : nat -> R
}.

(** The byte array has [frequencyBinCount = fftSize / 2 = bufferLength]
    entries, each in 0..255. *)
Definition wf_dataArray (dataArray : list Z) : Prop :=
  length dataArray = bufferLength /\
  Forall (fun b => (0 <= b <= 255)%Z) dataArray.

(** ** Quantities that both components compute with the same expressions *)

(** [audioSum += Math.abs(dataArray[i] - 128)] for [i] in [0, bufferLength). *)
Definition audioSum (dataArray : list Z) : Z :=
  for_loop bufferLength
    (fun i acc => (acc + Z.abs (nth i dataArray 0%Z - 128))%Z) 0%Z.

(** [(audioSum / bufferLength) * audioScale] *)
Definition averageAudio (audioScale : R) (dataArray : list Z) : R :=
  IZR (audioSum dataArray) / INR bufferLength * audioScale.

(** [1 + (averageAudio / 128) * 2] *)
Definition audioAmplification (averageAudio : R) : R :=
  1 + averageAudio / 128 * 2.

(** [(i / bufferLength) * Math.PI * 2 - Math.PI / 2] *)
Definition angle (i : nat) : R :=
  INR i / INR bufferLength * PI * 2 - PI / 2.

(** [Math.min(speed * 2, speed * previousSpeedMultiplier.current)] *)
Definition clampedSpeed (speed previousSpeedMultiplier : R) : R :=
  Rmin (speed * 2) (speed * previousSpeedMultiplier).

(** The callback of [undulationPattern.reduce]; [direction] is
    [rotationDirections.current[index]]. *)
Definition undulationStep (angle time previousSpeedMultiplier : R)
    (acc : R) (term : UndulationTerm) (direction : R) : R :=
  acc
  + sin (angle * frequency term
         + time * clampedSpeed (speed term) previousSpeedMultiplier * direction)
    * amplitude term
  + cos (angle * frequency term
         + time * clampedSpeed (speed term) previousSpeedMultiplier * direction)
    * amplitude term.

(** [undulationPattern.reduce(callback, 0)].  The rotation directions are
    read by position; they were created with one entry per term. *)
Definition undulation (pattern : list UndulationTerm) (directions : list R)
    (angle time previousSpeedMultiplier : R) : R :=
  fold_left
    (fun acc it =>
       undulationStep angle time previousSpeedMultiplier acc (snd it)
         (nth (fst it) directions 0))
    (combine (seq 0 (length pattern)) pattern) 0.

(** [(i - 1 + bufferLength) % bufferLength] and [(i + 1) % bufferLength];
    [i - 1] is negative at [i = 0], so the arithmetic is done in [Z], with
    JavaScript's truncating remainder. *)
Definition prevIndex (i : nat) : nat :=
  Z.to_nat (Z.rem (Z.of_nat i - 1 + Z.of_nat bufferLength) (Z.of_nat bufferLength)).
Definition nextIndex (i : nat) : nat :=
  Z.to_nat (Z.rem (Z.of_nat i + 1) (Z.of_nat bufferLength)).

(** [(dataArray[prevIndex] + dataArray[i] * 2 + dataArray[nextIndex]) / 4] *)
Definition smoothedAudio (dataArray : list Z) (i : nat) : R :=
  IZR (nth (prevIndex i) dataArray 0 + nth i dataArray 0 * 2
       + nth (nextIndex i) dataArray 0)%Z / 4.

(** [((smoothedAudio - 128) / 128) * audioScale * audioAmplification] *)
Definition audioEffect (audioScale averageAudio : R) (dataArray : list Z)
    (i : nat) : R :=
  (smoothedAudio dataArray i - 128) / 128 * audioScale
  * audioAmplification averageAudio.

(** [baseRadius * (averageAudio / 128) * pulseScale] *)
Definition pulseEffect (baseRadius pulseScale averageAudio : R) : R :=
  baseRadius * (averageAudio / 128) * pulseScale.

(** [baseRadius + pulseEffect] *)
Definition pulsedRadius (baseRadius pulseScale averageAudio : R) : R :=
  baseRadius + pulseEffect baseRadius pulseScale averageAudio.

(** [undulationPattern.map(() => (Math.random() > 0.5 ? 1 : -1))]; [rnd k]
    is the draw made for the term at position [k]. *)
Definition newRotationDirections (pattern : list UndulationTerm)
    (rnd : nat -> R) : list R :=
  map (fun k => if Rlt_dec 0.5 (rnd k) then 1 else -1)
      (seq 0 (length pattern)).

(** ** FilledWaveform *)

Module FilledWaveform.

(** The destructured props with their defaults. *)
Definition baseRadius (p : WaveformProps) : R :=
  withDefault 10 (Props.baseRadius p).
Definition opacity (p : WaveformProps) : R :=
  withDefault 0.4 (Props.opacity p).
Definition smoothingFactor (p : WaveformProps) : R :=
  withDefault 0.1 (Props.smoothingFactor p).
Definition audioScale (p : WaveformProps) : R :=
  withDefault 0.8 (Props.audioScale p).
Definition speedScale (p : WaveformProps) : R :=
  withDefault 0.5 (Props.speedScale p).
Definition pulseScale (p : WaveformProps) : R :=
  withDefault 0.2 (Props.pulseScale p).
Definition undulationPattern (p : WaveformProps) : list UndulationTerm :=
  withDefault [mkTerm 3 0.3 0.8; mkTerm 5 0.2 0.5; mkTerm 2 0.4 1.2]
    (Props.undulationPattern p).

(** The refs and the state of one instance.  [positions] is the array of
    the geometry's position attribute, which is the array built by the
    [positions] memo. *)
Record State : Type := mkState {
  currentOpacity : R;
  previousSpeedMultiplier : R;
  currentRadii : list R;
  rotationDirections : list R;
  positions : list R
}.

(** The [positions] memo: edge and centre vertices of the initial circle. *)
Definition initialPositions (p : WaveformProps) : list R :=
  for_loop bufferLength
    (fun i posArray =>
       let posArray := store (i * 6) (cos (angle i) * baseRadius p) posArray in
       let posArray := store (i * 6 + 1) (sin (angle i) * baseRadius p) posArray in
       let posArray := store (i * 6 + 2) 0 posArray in
       let posArray := store (i * 6 + 3) 0 posArray in
       let posArray := store (i * 6 + 4) 0 posArray in
       store (i * 6 + 5) 0 posArray)
    (repeat 0 (bufferLength * 2 * 3)).

(** The first render of an instance; [rnd] are the draws of
    [rotationDirections]. *)
Definition mount (p : WaveformProps) (rnd : nat -> R) : State :=
  {| currentOpacity := 0;
     previousSpeedMultiplier := 1;
     currentRadii := repeat (baseRadius p) bufferLength;
     rotationDirections := newRotationDirections (undulationPattern p) rnd;
     positions := initialPositions p |}.

(** [Math.min(2.0, 1 + (averageAudio / 128) * speedScale)] *)
Definition targetSpeedMultiplier (p : WaveformProps) (averageAudio : R) : R :=
  Rmin 2.0 (1 + averageAudio / 128 * speedScale p).

(** The step of the speed blend: [Math.min(0.05, smoothingFactor)]. *)
Definition speedBlend (p : WaveformProps) : R :=
  Rmin 0.05 (smoothingFactor p).

(** [(Math.random() - 0.5) * (averageAudio / 128)] *)
Definition randomness (rnd averageAudio : R) : R :=
  (rnd - 0.5) * (averageAudio / 128).

(** The right-hand side of [currentRadii.current[i] += ...], added to the
    old entry [r]. *)
Definition nextRadius (p : WaveformProps) (env : FrameEnv)
    (dataArray : list Z) (i : nat) (r : R) : R :=
  let averageAudio := averageAudio (audioScale p) dataArray in
  r + (pulsedRadius (baseRadius p) (pulseScale p) averageAudio
       + audioEffect (audioScale p) averageAudio dataArray i
       + randomness (random env i) averageAudio
       - r) * smoothingFactor p.

(** The second loop of the [useFrame] callback, over the vertices; it
    mutates [currentRadii.current] and the position array, returned as a
    pair.  [speedMultiplier] is [previousSpeedMultiplier.current] after
    this frame's update. *)
Definition vertexLoop (p : WaveformProps) (env : FrameEnv)
    (dataArray : list Z) (speedMultiplier : R) (s : State) : list R * list R :=
  for_loop bufferLength
    (fun i arrays =>
       let currentRadii :=
         store i (nextRadius p env dataArray i (nth i (fst arrays) 0))
           (fst arrays) in
       let radius :=
         nth i currentRadii 0
         + undulation (undulationPattern p) (rotationDirections s)
             (angle i) (elapsedTime env) speedMultiplier in
       let positions := store (i * 6) (cos (angle i) * radius) (snd arrays) in
       let positions := store (i * 6 + 1) (sin (angle i) * radius) positions in
       (currentRadii, positions))
    (currentRadii s, positions s).

(** The body of the [useFrame] callback. *)
Definition useFrame (p : WaveformProps) (env : FrameEnv) (s : State) : State :=
  match analyser env, meshRef env with
  | Some dataArray, true =>
    let averageAudio := averageAudio (audioScale p) dataArray in
    let previousSpeedMultiplier :=
      previousSpeedMultiplier s
      + (targetSpeedMultiplier p averageAudio - previousSpeedMultiplier s)
        * speedBlend p in
    let arrays := vertexLoop p env dataArray previousSpeedMultiplier s in
    {| currentOpacity :=
         if Req_dec_T (currentOpacity s) 0 then opacity p else currentOpacity s;
       previousSpeedMultiplier := previousSpeedMultiplier;
       currentRadii := fst arrays;
       rotationDirections := rotationDirections s;
       positions := snd arrays |}
  | _, _ => s
  end.

(** A sequence of frames rendered with the same props. *)
Definition frames (p : WaveformProps) (envs : list FrameEnv) (s : State) : State :=
  fold_left (fun s env => useFrame p env s) envs s.

(** The local [radius] of vertex [i] in a frame that ended in state [s]. *)
Definition renderedRadius (p : WaveformProps) (env : FrameEnv) (s : State)
    (i : nat) : R :=
  nth i (currentRadii s) 0
  + undulation (undulationPattern p) (rotationDirections s)
      (angle i) (elapsedTime env) (previousSpeedMultiplier s).

(** The index buffer memo, a [Uint16Array] of [bufferLength * 3] entries;
    a store keeps the value modulo 2^16. *)
Definition indices (bufferLength : nat) : list Z :=
  for_loop bufferLength
    (fun i indices =>
       let nextI := Z.rem (Z.of_nat i + 1) (Z.of_nat bufferLength) in
       let indices :=
         store (i * 3) ((Z.of_nat i * 2) mod 65536)%Z indices in
       let indices :=
         store (i * 3 + 1) ((nextI * 2) mod 65536)%Z indices in
       store (i * 3 + 2) ((Z.of_nat i * 2 + 1) mod 65536)%Z indices)
    (repeat 0%Z (bufferLength * 3)).

End FilledWaveform.

(** ** OutlineWaveform *)

Module OutlineWaveform.

(** The destructured props with their defaults; [speedScale] is not among
    them. *)
Definition baseRadius (p : WaveformProps) : R :=
  withDefault 10 (Props.baseRadius p).
Definition opacity (p : WaveformProps) : R :=
  withDefault 0.8 (Props.opacity p).
Definition smoothingFactor (p : WaveformProps) : R :=
  withDefault 0.1 (Props.smoothingFactor p).
Definition audioScale (p : WaveformProps) : R :=
  withDefault 0.8 (Props.audioScale p).
Definition pulseScale (p : WaveformProps) : R :=
  withDefault 0.2 (Props.pulseScale p).
Definition increaseResponseRate (p : WaveformProps) : R :=
  withDefault 2.0 (Props.increaseResponseRate p).
Definition decreaseResponseRate (p : WaveformProps) : R :=
  withDefault 0.5 (Props.decreaseResponseRate p).
Definition undulationPattern (p : WaveformProps) : list UndulationTerm :=
  withDefault [mkTerm 2 0.3 1.5; mkTerm 4 0.4 0.4; mkTerm 3 0.2 0.6]
    (Props.undulationPattern p).

Record State : Type := mkState {
  currentOpacity : R;
  previousSpeedMultiplier : R;
  currentRadii : list R;
  rotationDirections : list R;
  previousAudioLevel : R;
  positions : list R
}.

(** The [positions] memo: the points of the initial circle. *)
Definition initialPositions (p : WaveformProps) : list R :=
  for_loop bufferLength
    (fun i posArray =>
       let posArray := store (i * 3) (cos (angle i) * baseRadius p) posArray in
       let posArray := store (i * 3 + 1) (sin (angle i) * baseRadius p) posArray in
       store (i * 3 + 2) 0 posArray)
    (repeat 0 (bufferLength * 3)).

Definition mount (p : WaveformProps) (rnd : nat -> R) : State :=
  {| currentOpacity := 0;
     previousSpeedMultiplier := 1;
     currentRadii := repeat (baseRadius p) bufferLength;
     rotationDirections := newRotationDirections (undulationPattern p) rnd;
     previousAudioLevel := 0;
     positions := initialPositions p |}.

(** [isIncreasing ? Math.min(0.08, smoothingFactor * increaseResponseRate)
                  : Math.min(0.04, smoothingFactor * decreaseResponseRate)]
    with [isIncreasing = averageAudio > previousAudioLevel.current]. *)
Definition dynamicSmoothingFactor (p : WaveformProps)
    (averageAudio previousAudioLevel : R) : R :=
  if Rlt_dec previousAudioLevel averageAudio
  then Rmin 0.08 (smoothingFactor p * increaseResponseRate p)
  else Rmin 0.04 (smoothingFactor p * decreaseResponseRate p).

(** [Math.min(2.0, 1 + (averageAudio / 128) * 0.5)] *)
Definition targetSpeedMultiplier (averageAudio : R) : R :=
  Rmin 2.0 (1 + averageAudio / 128 * 0.5).

(** [(Math.random() - 0.5) * (averageAudio / 128) * 0.75] *)
Definition randomness (rnd averageAudio : R) : R :=
  (rnd - 0.5) * (averageAudio / 128) * 0.75.

(** The right-hand side of [currentRadii.current[i] += ...], added to the
    old entry [r]; [factor] is the frame's [dynamicSmoothingFactor]. *)
Definition nextRadius (p : WaveformProps) (env : FrameEnv)
    (dataArray : list Z) (factor : R) (i : nat) (r : R) : R :=
  let averageAudio := averageAudio (audioScale p) dataArray in
  r + (pulsedRadius (baseRadius p) (pulseScale p) averageAudio
       + audioEffect (audioScale p) averageAudio dataArray i
       + randomness (random env i) averageAudio
       - r) * factor.

(** The second loop of the [useFrame] callback, over the vertices.
    [factor] is the frame's [dynamicSmoothingFactor] and [speedMultiplier]
    is [previousSpeedMultiplier.current] after this frame's update. *)
Definition vertexLoop (p : WaveformProps) (env : FrameEnv)
    (dataArray : list Z) (factor speedMultiplier : R) (s : State)
    : list R * list R :=
  for_loop bufferLength
    (fun i arrays =>
       let currentRadii :=
         store i (nextRadius p env dataArray factor i (nth i (fst arrays) 0))
           (fst arrays) in
       let radius :=
         nth i currentRadii 0
         + undulation (undulationPattern p) (rotationDirections s)
             (angle i) (elapsedTime env) speedMultiplier in
       let positions := store (i * 3) (cos (angle i) * radius) (snd arrays) in
       let positions := store (i * 3 + 1) (sin (angle i) * radius) positions in
       (currentRadii, positions))
    (currentRadii s, positions s).

(** The body of the [useFrame] callback. *)
Definition useFrame (p : WaveformProps) (env : FrameEnv) (s : State) : State :=
  match analyser env, meshRef env with
  | Some dataArray, true =>
    let averageAudio := averageAudio (audioScale p) dataArray in
    let dynamicSmoothingFactor :=
      dynamicSmoothingFactor p averageAudio (previousAudioLevel s) in
    let previousSpeedMultiplier :=
      previousSpeedMultiplier s
      + (targetSpeedMultiplier averageAudio - previousSpeedMultiplier s)
        * dynamicSmoothingFactor in
    let arrays :=
      vertexLoop p env dataArray dynamicSmoothingFactor
        previousSpeedMultiplier s in
    {| currentOpacity :=
         if Req_dec_T (currentOpacity s) 0 then opacity p else currentOpacity s;
       previousSpeedMultiplier := previousSpeedMultiplier;
       currentRadii := fst arrays;
       rotationDirections := rotationDirections s;
       previousAudioLevel := averageAudio;
       positions := snd arrays |}
  | _, _ => s
  end.

Definition frames (p : WaveformProps) (envs : list FrameEnv) (s : State) : State :=
  fold_left (fun s env => useFrame p env s) envs s.

Definition renderedRadius (p : WaveformProps) (env : FrameEnv) (s : State)
    (i : nat) : R :=
  nth i (currentRadii s) 0
  + undulation (undulationPattern p) (rotationDirections s)
      (angle i) (elapsedTime env) (previousSpeedMultiplier s).

End OutlineWaveform.

(** ** AudioWaveform and Scene *)

(** The five shared control values of [Scene]. *)
Record Controls : Type := mkControls {
  size : R;
  amplitudeFactor : R;
  audioFactor : R;
  speedFactor : R;
  pulseScale : R
}.

Inductive Layer : Type :=
| Filled (props : WaveformProps)
| Outline (props : WaveformProps).


Definition isOutline (l : Layer) : bool :=
  match l with
  | Filled _ => false
  | Outline _ => true
  end.

(** The props of a [<FilledWaveform ... />] element as [AudioWaveform]
    writes them. *)
Definition filledProps (baseRadius : R) (color color2 : string)
    (opacity smoothingFactor audioScale speedScale pulseScale : R)
    (undulationPattern : list UndulationTerm) : WaveformProps :=
  {| Props.baseRadius := Some baseRadius;
     Props.color := Some color;
     Props.opacity := Some opacity;
     Props.smoothingFactor := Some smoothingFactor;
     Props.audioScale := Some audioScale;
     Props.undulationPattern := Some undulationPattern;
     Props.increaseResponseRate := None;
     Props.decreaseResponseRate := None;
     Props.color2 := Some color2;
     Props.pulseScale := Some pulseScale;
     Props.speedScale := Some speedScale |}.

(** The props of an [<OutlineWaveform ... />] element as [AudioWaveform]
    writes them. *)
Definition outlineProps (baseRadius : R) (color : string)
    (opacity smoothingFactor audioScale pulseScale : R)
    (undulationPattern : list UndulationTerm) : WaveformProps :=
  {| Props.baseRadius := Some baseRadius;
     Props.color := Some color;
     Props.opacity := Some opacity;
     Props.smoothingFactor := Some smoothingFactor;
     Props.audioScale := Some audioScale;
     Props.undulationPattern := Some undulationPattern;
     Props.increaseResponseRate := None;
     Props.decreaseResponseRate := None;
     Props.color2 := None;
     Props.pulseScale := Some pulseScale;
     Props.speedScale := None |}.

(** The six elements that [AudioWaveform] returns, in order. *)
Definition AudioWaveform (c : Controls) : list Layer :=
  [ Filled (filledProps (size c * 0.9) "#60a5fa" "#3b82f6" 0.3 0.2
              (audioFactor c * 1.25) (speedFactor c * 0.75) (pulseScale c)
              [ mkTerm 4 (amplitudeFactor c * 0.3) 0.5;
                mkTerm 6 (amplitudeFactor c * 0.2) 0.3;
                mkTerm 2 (amplitudeFactor c * 0.3) 0.4 ]);
    Outline (outlineProps (size c * 0.875) "#fff" 1 0.15
               (audioFactor c * 2) (pulseScale c)
               [ mkTerm 3 (amplitudeFactor c * 0.3) 1.6;
                 mkTerm 5 (amplitudeFactor c * 0.3) 0.5;
                 mkTerm 2 (amplitudeFactor c * 0.2) 0.8 ]);
    Filled (filledProps (size c * 0.95) "#f472b6" "#ec4899" 0.2 0.15
              (audioFactor c * 1.5) (speedFactor c * 0.5) (pulseScale c)
              [ mkTerm 3 (amplitudeFactor c * 0.3) 0.4;
                mkTerm 5 (amplitudeFactor c * 0.2) 0.3;
                mkTerm 2 (amplitudeFactor c * 0.4) 0.5 ]);
    Outline (outlineProps (size c * 0.925) "#fff" 0.5 0.1
               (audioFactor c * 2.5) (pulseScale c)
               [ mkTerm 2 (amplitudeFactor c * 0.3) 1.5;
                 mkTerm 4 (amplitudeFactor c * 0.4) 0.4;
                 mkTerm 3 (amplitudeFactor c * 0.2) 0.6 ]);
    Filled (filledProps (size c * 1.0) "#c084fc" "#a855f7" 0.2 0.1
              (audioFactor c * 1.25) (speedFactor c * 0.375) (pulseScale c)
              [ mkTerm 2 (amplitudeFactor c * 0.2) 0.3;
                mkTerm 4 (amplitudeFactor c * 0.15) 0.2;
                mkTerm 3 (amplitudeFactor c * 0.25) 0.4 ]);
    Outline (outlineProps (size c * 0.975) "#fff" 0.25 0.08
               (audioFactor c * 1.75) (pulseScale c)
               [ mkTerm 2 (amplitudeFactor c * 0.25) 1.2;
                 mkTerm 3 (amplitudeFactor c * 0.3) 0.3;
                 mkTerm 4 (amplitudeFactor c * 0.15) 0.5 ]) ].

(** The initial values of the [useState] cells of [Scene]. *)
Definition initialControls : Controls :=
  {| size := 4.4; amplitudeFactor := 0.89; audioFactor := 0.78;
     speedFactor := 0.04; pulseScale := 1.25 |}.

(** The control state with another speed factor: what [setSpeedFactor v]
    leaves for the next render. *)
Definition setSpeedFactor (v : R) (c : Controls) : Controls :=
  {| size := size c; amplitudeFactor := amplitudeFactor c;
     audioFactor := audioFactor c; speedFactor := v;
     pulseScale := pulseScale c |}.

(** ** The fade-in timers and the frames of an instance's lifetime *)

(** The callback of the 100 ms timer of [FilledWaveform]:
    [setCurrentOpacity(opacity)]. *)
Definition filledFadeTimer (p : WaveformProps) (s : FilledWaveform.State)
    : FilledWaveform.State :=
  {| FilledWaveform.currentOpacity := FilledWaveform.opacity p;
     FilledWaveform.previousSpeedMultiplier :=
       FilledWaveform.previousSpeedMultiplier s;
     FilledWaveform.currentRadii := FilledWaveform.currentRadii s;
     FilledWaveform.rotationDirections := FilledWaveform.rotationDirections s;
     FilledWaveform.positions := FilledWaveform.positions s |}.

(** The callback of the 100 ms timer of [OutlineWaveform]. *)
Definition outlineFadeTimer (p : WaveformProps) (s : OutlineWaveform.State)
    : OutlineWaveform.State :=
  {| OutlineWaveform.currentOpacity := OutlineWaveform.opacity p;
     OutlineWaveform.previousSpeedMultiplier :=
       OutlineWaveform.previousSpeedMultiplier s;
     OutlineWaveform.currentRadii := OutlineWaveform.currentRadii s;
     OutlineWaveform.rotationDirections := OutlineWaveform.rotationDirections s;
     OutlineWaveform.previousAudioLevel := OutlineWaveform.previousAudioLevel s;
     OutlineWaveform.positions := OutlineWaveform.positions s |}.

(** What the render loop and the timer do to a mounted instance. *)
Inductive Event : Type :=
| FrameEvent (env : FrameEnv)
| FadeTimer.

Definition filledStep (p : WaveformProps) (s : FilledWaveform.State)
    (ev : Event) : FilledWaveform.State :=
  match ev with
  | FrameEvent env => FilledWaveform.useFrame p env s
  | FadeTimer => filledFadeTimer p s
  end.

Definition outlineStep (p : WaveformProps) (s : OutlineWaveform.State)
    (ev : Event) : OutlineWaveform.State :=
  match ev with
  | FrameEvent env => OutlineWaveform.useFrame p env s
  | FadeTimer => outlineFadeTimer p s
  end.

Definition filledPlay (p : WaveformProps) (evs : list Event)
    (s : FilledWaveform.State) : FilledWaveform.State :=
  fold_left (filledStep p) evs s.

Definition outlinePlay (p : WaveformProps) (evs : list Event)
    (s : OutlineWaveform.State) : OutlineWaveform.State :=
  fold_left (outlineStep p) evs s.

(** ** The fragment shaders *)

Record vec3 : Type := mkVec3 { red : R; green : R; blue : R }.

(** GLSL [mix(x, y, a)]: [x * (1 - a) + y * a]. *)
Definition mix (x y a : R) : R := x * (1 - a) + y * a.

Definition mix3 (x y : vec3) (a : R) : vec3 :=
  {| red := mix (red x) (red y) a;
     green := mix (green x) (green y) a;
     blue := mix (blue x) (blue y) a |}.

(** GLSL [clamp(x, lo, hi)]: [min(max(x, lo), hi)]. *)
Definition clamp (x lo hi : R) : R := Rmin (Rmax x lo) hi.

(** GLSL [smoothstep(edge0, edge1, x)]. *)
Definition smoothstep (edge0 edge1 x : R) : R :=
  let t := clamp ((x - edge0) / (edge1 - edge0)) 0 1 in
  t * t * (3 - 2 * t).

(** GLSL [length] of a [vec2]. *)
Definition length2 (x y : R) : R := sqrt (x * x + y * y).

Module GradientMaterial.

(** The fragment shader: the colour and the alpha written to
    [gl_FragColor] for the interpolated [vUv]. *)
Definition fragment (u v : R) : vec3 * R :=
  let dist := length2 (u - 0.5) (v - 0.5) * 2.0 in
  let color1 := mkVec3 1.0 0.2 0.8 in
  let color2 := mkVec3 0.2 0.0 0.8 in
  let color := mix3 color1 color2 dist in
  let circle := 1.0 - smoothstep 0.8 0.81 dist in
  let alpha := circle * 0.5 in
  (color, alpha).

End GradientMaterial.

Module GradientFillMaterial.

Record Uniforms : Type := mkUniforms {
  color1 : vec3;
  color2 : vec3;
  opacity : R;
  time : R
}.

(** The fragment shader at the interpolated position [(x, y, z)]: [None]
    when the fragment is discarded, otherwise the colour and the alpha. *)
Definition fragment (un : Uniforms) (x y z : R) : option (vec3 * R) :=
  let dist := length2 x y * 0.1 in
  let color := mix3 (color1 un) (color2 un) dist in
  let alpha := opacity un in
  if Rlt_dec alpha 0.01 then None else Some (color, alpha).

End GradientFillMaterial.

(** The uniforms that [FilledWaveform] passes to its material:
    [opacity={currentOpacity}]; the two colours are the parsed [color] and
    [color2] props. *)
Definition filledUniforms (c1 c2 : vec3) (s : FilledWaveform.State)
    : GradientFillMaterial.Uniforms :=
  {| GradientFillMaterial.color1 := c1;
     GradientFillMaterial.color2 := c2;
     GradientFillMaterial.opacity := FilledWaveform.currentOpacity s;
     GradientFillMaterial.time := 0 |}.

(** ** Controls

    The [min] and [max] attributes of the five range inputs. *)
Definition sliderRanges (c : Controls) : Prop :=
  4 <= size c <= 8 /\
  0.1 <= amplitudeFactor c <= 5 /\
  0.05 <= audioFactor c <= 3 /\
  0.01 <= speedFactor c <= 3 /\
  0 <= pulseScale c <= 5.

(** * Vocabulary of the properties

    Definitions that are not in the source: the inputs, the invariants and
    the measurements that the statements below talk about. *)

(** ** Inputs *)

(** A buffer whose bytes all equal [b]. *)
Definition constantBuffer (b : Z) : list Z := repeat b bufferLength.

(** A frame with audio, the mesh attached, time [t] and every random draw
    equal to [r]. *)
Definition audioFrame (dataArray : list Z) (t r : R) : FrameEnv :=
  {| analyser := Some dataArray; meshRef := true;
     elapsedTime := t; random := fun _ => r |}.

(** A frame of an instance whose microphone acquisition failed. *)
Definition deafFrame (t : R) : FrameEnv :=
  {| analyser := None; meshRef := true;
     elapsedTime := t; random := fun _ => 0 |}.

(** A frame whose buffer holds the byte 128 everywhere. *)
Definition silentFrame (env : FrameEnv) : Prop :=
  analyser env = Some (constantBuffer 128) /\ meshRef env = true.


(** Props whose smoothing factor and response rates are far above the
    recommended ranges. *)
Definition eagerProps : WaveformProps :=
  {| Props.baseRadius := None; Props.color := None; Props.opacity := None;
     Props.smoothingFactor := Some 1; Props.audioScale := None;
     Props.undulationPattern := None;
     Props.increaseResponseRate := Some 5;
     Props.decreaseResponseRate := Some 3;
     Props.color2 := None; Props.pulseScale := None;
     Props.speedScale := None |}.

(** The default props with another base radius. *)
Definition propsWithRadius (r : R) : WaveformProps :=
  {| Props.baseRadius := Some r; Props.color := None; Props.opacity := None;
     Props.smoothingFactor := None; Props.audioScale := None;
     Props.undulationPattern := None;
     Props.increaseResponseRate := None;
     Props.decreaseResponseRate := None;
     Props.color2 := None; Props.pulseScale := None;
     Props.speedScale := None |}.

(** The default of [nth] on the list of layers. *)
Definition noLayer : Layer := Filled Props.empty.

(** ** Instance states *)

(** The arrays of an instance have the lengths they are created with. *)
Definition filledWf (s : FilledWaveform.State) : Prop :=
  length (FilledWaveform.currentRadii s) = bufferLength /\
  length (FilledWaveform.positions s) = (bufferLength * 2 * 3)%nat.

Definition outlineWf (s : OutlineWaveform.State) : Prop :=
  length (OutlineWaveform.currentRadii s) = bufferLength /\
  length (OutlineWaveform.positions s) = (bufferLength * 3)%nat.

(** ** One frame, piece by piece *)

(** The body of the vertex loop of either component: entry [i] of the
    radius array is replaced by [f i] of its old value, [u i] is the
    undulation of vertex [i], and the two coordinates of the vertex are
    written at [i * stride] and [i * stride + 1]. *)
Definition vertexBody (stride : nat) (f : nat -> R -> R) (u : nat -> R)
    (i : nat) (arrays : list R * list R) : list R * list R :=
  let currentRadii := store i (f i (nth i (fst arrays) 0)) (fst arrays) in
  let radius := nth i currentRadii 0 + u i in
  let positions := store (i * stride) (cos (angle i) * radius) (snd arrays) in
  let positions := store (i * stride + 1) (sin (angle i) * radius) positions in
  (currentRadii, positions).

(** The speed multiplier that a frame with audio leaves in the filled
    layer, from the multiplier [m] before the frame. *)
Definition filledNextSpeed (p : WaveformProps) (dataArray : list Z) (m : R) : R :=
  m + (FilledWaveform.targetSpeedMultiplier p
         (averageAudio (FilledWaveform.audioScale p) dataArray) - m)
      * FilledWaveform.speedBlend p.

(** The dynamic smoothing factor of an outline frame with audio. *)
Definition outlineFactor (p : WaveformProps) (dataArray : list Z)
    (s : OutlineWaveform.State) : R :=
  OutlineWaveform.dynamicSmoothingFactor p
    (averageAudio (OutlineWaveform.audioScale p) dataArray)
    (OutlineWaveform.previousAudioLevel s).

(** The speed multiplier that a frame with audio leaves in the outline
    layer. *)
Definition outlineNextSpeed (p : WaveformProps) (dataArray : list Z)
    (s : OutlineWaveform.State) : R :=
  OutlineWaveform.previousSpeedMultiplier s
  + (OutlineWaveform.targetSpeedMultiplier
       (averageAudio (OutlineWaveform.audioScale p) dataArray)
     - OutlineWaveform.previousSpeedMultiplier s)
    * outlineFactor p dataArray s.

(** The dynamic smoothing factor of the outline layer in a frame whose
    level does not rise. *)
Definition fallingFactor (p : WaveformProps) : R :=
  Rmin 0.04 (OutlineWaveform.smoothingFactor p
             * OutlineWaveform.decreaseResponseRate p).

(** ** Measurements *)

(** Component [c] of the block of vertex [j] on the circle of radius [r];
    only the first two components of a block are non-zero. *)
Definition circleComponent (r : R) (j c : nat) : R :=
  match c with
  | O => cos (angle j) * r
  | 1%nat => sin (angle j) * r
  | _ => 0
  end.

(** The three entries of triangle [i] are the edge vertex [i], the edge
    vertex [(i + 1) mod 512] and the centre vertex [i]. *)
Definition triangleOk (indices : list Z) (i : nat) : bool :=
  (nth (3 * i) indices (-1) =? 2 * Z.of_nat i)%Z
  && (nth (3 * i + 1) indices (-1) =? 2 * ((Z.of_nat i + 1) mod 512))%Z
  && (nth (3 * i + 2) indices (-1) =? 2 * Z.of_nat i + 1)%Z.

(** A vertex slot of the filled layer: 0 .. 2 * 512 - 1. *)
Definition slotOk (v : Z) : bool := ((0 <=? v) && (v <=? 2 * 512 - 1))%Z.

(** A quantity that depends on the silent frames played so far comes as
    close to [limit] as wanted once enough of them have been played. *)
Definition settlesTo (x : list FrameEnv -> R) (limit : R) : Prop :=
  forall eps, 0 < eps ->
    exists N, forall envs,
      Forall silentFrame envs -> (N <= length envs)%nat ->
      Rabs (x envs - limit) < eps.



(** ** Vocabulary of the further properties *)

(** The guard of [useFrame] lets the frame through. *)
Definition hasAudio (env : FrameEnv) : bool :=
  match analyser env with
  | Some _ => meshRef env
  | None => false
  end.

(** An event that starts the fade-in: the timer, or a frame that passes the
    guard. *)
Definition startsFade (ev : Event) : bool :=
  match ev with
  | FrameEvent env => hasAudio env
  | FadeTimer => true
  end.

(** What the browser guarantees of a frame: the byte array, when there is
    one, has 512 bytes, and [Math.random] returns values in [0, 1). *)
Definition browserFrame (env : FrameEnv) : Prop :=
  (forall dataArray, analyser env = Some dataArray -> wf_dataArray dataArray) /\
  forall i, 0 <= random env i < 1.

(** How far the audio effect and the jitter can move the target of a
    radius entry away from the pulsed radius, in the filled and in the
    outline layer. *)
Definition filledSlack (audioScale : R) : R :=
  audioScale * (1 + 2 * audioScale) + 0.5 * audioScale.

Definition outlineSlack (audioScale : R) : R :=
  audioScale * (1 + 2 * audioScale) + 0.375 * audioScale.

(** The sum over the undulation terms of |amplitude|. *)
Definition amplitudeSum (pattern : list UndulationTerm) : R :=
  fold_right (fun term acc => Rabs (amplitude term) + acc) 0 pattern.

(** The base radius that a layer uses. *)
Definition layerBaseRadius (l : Layer) : R :=
  match l with
  | Filled p => FilledWaveform.baseRadius p
  | Outline p => OutlineWaveform.baseRadius p
  end.

(** ** Vocabulary of the re-render and loud-frame properties *)

(** The invariant of a live filled instance: the arrays have their lengths,
    the speed multiplier is in [1, 2] and every radius entry is in
    [lo, hi]. *)
Definition filledWithin (lo hi : R) (s : FilledWaveform.State) : Prop :=
  filledWf s /\
  1 <= FilledWaveform.previousSpeedMultiplier s <= 2 /\
  forall i, (i < 512)%nat ->
    lo <= nth i (FilledWaveform.currentRadii s) 0 <= hi.

Definition outlineWithin (lo hi : R) (s : OutlineWaveform.State) : Prop :=
  outlineWf s /\
  1 <= OutlineWaveform.previousSpeedMultiplier s <= 2 /\
  forall i, (i < 512)%nat ->
    lo <= nth i (OutlineWaveform.currentRadii s) 0 <= hi.

(** The control values after the size slider was moved to 8 and the audio
    slider to 0.05. *)
Definition movedControls : Controls :=
  {| size := 8; amplitudeFactor := 0.89; audioFactor := 0.05;
     speedFactor := 0.04; pulseScale := 1.25 |}.






(** * Properties *)

(** ** Stores and loops *)

Lemma length_store {A : Type} (i : nat) (v : A) (a : list A) :
  length (store i v a) = length a.
Proof.
  revert i; induction a as [|h t IH]; intros [|j]; simpl; auto.
Qed.

Lemma nth_store_same {A : Type} (i : nat) (v d : A) (a : list A) :
  (i < length a)%nat -> nth i (store i v a) d = v.
Proof.
  revert i; induction a as [|h t IH]; intros [|j] Hi; simpl in *;
    try lia; auto.
  apply IH; lia.
Qed.

Lemma nth_store_other {A : Type} (i j : nat) (v d : A) (a : list A) :
  i <> j -> nth j (store i v a) d = nth j a d.
Proof.
  revert i j; induction a as [|h t IH]; intros [|i] [|j] Hij; simpl;
    try reflexivity; try lia.
  apply IH; lia.
Qed.

Lemma for_loop_0 {T : Type} (body : nat -> T -> T) (init : T) :
  for_loop 0 body init = init.
Proof. reflexivity. Qed.

Lemma for_loop_S {T : Type} (n : nat) (body : nat -> T -> T) (init : T) :
  for_loop (S n) body init = body n (for_loop n body init).
Proof.
  unfold for_loop. rewrite seq_S, fold_left_app. reflexivity.
Qed.

Lemma INR_bufferLength : INR bufferLength = 512.
Proof. rewrite INR_IZR_INZ. reflexivity. Qed.

Lemma Rmin_cases (a b : R) : (Rmin a b = a /\ a <= b) \/ (Rmin a b = b /\ b <= a).
Proof.
  unfold Rmin; destruct (Rle_dec a b); [left | right]; split; lra.
Qed.

Lemma block_index_neq (stride n j c d : nat) :
  (d < 2)%nat -> (2 <= c < stride)%nat ->
  (n * stride + d <> j * stride + c)%nat.
Proof.
  intros Hd Hc Heq.
  destruct (Nat.lt_trichotomy n j) as [Hlt | [-> | Hgt]]; [nia | lia | nia].
Qed.

(** ** The vertex loop of [useFrame]

    Both components run the same loop shape: entry [i] of the radius array
    is replaced by [f i] of its old value, and the two coordinates of
    vertex [i] are written at [i * stride] and [i * stride + 1]. *)

Section VertexLoop.

Variable stride : nat.
Variable f : nat -> R -> R.
Variable u : nat -> R.
Hypothesis stride_ge_2 : (2 <= stride)%nat.

Lemma vertexLoop_length (n : nat) (radii pos : list R) :
  length (fst (for_loop n (vertexBody stride f u) (radii, pos))) = length radii /\
  length (snd (for_loop n (vertexBody stride f u) (radii, pos))) = length pos.
Proof.
  induction n as [|n [IHr IHp]]; [split; reflexivity|].
  rewrite for_loop_S. unfold vertexBody at 1 3; simpl.
  rewrite !length_store. auto.
Qed.

Lemma vertexLoop_radii_untouched (n i : nat) (radii pos : list R) :
  (n <= i)%nat ->
  nth i (fst (for_loop n (vertexBody stride f u) (radii, pos))) 0 = nth i radii 0.
Proof.
  induction n as [|n IH]; intros Hi; [reflexivity|].
  rewrite for_loop_S. unfold vertexBody at 1; simpl.
  rewrite nth_store_other by lia. apply IH; lia.
Qed.

Lemma vertexLoop_radii (n i : nat) (radii pos : list R) :
  (i < n)%nat -> (i < length radii)%nat ->
  nth i (fst (for_loop n (vertexBody stride f u) (radii, pos))) 0 = f i (nth i radii 0).
Proof.
  induction n as [|n IH]; intros Hi Hlen; [lia|].
  rewrite for_loop_S. unfold vertexBody at 1; simpl.
  destruct (Nat.eq_dec n i) as [->|Hne].
  - rewrite nth_store_same
      by (rewrite (proj1 (vertexLoop_length i radii pos)); exact Hlen).
    rewrite vertexLoop_radii_untouched by lia. reflexivity.
  - rewrite nth_store_other by exact Hne. apply IH; [lia | exact Hlen].
Qed.

Lemma vertexLoop_positions_x (n i : nat) (radii pos : list R) :
  (i < n)%nat -> (i < length radii)%nat -> (i * stride + 1 < length pos)%nat ->
  nth (i * stride) (snd (for_loop n (vertexBody stride f u) (radii, pos))) 0
  = cos (angle i) * (f i (nth i radii 0) + u i).
Proof.
  induction n as [|n IH]; intros Hi Hlen Hpos; [lia|].
  rewrite for_loop_S. unfold vertexBody at 1; simpl.
  rewrite nth_store_other by nia.
  destruct (Nat.eq_dec n i) as [->|Hne].
  - rewrite nth_store_same
      by (rewrite (proj2 (vertexLoop_length i radii pos)); lia).
    rewrite nth_store_same
      by (rewrite (proj1 (vertexLoop_length i radii pos)); exact Hlen).
    rewrite vertexLoop_radii_untouched by lia. reflexivity.
  - rewrite nth_store_other by nia. apply IH; [lia | exact Hlen | exact Hpos].
Qed.

Lemma vertexLoop_positions_y (n i : nat) (radii pos : list R) :
  (i < n)%nat -> (i < length radii)%nat -> (i * stride + 1 < length pos)%nat ->
  nth (i * stride + 1) (snd (for_loop n (vertexBody stride f u) (radii, pos))) 0
  = sin (angle i) * (f i (nth i radii 0) + u i).
Proof.
  induction n as [|n IH]; intros Hi Hlen Hpos; [lia|].
  rewrite for_loop_S. unfold vertexBody at 1; simpl.
  destruct (Nat.eq_dec n i) as [->|Hne].
  - rewrite nth_store_same
      by (rewrite length_store, (proj2 (vertexLoop_length i radii pos)); lia).
    rewrite nth_store_same
      by (rewrite (proj1 (vertexLoop_length i radii pos)); exact Hlen).
    rewrite vertexLoop_radii_untouched by lia. reflexivity.
  - rewrite !nth_store_other by nia. apply IH; [lia | exact Hlen | exact Hpos].
Qed.

(** Components 2 .. stride-1 of every vertex block are never written. *)
Lemma vertexLoop_positions_rest (n j c : nat) (radii pos : list R) :
  (2 <= c < stride)%nat ->
  nth (j * stride + c) (snd (for_loop n (vertexBody stride f u) (radii, pos))) 0
  = nth (j * stride + c) pos 0.
Proof.
  intros Hc. induction n as [|n IH]; [reflexivity|].
  rewrite for_loop_S. unfold vertexBody at 1; simpl.
  rewrite nth_store_other by (apply block_index_neq; lia).
  rewrite nth_store_other
    by (rewrite <- (Nat.add_0_r (n * stride)); apply block_index_neq; lia).
  exact IH.
Qed.

End VertexLoop.

(** ** One frame with audio, field by field *)

Lemma filled_vertexLoop_eq p env dataArray m s :
  FilledWaveform.vertexLoop p env dataArray m s
  = for_loop bufferLength
      (vertexBody 6 (FilledWaveform.nextRadius p env dataArray)
         (fun i => undulation (FilledWaveform.undulationPattern p)
                     (FilledWaveform.rotationDirections s)
                     (angle i) (elapsedTime env) m))
      (FilledWaveform.currentRadii s, FilledWaveform.positions s).
Proof. reflexivity. Qed.

Lemma outline_vertexLoop_eq p env dataArray k m s :
  OutlineWaveform.vertexLoop p env dataArray k m s
  = for_loop bufferLength
      (vertexBody 3 (OutlineWaveform.nextRadius p env dataArray k)
         (fun i => undulation (OutlineWaveform.undulationPattern p)
                     (OutlineWaveform.rotationDirections s)
                     (angle i) (elapsedTime env) m))
      (OutlineWaveform.currentRadii s, OutlineWaveform.positions s).
Proof. reflexivity. Qed.

Lemma filled_useFrame_audio p env s dataArray :
  analyser env = Some dataArray -> meshRef env = true ->
  FilledWaveform.useFrame p env s
  = let m := filledNextSpeed p dataArray
               (FilledWaveform.previousSpeedMultiplier s) in
    let arrays := FilledWaveform.vertexLoop p env dataArray m s in
    {| FilledWaveform.currentOpacity :=
         if Req_dec_T (FilledWaveform.currentOpacity s) 0
         then FilledWaveform.opacity p else FilledWaveform.currentOpacity s;
       FilledWaveform.previousSpeedMultiplier := m;
       FilledWaveform.currentRadii := fst arrays;
       FilledWaveform.rotationDirections := FilledWaveform.rotationDirections s;
       FilledWaveform.positions := snd arrays |}.
Proof.
  intros Ha Hm. unfold FilledWaveform.useFrame. rewrite Ha, Hm. reflexivity.
Qed.

Lemma outline_useFrame_audio p env s dataArray :
  analyser env = Some dataArray -> meshRef env = true ->
  OutlineWaveform.useFrame p env s
  = let k := outlineFactor p dataArray s in
    let m := outlineNextSpeed p dataArray s in
    let arrays := OutlineWaveform.vertexLoop p env dataArray k m s in
    {| OutlineWaveform.currentOpacity :=
         if Req_dec_T (OutlineWaveform.currentOpacity s) 0
         then OutlineWaveform.opacity p else OutlineWaveform.currentOpacity s;
       OutlineWaveform.previousSpeedMultiplier := m;
       OutlineWaveform.currentRadii := fst arrays;
       OutlineWaveform.rotationDirections := OutlineWaveform.rotationDirections s;
       OutlineWaveform.previousAudioLevel :=
         averageAudio (OutlineWaveform.audioScale p) dataArray;
       OutlineWaveform.positions := snd arrays |}.
Proof.
  intros Ha Hm. unfold OutlineWaveform.useFrame. rewrite Ha, Hm. reflexivity.
Qed.

Lemma filled_useFrame_idle p env s :
  analyser env = None \/ meshRef env = false ->
  FilledWaveform.useFrame p env s = s.
Proof.
  unfold FilledWaveform.useFrame.
  intros [-> | ->]; [reflexivity | destruct (analyser env); reflexivity].
Qed.

Lemma outline_useFrame_idle p env s :
  analyser env = None \/ meshRef env = false ->
  OutlineWaveform.useFrame p env s = s.
Proof.
  unfold OutlineWaveform.useFrame.
  intros [-> | ->]; [reflexivity | destruct (analyser env); reflexivity].
Qed.

(** ** The initial circle *)

Ltac store_other := rewrite nth_store_other by lia.
Ltac store_same :=
  rewrite nth_store_same by (rewrite ?length_store; assumption || lia).

Lemma filled_initial_loop p (L n : nat) :
  let posArray :=
    for_loop n
      (fun i posArray =>
         let posArray :=
           store (i * 6) (cos (angle i) * FilledWaveform.baseRadius p) posArray in
         let posArray :=
           store (i * 6 + 1) (sin (angle i) * FilledWaveform.baseRadius p)
             posArray in
         let posArray := store (i * 6 + 2) 0 posArray in
         let posArray := store (i * 6 + 3) 0 posArray in
         let posArray := store (i * 6 + 4) 0 posArray in
         store (i * 6 + 5) 0 posArray)
      (repeat 0 L) in
  length posArray = L /\
  forall j c, (c < 6)%nat -> (j * 6 + c < L)%nat ->
    nth (j * 6 + c) posArray 0
    = if (j <? n)%nat then circleComponent (FilledWaveform.baseRadius p) j c
      else 0.
Proof.
  induction n as [|n [IHlen IH]]; cbv zeta.
  - split; [apply repeat_length|].
    intros j c _ _. rewrite for_loop_0. simpl. apply nth_repeat.
  - rewrite for_loop_S. cbv zeta in IHlen, IH. split.
    + rewrite !length_store. exact IHlen.
    + intros j c Hc Hlt.
      destruct (Nat.eq_dec j n) as [->|Hne].
      * rewrite (proj2 (Nat.ltb_lt n (S n))) by lia.
        destruct c as [|[|[|[|[|[|c]]]]]]; try lia; simpl circleComponent.
        -- rewrite Nat.add_0_r in *. do 5 store_other. store_same. reflexivity.
        -- do 4 store_other. store_same. reflexivity.
        -- do 3 store_other. store_same. reflexivity.
        -- do 2 store_other. store_same. reflexivity.
        -- do 1 store_other. store_same. reflexivity.
        -- store_same. reflexivity.
      * do 6 store_other. rewrite IH by assumption.
        destruct (Nat.ltb_spec j n), (Nat.ltb_spec j (S n));
          try reflexivity; lia.
Qed.

Lemma outline_initial_loop p (L n : nat) :
  let posArray :=
    for_loop n
      (fun i posArray =>
         let posArray :=
           store (i * 3) (cos (angle i) * OutlineWaveform.baseRadius p) posArray in
         let posArray :=
           store (i * 3 + 1) (sin (angle i) * OutlineWaveform.baseRadius p)
             posArray in
         store (i * 3 + 2) 0 posArray)
      (repeat 0 L) in
  length posArray = L /\
  forall j c, (c < 3)%nat -> (j * 3 + c < L)%nat ->
    nth (j * 3 + c) posArray 0
    = if (j <? n)%nat then circleComponent (OutlineWaveform.baseRadius p) j c
      else 0.
Proof.
  induction n as [|n [IHlen IH]]; cbv zeta.
  - split; [apply repeat_length|].
    intros j c _ _. rewrite for_loop_0. simpl. apply nth_repeat.
  - rewrite for_loop_S. cbv zeta in IHlen, IH. split.
    + rewrite !length_store. exact IHlen.
    + intros j c Hc Hlt.
      destruct (Nat.eq_dec j n) as [->|Hne].
      * rewrite (proj2 (Nat.ltb_lt n (S n))) by lia.
        destruct c as [|[|[|c]]]; try lia; simpl circleComponent.
        -- rewrite Nat.add_0_r in *. do 2 store_other. store_same. reflexivity.
        -- do 1 store_other. store_same. reflexivity.
        -- store_same. reflexivity.
      * do 3 store_other. rewrite IH by assumption.
        destruct (Nat.ltb_spec j n), (Nat.ltb_spec j (S n));
          try reflexivity; lia.
Qed.

Lemma filled_initialPositions_length p :
  length (FilledWaveform.initialPositions p) = (bufferLength * 2 * 3)%nat.
Proof. exact (proj1 (filled_initial_loop p _ bufferLength)). Qed.

Lemma filled_initialPositions_nth p j c :
  (j < bufferLength)%nat -> (c < 6)%nat ->
  nth (j * 6 + c) (FilledWaveform.initialPositions p) 0
  = circleComponent (FilledWaveform.baseRadius p) j c.
Proof.
  intros Hj Hc.
  unfold FilledWaveform.initialPositions.
  rewrite (proj2 (filled_initial_loop p _ bufferLength))
    by (unfold bufferLength in *; lia).
  rewrite (proj2 (Nat.ltb_lt _ _) Hj). reflexivity.
Qed.

Lemma outline_initialPositions_length p :
  length (OutlineWaveform.initialPositions p) = (bufferLength * 3)%nat.
Proof. exact (proj1 (outline_initial_loop p _ bufferLength)). Qed.

Lemma outline_initialPositions_nth p j c :
  (j < bufferLength)%nat -> (c < 3)%nat ->
  nth (j * 3 + c) (OutlineWaveform.initialPositions p) 0
  = circleComponent (OutlineWaveform.baseRadius p) j c.
Proof.
  intros Hj Hc.
  unfold OutlineWaveform.initialPositions.
  rewrite (proj2 (outline_initial_loop p _ bufferLength))
    by (unfold bufferLength in *; lia).
  rewrite (proj2 (Nat.ltb_lt _ _) Hj). reflexivity.
Qed.

(** ** Lengths of the arrays *)

Lemma filled_useFrame_lengths p env s :
  length (FilledWaveform.currentRadii (FilledWaveform.useFrame p env s))
  = length (FilledWaveform.currentRadii s) /\
  length (FilledWaveform.positions (FilledWaveform.useFrame p env s))
  = length (FilledWaveform.positions s).
Proof.
  destruct (analyser env) as [dataArray|] eqn:Ha;
    [destruct (meshRef env) eqn:Hm|].
  - rewrite (filled_useFrame_audio p env s dataArray Ha Hm).
    cbv zeta. cbn [FilledWaveform.currentRadii FilledWaveform.positions].
    rewrite filled_vertexLoop_eq. apply vertexLoop_length.
  - rewrite filled_useFrame_idle by (right; exact Hm). split; reflexivity.
  - rewrite filled_useFrame_idle by (left; exact Ha). split; reflexivity.
Qed.

Lemma outline_useFrame_lengths p env s :
  length (OutlineWaveform.currentRadii (OutlineWaveform.useFrame p env s))
  = length (OutlineWaveform.currentRadii s) /\
  length (OutlineWaveform.positions (OutlineWaveform.useFrame p env s))
  = length (OutlineWaveform.positions s).
Proof.
  destruct (analyser env) as [dataArray|] eqn:Ha;
    [destruct (meshRef env) eqn:Hm|].
  - rewrite (outline_useFrame_audio p env s dataArray Ha Hm).
    cbv zeta. cbn [OutlineWaveform.currentRadii OutlineWaveform.positions].
    rewrite outline_vertexLoop_eq. apply vertexLoop_length.
  - rewrite outline_useFrame_idle by (right; exact Hm). split; reflexivity.
  - rewrite outline_useFrame_idle by (left; exact Ha). split; reflexivity.
Qed.

Lemma filled_frames_cons p env envs s :
  FilledWaveform.frames p (env :: envs) s
  = FilledWaveform.frames p envs (FilledWaveform.useFrame p env s).
Proof. reflexivity. Qed.

Lemma outline_frames_cons p env envs s :
  OutlineWaveform.frames p (env :: envs) s
  = OutlineWaveform.frames p envs (OutlineWaveform.useFrame p env s).
Proof. reflexivity. Qed.

Lemma filled_frames_lengths p envs s :
  length (FilledWaveform.currentRadii (FilledWaveform.frames p envs s))
  = length (FilledWaveform.currentRadii s) /\
  length (FilledWaveform.positions (FilledWaveform.frames p envs s))
  = length (FilledWaveform.positions s).
Proof.
  revert s; induction envs as [|env envs IH]; intros s; [split; reflexivity|].
  rewrite filled_frames_cons.
  destruct (IH (FilledWaveform.useFrame p env s)) as [-> ->].
  apply filled_useFrame_lengths.
Qed.

Lemma outline_frames_lengths p envs s :
  length (OutlineWaveform.currentRadii (OutlineWaveform.frames p envs s))
  = length (OutlineWaveform.currentRadii s) /\
  length (OutlineWaveform.positions (OutlineWaveform.frames p envs s))
  = length (OutlineWaveform.positions s).
Proof.
  revert s; induction envs as [|env envs IH]; intros s; [split; reflexivity|].
  rewrite outline_frames_cons.
  destruct (IH (OutlineWaveform.useFrame p env s)) as [-> ->].
  apply outline_useFrame_lengths.
Qed.

(** ** Well-formed instance states *)

Lemma filledWf_mount p rnd : filledWf (FilledWaveform.mount p rnd).
Proof.
  split; [apply repeat_length | apply filled_initialPositions_length].
Qed.

Lemma outlineWf_mount p rnd : outlineWf (OutlineWaveform.mount p rnd).
Proof.
  split; [apply repeat_length | apply outline_initialPositions_length].
Qed.

Lemma filledWf_useFrame p env s :
  filledWf s -> filledWf (FilledWaveform.useFrame p env s).
Proof.
  intros [Hr Hp]. destruct (filled_useFrame_lengths p env s) as [Er Ep].
  split; congruence.
Qed.

Lemma outlineWf_useFrame p env s :
  outlineWf s -> outlineWf (OutlineWaveform.useFrame p env s).
Proof.
  intros [Hr Hp]. destruct (outline_useFrame_lengths p env s) as [Er Ep].
  split; congruence.
Qed.

Lemma filledWf_frames p envs s :
  filledWf s -> filledWf (FilledWaveform.frames p envs s).
Proof.
  intros [Hr Hp]. destruct (filled_frames_lengths p envs s) as [Er Ep].
  split; congruence.
Qed.

Lemma outlineWf_frames p envs s :
  outlineWf s -> outlineWf (OutlineWaveform.frames p envs s).
Proof.
  intros [Hr Hp]. destruct (outline_frames_lengths p envs s) as [Er Ep].
  split; congruence.
Qed.

(** ** What a frame with audio writes *)

Lemma filled_useFrame_speed p env s dataArray :
  analyser env = Some dataArray -> meshRef env = true ->
  FilledWaveform.previousSpeedMultiplier (FilledWaveform.useFrame p env s)
  = filledNextSpeed p dataArray (FilledWaveform.previousSpeedMultiplier s).
Proof.
  intros Ha Hm. rewrite (filled_useFrame_audio p env s dataArray Ha Hm).
  reflexivity.
Qed.

Lemma outline_useFrame_speed p env s dataArray :
  analyser env = Some dataArray -> meshRef env = true ->
  OutlineWaveform.previousSpeedMultiplier (OutlineWaveform.useFrame p env s)
  = outlineNextSpeed p dataArray s.
Proof.
  intros Ha Hm. rewrite (outline_useFrame_audio p env s dataArray Ha Hm).
  reflexivity.
Qed.

Lemma outline_useFrame_level p env s dataArray :
  analyser env = Some dataArray -> meshRef env = true ->
  OutlineWaveform.previousAudioLevel (OutlineWaveform.useFrame p env s)
  = averageAudio (OutlineWaveform.audioScale p) dataArray.
Proof.
  intros Ha Hm. rewrite (outline_useFrame_audio p env s dataArray Ha Hm).
  reflexivity.
Qed.

Lemma filled_useFrame_radius p env s dataArray i :
  analyser env = Some dataArray -> meshRef env = true ->
  filledWf s -> (i < bufferLength)%nat ->
  nth i (FilledWaveform.currentRadii (FilledWaveform.useFrame p env s)) 0
  = FilledWaveform.nextRadius p env dataArray i
      (nth i (FilledWaveform.currentRadii s) 0).
Proof.
  intros Ha Hm [Hr Hp] Hi.
  rewrite (filled_useFrame_audio p env s dataArray Ha Hm).
  cbv zeta. cbn [FilledWaveform.currentRadii].
  rewrite filled_vertexLoop_eq.
  apply vertexLoop_radii; rewrite ?Hr; solve [exact Hi | lia].
Qed.

Lemma outline_useFrame_radius p env s dataArray i :
  analyser env = Some dataArray -> meshRef env = true ->
  outlineWf s -> (i < bufferLength)%nat ->
  nth i (OutlineWaveform.currentRadii (OutlineWaveform.useFrame p env s)) 0
  = OutlineWaveform.nextRadius p env dataArray (outlineFactor p dataArray s) i
      (nth i (OutlineWaveform.currentRadii s) 0).
Proof.
  intros Ha Hm [Hr Hp] Hi.
  rewrite (outline_useFrame_audio p env s dataArray Ha Hm).
  cbv zeta. cbn [OutlineWaveform.currentRadii].
  rewrite outline_vertexLoop_eq.
  apply vertexLoop_radii; rewrite ?Hr; solve [exact Hi | lia].
Qed.

(** The coordinates written for vertex [i] are the point at [angle i] and
    distance [renderedRadius] from the origin. *)
Lemma filled_useFrame_vertex p env s dataArray i :
  analyser env = Some dataArray -> meshRef env = true ->
  filledWf s -> (i < bufferLength)%nat ->
  let s' := FilledWaveform.useFrame p env s in
  nth (i * 6) (FilledWaveform.positions s') 0
  = cos (angle i) * FilledWaveform.renderedRadius p env s' i /\
  nth (i * 6 + 1) (FilledWaveform.positions s') 0
  = sin (angle i) * FilledWaveform.renderedRadius p env s' i.
Proof.
  intros Ha Hm Hwf Hi s'.
  unfold FilledWaveform.renderedRadius. subst s'.
  rewrite (filled_useFrame_radius p env s dataArray i Ha Hm Hwf Hi).
  destruct Hwf as [Hr Hp].
  rewrite (filled_useFrame_audio p env s dataArray Ha Hm).
  cbv zeta.
  cbn [FilledWaveform.positions FilledWaveform.rotationDirections
       FilledWaveform.previousSpeedMultiplier].
  rewrite filled_vertexLoop_eq.
  split;
    [apply vertexLoop_positions_x | apply vertexLoop_positions_y];
    try lia; try exact Hi;
    rewrite ?Hr, ?Hp; unfold bufferLength in *; lia.
Qed.

Lemma outline_useFrame_vertex p env s dataArray i :
  analyser env = Some dataArray -> meshRef env = true ->
  outlineWf s -> (i < bufferLength)%nat ->
  let s' := OutlineWaveform.useFrame p env s in
  nth (i * 3) (OutlineWaveform.positions s') 0
  = cos (angle i) * OutlineWaveform.renderedRadius p env s' i /\
  nth (i * 3 + 1) (OutlineWaveform.positions s') 0
  = sin (angle i) * OutlineWaveform.renderedRadius p env s' i.
Proof.
  intros Ha Hm Hwf Hi s'.
  unfold OutlineWaveform.renderedRadius. subst s'.
  rewrite (outline_useFrame_radius p env s dataArray i Ha Hm Hwf Hi).
  destruct Hwf as [Hr Hp].
  rewrite (outline_useFrame_audio p env s dataArray Ha Hm).
  cbv zeta.
  cbn [OutlineWaveform.positions OutlineWaveform.rotationDirections
       OutlineWaveform.previousSpeedMultiplier].
  rewrite outline_vertexLoop_eq.
  split;
    [apply vertexLoop_positions_x | apply vertexLoop_positions_y];
    try lia; try exact Hi;
    rewrite ?Hr, ?Hp; unfold bufferLength in *; lia.
Qed.

(** ** Components that no frame writes *)

Lemma filled_useFrame_rest p env s j c :
  (2 <= c < 6)%nat ->
  nth (j * 6 + c) (FilledWaveform.positions (FilledWaveform.useFrame p env s)) 0
  = nth (j * 6 + c) (FilledWaveform.positions s) 0.
Proof.
  intros Hc.
  destruct (analyser env) as [dataArray|] eqn:Ha;
    [destruct (meshRef env) eqn:Hm|].
  - rewrite (filled_useFrame_audio p env s dataArray Ha Hm).
    cbv zeta. cbn [FilledWaveform.positions].
    rewrite filled_vertexLoop_eq.
    apply vertexLoop_positions_rest; lia.
  - rewrite filled_useFrame_idle by (right; exact Hm). reflexivity.
  - rewrite filled_useFrame_idle by (left; exact Ha). reflexivity.
Qed.

Lemma outline_useFrame_rest p env s j :
  nth (j * 3 + 2) (OutlineWaveform.positions (OutlineWaveform.useFrame p env s)) 0
  = nth (j * 3 + 2) (OutlineWaveform.positions s) 0.
Proof.
  destruct (analyser env) as [dataArray|] eqn:Ha;
    [destruct (meshRef env) eqn:Hm|].
  - rewrite (outline_useFrame_audio p env s dataArray Ha Hm).
    cbv zeta. cbn [OutlineWaveform.positions].
    rewrite outline_vertexLoop_eq.
    apply vertexLoop_positions_rest; lia.
  - rewrite outline_useFrame_idle by (right; exact Hm). reflexivity.
  - rewrite outline_useFrame_idle by (left; exact Ha). reflexivity.
Qed.

Lemma filled_frames_rest p envs s j c :
  (2 <= c < 6)%nat ->
  nth (j * 6 + c) (FilledWaveform.positions (FilledWaveform.frames p envs s)) 0
  = nth (j * 6 + c) (FilledWaveform.positions s) 0.
Proof.
  intros Hc. revert s; induction envs as [|env envs IH]; intros s;
    [reflexivity|].
  rewrite filled_frames_cons, IH. apply filled_useFrame_rest; exact Hc.
Qed.

Lemma outline_frames_rest p envs s j :
  nth (j * 3 + 2) (OutlineWaveform.positions (OutlineWaveform.frames p envs s)) 0
  = nth (j * 3 + 2) (OutlineWaveform.positions s) 0.
Proof.
  revert s; induction envs as [|env envs IH]; intros s; [reflexivity|].
  rewrite outline_frames_cons, IH. apply outline_useFrame_rest.
Qed.

(** ** Constant buffers *)

Lemma constantBuffer_wf b : (0 <= b <= 255)%Z -> wf_dataArray (constantBuffer b).
Proof.
  intros Hb. split; [apply repeat_length|].
  apply Forall_forall. intros x Hx. apply repeat_spec in Hx. subst x. exact Hb.
Qed.

Lemma audioSum_silent : audioSum (constantBuffer 128) = 0%Z.
Proof. vm_compute. reflexivity. Qed.

Lemma audioSum_loud : audioSum (constantBuffer 255) = 65024%Z.
Proof. vm_compute. reflexivity. Qed.

Lemma averageAudio_silent audioScale :
  averageAudio audioScale (constantBuffer 128) = 0.
Proof.
  unfold averageAudio. rewrite audioSum_silent, INR_bufferLength. lra.
Qed.

Lemma averageAudio_loud audioScale :
  averageAudio audioScale (constantBuffer 255) = 127 * audioScale.
Proof.
  unfold averageAudio. rewrite audioSum_loud, INR_bufferLength. lra.
Qed.

Lemma nth_repeat_lt {A : Type} (a d : A) (m n : nat) :
  (n < m)%nat -> nth n (repeat a m) d = a.
Proof.
  revert n; induction m as [|m IH]; intros [|n] Hn; simpl; try lia; auto.
  apply IH; lia.
Qed.

Lemma prevIndex_lt i : (prevIndex i < bufferLength)%nat.
Proof.
  unfold prevIndex, bufferLength.
  pose proof (Z.rem_bound_pos (Z.of_nat i - 1 + Z.of_nat 512) (Z.of_nat 512)).
  lia.
Qed.

Lemma nextIndex_lt i : (nextIndex i < bufferLength)%nat.
Proof.
  unfold nextIndex, bufferLength.
  pose proof (Z.rem_bound_pos (Z.of_nat i + 1) (Z.of_nat 512)).
  lia.
Qed.

Lemma smoothedAudio_constant b i :
  (i < bufferLength)%nat -> smoothedAudio (constantBuffer b) i = IZR b.
Proof.
  intros Hi. unfold smoothedAudio, constantBuffer.
  rewrite !nth_repeat_lt by (exact Hi || apply prevIndex_lt || apply nextIndex_lt).
  replace (b + b * 2 + b)%Z with (4 * b)%Z by lia.
  rewrite mult_IZR. lra.
Qed.

(** * The claims *)

(** C8.  The per-vertex radius array of a layer instance, filled or
    outline, has exactly 512 entries when the instance is created, and it
    still has 512 entries after any sequence of frames, whether or not
    audio is available in a frame. *)
Theorem radii_length_fixed :
  (forall p rnd envs,
     length (FilledWaveform.currentRadii (FilledWaveform.mount p rnd))
     = 512%nat /\
     length (FilledWaveform.currentRadii
               (FilledWaveform.frames p envs (FilledWaveform.mount p rnd)))
     = 512%nat) /\
  (forall p rnd envs,
     length (OutlineWaveform.currentRadii (OutlineWaveform.mount p rnd))
     = 512%nat /\
     length (OutlineWaveform.currentRadii
               (OutlineWaveform.frames p envs (OutlineWaveform.mount p rnd)))
     = 512%nat).
Proof.
  split; intros p rnd envs.
  - rewrite (proj1 (filled_frames_lengths p envs _)).
    split; apply repeat_length.
  - rewrite (proj1 (outline_frames_lengths p envs _)).
    split; apply repeat_length.
Qed.

(** C10.  A frame writes only the x and y components of edge vertices.  In
    the filled layer the z component of every edge vertex (component
    [6 i + 2]) and the three components of every centre vertex
    ([6 i + 3 .. 6 i + 5]) are 0 after any number of frames; in the outline
    layer every z component ([3 i + 2]) is 0 after any number of frames. *)
Theorem frames_write_only_edge_xy :
  (forall p rnd envs i c,
     (i < 512)%nat -> (2 <= c <= 5)%nat ->
     nth (i * 6 + c)
       (FilledWaveform.positions
          (FilledWaveform.frames p envs (FilledWaveform.mount p rnd))) 0 = 0) /\
  (forall p rnd envs i,
     (i < 512)%nat ->
     nth (i * 3 + 2)
       (OutlineWaveform.positions
          (OutlineWaveform.frames p envs (OutlineWaveform.mount p rnd))) 0 = 0).
Proof.
  split.
  - intros p rnd envs i c Hi Hc.
    rewrite filled_frames_rest by lia.
    cbn [FilledWaveform.mount FilledWaveform.positions].
    rewrite filled_initialPositions_nth by (exact Hi || lia).
    destruct c as [|[|c]]; [lia | lia | reflexivity].
  - intros p rnd envs i Hi.
    rewrite outline_frames_rest.
    cbn [OutlineWaveform.mount OutlineWaveform.positions].
    rewrite outline_initialPositions_nth by (exact Hi || lia).
    reflexivity.
Qed.

Lemma frames_write_only_edge_xy_witness :
  nth (7 * 6 + 4)
    (FilledWaveform.positions
       (FilledWaveform.frames Props.empty
          [audioFrame (constantBuffer 255) 1 0.25]
          (FilledWaveform.mount Props.empty (fun _ => 0)))) 0 = 0 /\
  nth (7 * 3 + 2)
    (OutlineWaveform.positions
       (OutlineWaveform.frames Props.empty
          [audioFrame (constantBuffer 255) 1 0.25]
          (OutlineWaveform.mount Props.empty (fun _ => 0)))) 0 = 0.
Proof.
  split.
  - apply (proj1 frames_write_only_edge_xy); lia.
  - apply (proj2 frames_write_only_edge_xy); lia.
Defined.

(** ** Frames without a sampler *)

Lemma filled_frames_idle p envs s :
  Forall (fun env => analyser env = None) envs ->
  FilledWaveform.frames p envs s = s.
Proof.
  intros H; revert s; induction H as [|env envs Hx _ IH]; intros s;
    [reflexivity|].
  rewrite filled_frames_cons, filled_useFrame_idle by (left; exact Hx).
  apply IH.
Qed.

Lemma outline_frames_idle p envs s :
  Forall (fun env => analyser env = None) envs ->
  OutlineWaveform.frames p envs s = s.
Proof.
  intros H; revert s; induction H as [|env envs Hx _ IH]; intros s;
    [reflexivity|].
  rewrite outline_frames_cons, outline_useFrame_idle by (left; exact Hx).
  apply IH.
Qed.

(** C4.  When the sampler is unavailable (the analyser ref is null in every
    frame), every frame of a layer, filled or outline, leaves the state as
    it is, for every elapsed time: after any number of frames the state is
    the one of creation, so the radius array holds [baseRadius] everywhere,
    the speed multiplier is 1, and the vertices are on the initial circle
    of radius [baseRadius], x = cos(angle) * baseRadius and
    y = sin(angle) * baseRadius, with no undulation added. *)
Theorem no_sampler_no_update :
  (forall p rnd envs,
     Forall (fun env => analyser env = None) envs ->
     let s := FilledWaveform.frames p envs (FilledWaveform.mount p rnd) in
     s = FilledWaveform.mount p rnd /\
     FilledWaveform.currentRadii s
     = repeat (FilledWaveform.baseRadius p) 512 /\
     FilledWaveform.previousSpeedMultiplier s = 1 /\
     forall i, (i < 512)%nat ->
       nth (i * 6) (FilledWaveform.positions s) 0
       = cos (angle i) * FilledWaveform.baseRadius p /\
       nth (i * 6 + 1) (FilledWaveform.positions s) 0
       = sin (angle i) * FilledWaveform.baseRadius p) /\
  (forall p rnd envs,
     Forall (fun env => analyser env = None) envs ->
     let s := OutlineWaveform.frames p envs (OutlineWaveform.mount p rnd) in
     s = OutlineWaveform.mount p rnd /\
     OutlineWaveform.currentRadii s
     = repeat (OutlineWaveform.baseRadius p) 512 /\
     OutlineWaveform.previousSpeedMultiplier s = 1 /\
     forall i, (i < 512)%nat ->
       nth (i * 3) (OutlineWaveform.positions s) 0
       = cos (angle i) * OutlineWaveform.baseRadius p /\
       nth (i * 3 + 1) (OutlineWaveform.positions s) 0
       = sin (angle i) * OutlineWaveform.baseRadius p).
Proof.
  split; intros p rnd envs Hidle; cbv zeta.
  - rewrite (filled_frames_idle p envs _ Hidle).
    split; [reflexivity | split; [reflexivity | split; [reflexivity|]]].
    intros i Hi; split.
    + pose proof (filled_initialPositions_nth p i 0 Hi) as Hx.
      rewrite Nat.add_0_r in Hx. apply Hx; lia.
    + apply (filled_initialPositions_nth p i 1 Hi); lia.
  - rewrite (outline_frames_idle p envs _ Hidle).
    split; [reflexivity | split; [reflexivity | split; [reflexivity|]]].
    intros i Hi; split.
    + pose proof (outline_initialPositions_nth p i 0 Hi) as Hx.
      rewrite Nat.add_0_r in Hx. apply Hx; lia.
    + apply (outline_initialPositions_nth p i 1 Hi); lia.
Qed.

Lemma no_sampler_no_update_witness :
  let p := Props.empty in
  let envs := [deafFrame 0; deafFrame 1.5] in
  (let s := FilledWaveform.frames p envs (FilledWaveform.mount p (fun _ => 0)) in
   s = FilledWaveform.mount p (fun _ => 0) /\
   nth (128 * 6) (FilledWaveform.positions s) 0
   = cos (angle 128) * FilledWaveform.baseRadius p /\
   nth (128 * 6 + 1) (FilledWaveform.positions s) 0
   = sin (angle 128) * FilledWaveform.baseRadius p) /\
  (let s := OutlineWaveform.frames p envs (OutlineWaveform.mount p (fun _ => 0)) in
   s = OutlineWaveform.mount p (fun _ => 0) /\
   nth (128 * 3) (OutlineWaveform.positions s) 0
   = cos (angle 128) * OutlineWaveform.baseRadius p /\
   nth (128 * 3 + 1) (OutlineWaveform.positions s) 0
   = sin (angle 128) * OutlineWaveform.baseRadius p).
Proof.
  intros p envs.
  assert (Hdeaf : Forall (fun env => analyser env = None) envs).
  { repeat (apply Forall_cons; [reflexivity|]). apply Forall_nil. }
  split.
  - destruct (proj1 no_sampler_no_update p (fun _ => 0) envs Hdeaf)
      as (Hs & _ & _ & Hpos).
    split; [exact Hs | exact (Hpos 128%nat ltac:(lia))].
  - destruct (proj2 no_sampler_no_update p (fun _ => 0) envs Hdeaf)
      as (Hs & _ & _ & Hpos).
    split; [exact Hs | exact (Hpos 128%nat ltac:(lia))].
Defined.

(** ** The index buffer of the filled layer *)

Lemma indices_checked :
  (length (FilledWaveform.indices 512) =? 3 * 512)%nat
  && forallb slotOk (FilledWaveform.indices 512)
  && forallb (triangleOk (FilledWaveform.indices 512)) (seq 0 512) = true.
Proof. vm_compute. reflexivity. Qed.

(** C5.  For the buffer length N = 512 the index buffer of the filled layer
    has exactly 3 N entries, every entry is a vertex slot in 0 .. 2 N - 1,
    and triangle i is (2 i, 2 ((i + 1) mod N), 2 i + 1): edge vertex i, edge
    vertex (i + 1) mod N and centre vertex i, for every i in 0 .. N - 1. *)
Theorem indices_triangulation :
  length (FilledWaveform.indices 512) = (3 * 512)%nat /\
  Forall (fun v => (0 <= v <= 2 * 512 - 1)%Z) (FilledWaveform.indices 512) /\
  forall i, (i < 512)%nat ->
    nth (3 * i) (FilledWaveform.indices 512) (-1)%Z
    = (2 * Z.of_nat i)%Z /\
    nth (3 * i + 1) (FilledWaveform.indices 512) (-1)%Z
    = (2 * ((Z.of_nat i + 1) mod 512))%Z /\
    nth (3 * i + 2) (FilledWaveform.indices 512) (-1)%Z
    = (2 * Z.of_nat i + 1)%Z.
Proof.
  pose proof indices_checked as H.
  apply andb_prop in H; destruct H as [H Htri].
  apply andb_prop in H; destruct H as [Hlen Hslot].
  split; [|split].
  - apply Nat.eqb_eq. exact Hlen.
  - apply Forall_forall. intros v Hv.
    rewrite forallb_forall in Hslot. specialize (Hslot v Hv).
    unfold slotOk in Hslot. apply andb_prop in Hslot.
    destruct Hslot as [H0 H1].
    apply Z.leb_le in H0. apply Z.leb_le in H1. split; assumption.
  - intros i Hi.
    rewrite forallb_forall in Htri.
    assert (Hin : In i (seq 0 512)) by (apply in_seq; lia).
    specialize (Htri i Hin). unfold triangleOk in Htri.
    apply andb_prop in Htri; destruct Htri as [Htri H2].
    apply andb_prop in Htri; destruct Htri as [H0 H1].
    apply Z.eqb_eq in H0, H1, H2. repeat split; assumption.
Qed.

Lemma indices_triangulation_witness :
  nth (3 * 511) (FilledWaveform.indices 512) (-1)%Z = 1022%Z /\
  nth (3 * 511 + 1) (FilledWaveform.indices 512) (-1)%Z = 0%Z /\
  nth (3 * 511 + 2) (FilledWaveform.indices 512) (-1)%Z = 1023%Z.
Proof.
  destruct indices_triangulation as [_ [_ H]].
  exact (H 511%nat ltac:(lia)).
Defined.

(** ** The angle of an angular index *)

Lemma angle_closed_form (i : nat) : angle i = INR i / 512 * (2 * PI) - PI / 2.
Proof. unfold angle. rewrite INR_bufferLength. lra. Qed.

(** C6, as the claim states it, fails at the last index: the spec's formula
    gives a full turn there, [511 / 511 * 2 PI - PI / 2], while the code
    divides by the buffer length 512. *)
Lemma angle_divides_by_511_counterexample :
  angle 511 <> INR 511 / 511 * (2 * PI) - PI / 2.
Proof.
  rewrite angle_closed_form.
  replace (INR 511) with 511 by (rewrite INR_IZR_INZ; reflexivity).
  pose proof PI_RGT_0. lra.
Qed.

(** C6, amended.  In the frame update of both layer kinds the angle of
    angular index i is i / 512 * 2 PI - PI / 2 (the divisor is the buffer
    length 512, not 511): a frame with audio writes, for every i in
    0 .. 511, x = cos(that angle) * radius and y = sin(that angle) * radius
    for the vertex's rendered radius. *)
Theorem angle_divides_by_buffer_length :
  (forall i, angle i = INR i / 512 * (2 * PI) - PI / 2) /\
  (forall p rnd envs env dataArray i,
     analyser env = Some dataArray -> meshRef env = true -> (i < 512)%nat ->
     let s' :=
       FilledWaveform.useFrame p env
         (FilledWaveform.frames p envs (FilledWaveform.mount p rnd)) in
     nth (i * 6) (FilledWaveform.positions s') 0
     = cos (INR i / 512 * (2 * PI) - PI / 2)
       * FilledWaveform.renderedRadius p env s' i /\
     nth (i * 6 + 1) (FilledWaveform.positions s') 0
     = sin (INR i / 512 * (2 * PI) - PI / 2)
       * FilledWaveform.renderedRadius p env s' i) /\
  (forall p rnd envs env dataArray i,
     analyser env = Some dataArray -> meshRef env = true -> (i < 512)%nat ->
     let s' :=
       OutlineWaveform.useFrame p env
         (OutlineWaveform.frames p envs (OutlineWaveform.mount p rnd)) in
     nth (i * 3) (OutlineWaveform.positions s') 0
     = cos (INR i / 512 * (2 * PI) - PI / 2)
       * OutlineWaveform.renderedRadius p env s' i /\
     nth (i * 3 + 1) (OutlineWaveform.positions s') 0
     = sin (INR i / 512 * (2 * PI) - PI / 2)
       * OutlineWaveform.renderedRadius p env s' i).
Proof.
  split; [exact angle_closed_form | split].
  - intros p rnd envs env dataArray i Ha Hm Hi.
    rewrite <- angle_closed_form.
    apply (filled_useFrame_vertex p env _ dataArray i Ha Hm);
      [apply filledWf_frames, filledWf_mount | exact Hi].
  - intros p rnd envs env dataArray i Ha Hm Hi.
    rewrite <- angle_closed_form.
    apply (outline_useFrame_vertex p env _ dataArray i Ha Hm);
      [apply outlineWf_frames, outlineWf_mount | exact Hi].
Qed.

Lemma angle_divides_by_buffer_length_witness :
  let p := Props.empty in
  let env := audioFrame (constantBuffer 255) 1 0.25 in
  (let s' :=
     FilledWaveform.useFrame p env
       (FilledWaveform.frames p [] (FilledWaveform.mount p (fun _ => 0))) in
   nth (128 * 6) (FilledWaveform.positions s') 0
   = cos (INR 128 / 512 * (2 * PI) - PI / 2)
     * FilledWaveform.renderedRadius p env s' 128 /\
   nth (128 * 6 + 1) (FilledWaveform.positions s') 0
   = sin (INR 128 / 512 * (2 * PI) - PI / 2)
     * FilledWaveform.renderedRadius p env s' 128) /\
  (let s' :=
     OutlineWaveform.useFrame p env
       (OutlineWaveform.frames p [] (OutlineWaveform.mount p (fun _ => 0))) in
   nth (128 * 3) (OutlineWaveform.positions s') 0
   = cos (INR 128 / 512 * (2 * PI) - PI / 2)
     * OutlineWaveform.renderedRadius p env s' 128 /\
   nth (128 * 3 + 1) (OutlineWaveform.positions s') 0
   = sin (INR 128 / 512 * (2 * PI) - PI / 2)
     * OutlineWaveform.renderedRadius p env s' 128).
Proof.
  intros p env. split.
  - apply (proj1 (proj2 angle_divides_by_buffer_length)
             p (fun _ => 0) [] env (constantBuffer 255));
      [reflexivity | reflexivity | lia].
  - apply (proj2 (proj2 angle_divides_by_buffer_length)
             p (fun _ => 0) [] env (constantBuffer 255));
      [reflexivity | reflexivity | lia].
Defined.

(** ** The outline layer's dynamic smoothing factor *)

Lemma dynamicSmoothingFactor_rising p a l :
  l < a -> OutlineWaveform.dynamicSmoothingFactor p a l <= 0.08.
Proof.
  intros H. unfold OutlineWaveform.dynamicSmoothingFactor.
  destruct (Rlt_dec l a); [apply Rmin_l | contradiction].
Qed.

Lemma dynamicSmoothingFactor_falling p a l :
  a <= l -> OutlineWaveform.dynamicSmoothingFactor p a l <= 0.04.
Proof.
  intros H. unfold OutlineWaveform.dynamicSmoothingFactor.
  destruct (Rlt_dec l a); [lra | apply Rmin_l].
Qed.

(** C3.  In every frame of the outline layer the radius update of every
    vertex uses the frame's dynamic smoothing factor, and that factor is at
    most 0.08 when the frame's averageAudio exceeds the previous frame's
    level and at most 0.04 otherwise, whatever the configured
    smoothingFactor, increaseResponseRate and decreaseResponseRate. *)
Theorem outline_smoothing_capped :
  forall p rnd envs env dataArray,
    analyser env = Some dataArray -> meshRef env = true ->
    let s := OutlineWaveform.frames p envs (OutlineWaveform.mount p rnd) in
    let level := averageAudio (OutlineWaveform.audioScale p) dataArray in
    let factor :=
      OutlineWaveform.dynamicSmoothingFactor p level
        (OutlineWaveform.previousAudioLevel s) in
    (forall i, (i < 512)%nat ->
       nth i (OutlineWaveform.currentRadii (OutlineWaveform.useFrame p env s)) 0
       = OutlineWaveform.nextRadius p env dataArray factor i
           (nth i (OutlineWaveform.currentRadii s) 0)) /\
    (OutlineWaveform.previousAudioLevel s < level -> factor <= 0.08) /\
    (level <= OutlineWaveform.previousAudioLevel s -> factor <= 0.04).
Proof.
  intros p rnd envs env dataArray Ha Hm s level factor.
  split; [|split].
  - intros i Hi.
    apply (outline_useFrame_radius p env s dataArray i Ha Hm);
      [apply outlineWf_frames, outlineWf_mount | exact Hi].
  - apply dynamicSmoothingFactor_rising.
  - apply dynamicSmoothingFactor_falling.
Qed.

Lemma outline_smoothing_capped_witness :
  let p := eagerProps in
  let loud := audioFrame (constantBuffer 255) 0 0.5 in
  let quiet := audioFrame (constantBuffer 128) 1 0.5 in
  (let s := OutlineWaveform.frames p [] (OutlineWaveform.mount p (fun _ => 0)) in
   let level := averageAudio (OutlineWaveform.audioScale p) (constantBuffer 255) in
   let factor :=
     OutlineWaveform.dynamicSmoothingFactor p level
       (OutlineWaveform.previousAudioLevel s) in
   OutlineWaveform.previousAudioLevel s < level /\
   factor <= 0.08 /\
   nth 5 (OutlineWaveform.currentRadii (OutlineWaveform.useFrame p loud s)) 0
   = OutlineWaveform.nextRadius p loud (constantBuffer 255) factor 5
       (nth 5 (OutlineWaveform.currentRadii s) 0)) /\
  (let s :=
     OutlineWaveform.frames p [loud] (OutlineWaveform.mount p (fun _ => 0)) in
   let level := averageAudio (OutlineWaveform.audioScale p) (constantBuffer 128) in
   level <= OutlineWaveform.previousAudioLevel s /\
   OutlineWaveform.dynamicSmoothingFactor p level
     (OutlineWaveform.previousAudioLevel s) <= 0.04).
Proof.
  intros p loud quiet. split.
  - intros s level factor.
    assert (Hlevel : OutlineWaveform.previousAudioLevel s < level).
    { unfold level. rewrite averageAudio_loud.
      unfold s, p, eagerProps, OutlineWaveform.audioScale. simpl. lra. }
    destruct (outline_smoothing_capped p (fun _ => 0) [] loud
                (constantBuffer 255) eq_refl eq_refl) as (Hradius & Hup & _).
    split; [exact Hlevel | split; [exact (Hup Hlevel) | apply Hradius; lia]].
  - intros s level.
    assert (Hlevel : level <= OutlineWaveform.previousAudioLevel s).
    { unfold level, s. rewrite averageAudio_silent.
      change (OutlineWaveform.frames p [loud]
                (OutlineWaveform.mount p (fun _ => 0)))
        with (OutlineWaveform.useFrame p loud
                (OutlineWaveform.mount p (fun _ => 0))).
      rewrite (outline_useFrame_level p loud _ (constantBuffer 255)
                 eq_refl eq_refl).
      rewrite averageAudio_loud.
      unfold p, eagerProps, OutlineWaveform.audioScale. simpl. lra. }
    destruct (outline_smoothing_capped p (fun _ => 0) [loud] quiet
                (constantBuffer 128) eq_refl eq_refl) as (_ & _ & Hdown).
    split; [exact Hlevel | exact (Hdown Hlevel)].
Defined.

(** ** The running speed multiplier *)

Lemma blend_below_cap (m target b : R) :
  m <= 2 -> target <= 2 -> 0 <= b <= 1 -> m + (target - m) * b <= 2.
Proof. intros Hm Ht Hb. nra. Qed.

Lemma filled_target_le_2 p a : FilledWaveform.targetSpeedMultiplier p a <= 2.
Proof.
  unfold FilledWaveform.targetSpeedMultiplier.
  eapply Rle_trans; [apply Rmin_l | lra].
Qed.

Lemma outline_target_le_2 a : OutlineWaveform.targetSpeedMultiplier a <= 2.
Proof.
  unfold OutlineWaveform.targetSpeedMultiplier.
  eapply Rle_trans; [apply Rmin_l | lra].
Qed.

Lemma filled_useFrame_speed_le_2 p env s :
  0 <= FilledWaveform.speedBlend p <= 1 ->
  FilledWaveform.previousSpeedMultiplier s <= 2 ->
  FilledWaveform.previousSpeedMultiplier (FilledWaveform.useFrame p env s) <= 2.
Proof.
  intros Hb Hs.
  destruct (analyser env) as [dataArray|] eqn:Ha;
    [destruct (meshRef env) eqn:Hm|].
  - rewrite (filled_useFrame_speed p env s dataArray Ha Hm).
    apply blend_below_cap; [exact Hs | apply filled_target_le_2 | exact Hb].
  - rewrite filled_useFrame_idle by (right; exact Hm). exact Hs.
  - rewrite filled_useFrame_idle by (left; exact Ha). exact Hs.
Qed.

Lemma outline_useFrame_speed_le_2 p env s :
  (forall a l, 0 <= OutlineWaveform.dynamicSmoothingFactor p a l <= 1) ->
  OutlineWaveform.previousSpeedMultiplier s <= 2 ->
  OutlineWaveform.previousSpeedMultiplier (OutlineWaveform.useFrame p env s) <= 2.
Proof.
  intros Hb Hs.
  destruct (analyser env) as [dataArray|] eqn:Ha;
    [destruct (meshRef env) eqn:Hm|].
  - rewrite (outline_useFrame_speed p env s dataArray Ha Hm).
    apply blend_below_cap; [exact Hs | apply outline_target_le_2 | apply Hb].
  - rewrite outline_useFrame_idle by (right; exact Hm). exact Hs.
  - rewrite outline_useFrame_idle by (left; exact Ha). exact Hs.
Qed.

(** C2.  The running speed multiplier of a layer, filled or outline, starts
    at 1 and is at most 2.0 after every frame, for every sequence of audio
    buffers (and of times and random draws), provided the blend factor is
    in [0, 1]: [min(0.05, smoothingFactor)] for the filled layer, the
    dynamic smoothing factor (at any pair of levels) for the outline
    layer. *)
Theorem speed_multiplier_at_most_2 :
  (forall p rnd envs,
     0 <= FilledWaveform.speedBlend p <= 1 ->
     FilledWaveform.previousSpeedMultiplier
       (FilledWaveform.frames p envs (FilledWaveform.mount p rnd)) <= 2) /\
  (forall p rnd envs,
     (forall a l, 0 <= OutlineWaveform.dynamicSmoothingFactor p a l <= 1) ->
     OutlineWaveform.previousSpeedMultiplier
       (OutlineWaveform.frames p envs (OutlineWaveform.mount p rnd)) <= 2).
Proof.
  split; intros p rnd envs Hb.
  - assert (Hinit : FilledWaveform.previousSpeedMultiplier
                      (FilledWaveform.mount p rnd) <= 2)
      by (cbn [FilledWaveform.mount FilledWaveform.previousSpeedMultiplier]; lra).
    revert Hinit. generalize (FilledWaveform.mount p rnd) as s.
    induction envs as [|env envs IH]; intros s Hs; [exact Hs|].
    rewrite filled_frames_cons.
    apply IH, filled_useFrame_speed_le_2; [exact Hb | exact Hs].
  - assert (Hinit : OutlineWaveform.previousSpeedMultiplier
                      (OutlineWaveform.mount p rnd) <= 2)
      by (cbn [OutlineWaveform.mount OutlineWaveform.previousSpeedMultiplier];
          lra).
    revert Hinit. generalize (OutlineWaveform.mount p rnd) as s.
    induction envs as [|env envs IH]; intros s Hs; [exact Hs|].
    rewrite outline_frames_cons.
    apply IH, outline_useFrame_speed_le_2; [exact Hb | exact Hs].
Qed.

Lemma filled_default_blend : FilledWaveform.speedBlend Props.empty = 0.05.
Proof.
  unfold FilledWaveform.speedBlend, FilledWaveform.smoothingFactor. simpl.
  destruct (Rmin_cases 0.05 0.1) as [[-> _] | [_ H]]; lra.
Qed.

Lemma outline_default_factor a l :
  0 <= OutlineWaveform.dynamicSmoothingFactor Props.empty a l <= 1.
Proof.
  unfold OutlineWaveform.dynamicSmoothingFactor,
    OutlineWaveform.smoothingFactor, OutlineWaveform.increaseResponseRate,
    OutlineWaveform.decreaseResponseRate. simpl.
  destruct (Rlt_dec l a).
  - destruct (Rmin_cases 0.08 (0.1 * 2.0)) as [[-> ?] | [-> ?]]; lra.
  - destruct (Rmin_cases 0.04 (0.1 * 0.5)) as [[-> ?] | [-> ?]]; lra.
Qed.

Lemma speed_multiplier_at_most_2_witness :
  let envs :=
    [audioFrame (constantBuffer 255) 0 0.5;
     audioFrame (constantBuffer 128) 1 0.5] in
  FilledWaveform.previousSpeedMultiplier
    (FilledWaveform.frames Props.empty envs
       (FilledWaveform.mount Props.empty (fun _ => 0))) <= 2 /\
  OutlineWaveform.previousSpeedMultiplier
    (OutlineWaveform.frames Props.empty envs
       (OutlineWaveform.mount Props.empty (fun _ => 0))) <= 2.
Proof.
  intros envs. split.
  - apply (proj1 speed_multiplier_at_most_2).
    rewrite filled_default_blend; lra.
  - apply (proj2 speed_multiplier_at_most_2).
    apply outline_default_factor.
Defined.

(** ** The six layers and the five controls *)

(** C7, as the claim states it, fails: moving the speed slider from 0.04 to
    3 leaves the props of the first outline layer (element 1) exactly as
    they were. *)
Lemma speed_factor_reaches_every_layer_counterexample :
  speedFactor (setSpeedFactor 3 initialControls) <> speedFactor initialControls /\
  nth 1 (AudioWaveform (setSpeedFactor 3 initialControls)) noLayer
  = nth 1 (AudioWaveform initialControls) noLayer.
Proof.
  split; [simpl; lra | reflexivity].
Qed.

(** C7, amended.  Every one of the six layers has its props derived from
    size, amplitude factor, audio factor and pulse scale: two control
    states that give a layer the same props agree on these four.  The three
    filled layers also derive their props from the speed factor.  The three
    outline layers do not: their props are the same for any two control
    states that agree on the other four scalars, so changing the speed
    factor changes no derived parameter of an outline layer. *)
Theorem layers_derive_from_controls :
  forall c c' k, (k < 6)%nat ->
    let l := nth k (AudioWaveform c) noLayer in
    let l' := nth k (AudioWaveform c') noLayer in
    (l = l' ->
     size c = size c' /\ amplitudeFactor c = amplitudeFactor c' /\
     audioFactor c = audioFactor c' /\ pulseScale c = pulseScale c') /\
    (isOutline l = false -> l = l' -> speedFactor c = speedFactor c') /\
    (isOutline l = true ->
     size c = size c' -> amplitudeFactor c = amplitudeFactor c' ->
     audioFactor c = audioFactor c' -> pulseScale c = pulseScale c' ->
     l = l').
Proof.
  intros c c' k Hk.
  destruct k as [|[|[|[|[|[|k]]]]]]; try lia;
    cbn [nth AudioWaveform isOutline]; unfold filledProps, outlineProps;
    (split; [|split]);
    try (intros H; injection H; intros; repeat split; lra);
    try (intros _ H; injection H; intros; lra);
    try discriminate;
    try (intros _ -> -> -> ->; reflexivity).
Qed.

Lemma layers_derive_from_controls_witness :
  let c := initialControls in
  let c' := setSpeedFactor 3 initialControls in
  nth 3 (AudioWaveform c) noLayer = nth 3 (AudioWaveform c') noLayer /\
  (size c = size c /\ amplitudeFactor c = amplitudeFactor c /\
   audioFactor c = audioFactor c /\ pulseScale c = pulseScale c) /\
  speedFactor c = speedFactor c.
Proof.
  intros c c'. split; [|split].
  - apply (proj2 (proj2 (layers_derive_from_controls c c' 3 ltac:(lia))));
      reflexivity.
  - apply (proj1 (layers_derive_from_controls c c 0 ltac:(lia))).
    reflexivity.
  - apply (proj1 (proj2 (layers_derive_from_controls c c 0 ltac:(lia))));
      reflexivity.
Defined.

(** ** Silent frames *)

Lemma audioEffect_silent audioScale a i :
  (i < bufferLength)%nat ->
  audioEffect audioScale a (constantBuffer 128) i = 0.
Proof.
  intros Hi. unfold audioEffect. rewrite smoothedAudio_constant by exact Hi.
  lra.
Qed.

Lemma pulseEffect_silent baseRadius pulseScale :
  pulseEffect baseRadius pulseScale 0 = 0.
Proof. unfold pulseEffect. lra. Qed.

Lemma filled_randomness_silent r : FilledWaveform.randomness r 0 = 0.
Proof. unfold FilledWaveform.randomness. lra. Qed.

Lemma outline_randomness_silent r : OutlineWaveform.randomness r 0 = 0.
Proof. unfold OutlineWaveform.randomness. lra. Qed.

Lemma filled_nextRadius_silent p env i r :
  (i < bufferLength)%nat ->
  FilledWaveform.nextRadius p env (constantBuffer 128) i r
  - FilledWaveform.baseRadius p
  = (1 - FilledWaveform.smoothingFactor p) * (r - FilledWaveform.baseRadius p).
Proof.
  intros Hi. unfold FilledWaveform.nextRadius. cbv zeta.
  rewrite averageAudio_silent, audioEffect_silent by exact Hi.
  unfold pulsedRadius. rewrite pulseEffect_silent, filled_randomness_silent.
  lra.
Qed.

Lemma outline_nextRadius_silent p env k i r :
  (i < bufferLength)%nat ->
  OutlineWaveform.nextRadius p env (constantBuffer 128) k i r
  - OutlineWaveform.baseRadius p
  = (1 - k) * (r - OutlineWaveform.baseRadius p).
Proof.
  intros Hi. unfold OutlineWaveform.nextRadius. cbv zeta.
  rewrite averageAudio_silent, audioEffect_silent by exact Hi.
  unfold pulsedRadius. rewrite pulseEffect_silent, outline_randomness_silent.
  lra.
Qed.

Lemma outlineFactor_silent p s :
  0 <= OutlineWaveform.previousAudioLevel s ->
  outlineFactor p (constantBuffer 128) s = fallingFactor p.
Proof.
  intros Hl. unfold outlineFactor, OutlineWaveform.dynamicSmoothingFactor.
  rewrite averageAudio_silent.
  destruct (Rlt_dec (OutlineWaveform.previousAudioLevel s) 0); [lra|].
  reflexivity.
Qed.

Lemma filled_silent_frames p envs s i :
  Forall silentFrame envs -> filledWf s -> (i < bufferLength)%nat ->
  nth i (FilledWaveform.currentRadii (FilledWaveform.frames p envs s)) 0
  - FilledWaveform.baseRadius p
  = (1 - FilledWaveform.smoothingFactor p) ^ length envs
    * (nth i (FilledWaveform.currentRadii s) 0 - FilledWaveform.baseRadius p).
Proof.
  intros Hs; revert s.
  induction Hs as [|env envs [Ha Hm] _ IH]; intros s Hwf Hi.
  - simpl. lra.
  - rewrite filled_frames_cons.
    rewrite IH by (try apply filledWf_useFrame; assumption).
    rewrite (filled_useFrame_radius p env s _ i Ha Hm Hwf Hi).
    rewrite filled_nextRadius_silent by exact Hi.
    simpl. lra.
Qed.

Lemma outline_silent_frames p envs s i :
  Forall silentFrame envs -> outlineWf s ->
  0 <= OutlineWaveform.previousAudioLevel s -> (i < bufferLength)%nat ->
  nth i (OutlineWaveform.currentRadii (OutlineWaveform.frames p envs s)) 0
  - OutlineWaveform.baseRadius p
  = (1 - fallingFactor p) ^ length envs
    * (nth i (OutlineWaveform.currentRadii s) 0 - OutlineWaveform.baseRadius p).
Proof.
  intros Hs; revert s.
  induction Hs as [|env envs [Ha Hm] _ IH]; intros s Hwf Hl Hi.
  - simpl. lra.
  - rewrite outline_frames_cons.
    rewrite IH;
      [ | apply outlineWf_useFrame; exact Hwf
        | rewrite (outline_useFrame_level p env s _ Ha Hm), averageAudio_silent;
          lra
        | exact Hi ].
    rewrite (outline_useFrame_radius p env s _ i Ha Hm Hwf Hi).
    rewrite outline_nextRadius_silent by exact Hi.
    rewrite outlineFactor_silent by exact Hl.
    simpl. lra.
Qed.

Lemma geometric_vanishes (q d : R) :
  0 <= q < 1 ->
  forall eps, 0 < eps ->
    exists N, forall n, (N <= n)%nat -> Rabs (q ^ n * d) < eps.
Proof.
  intros Hq eps Heps.
  assert (Hd : 0 < Rabs d + 1) by (pose proof (Rabs_pos d); lra).
  assert (Hy : 0 < eps / (Rabs d + 1)) by (apply Rdiv_lt_0_compat; lra).
  destruct (pow_lt_1_zero q) with (y := eps / (Rabs d + 1)) as [N HN];
    [rewrite Rabs_pos_eq; lra | exact Hy |].
  exists N. intros n Hn.
  specialize (HN n ltac:(lia)).
  rewrite Rabs_mult.
  pose proof (Rabs_pos d) as Hd0. pose proof (Rabs_pos (q ^ n)) as Hq0.
  apply Rle_lt_trans with (eps / (Rabs d + 1) * Rabs d).
  - apply Rmult_le_compat_r; lra.
  - apply Rlt_le_trans with (eps / (Rabs d + 1) * (Rabs d + 1)).
    + apply Rmult_lt_compat_l; lra.
    + right. field. lra.
Qed.

Lemma filled_radius_settles p s i :
  0 < FilledWaveform.smoothingFactor p <= 1 ->
  filledWf s -> (i < bufferLength)%nat ->
  settlesTo
    (fun envs =>
       nth i (FilledWaveform.currentRadii (FilledWaveform.frames p envs s)) 0)
    (FilledWaveform.baseRadius p).
Proof.
  intros Hsf Hwf Hi eps Heps.
  destruct (geometric_vanishes (1 - FilledWaveform.smoothingFactor p)
              (nth i (FilledWaveform.currentRadii s) 0
               - FilledWaveform.baseRadius p)
              ltac:(lra) eps Heps) as [N HN].
  exists N. intros envs Hs Hlen.
  rewrite (filled_silent_frames p envs s i Hs Hwf Hi).
  apply HN. exact Hlen.
Qed.

Lemma fallingFactor_range p :
  0 < OutlineWaveform.smoothingFactor p * OutlineWaveform.decreaseResponseRate p ->
  0 < fallingFactor p <= 0.04.
Proof.
  intros H. unfold fallingFactor.
  destruct (Rmin_cases 0.04
              (OutlineWaveform.smoothingFactor p
               * OutlineWaveform.decreaseResponseRate p))
    as [[-> ?] | [-> ?]]; lra.
Qed.

Lemma outline_radius_settles p s i :
  0 < OutlineWaveform.smoothingFactor p * OutlineWaveform.decreaseResponseRate p ->
  outlineWf s -> (i < bufferLength)%nat ->
  settlesTo
    (fun envs =>
       nth i (OutlineWaveform.currentRadii (OutlineWaveform.frames p envs s)) 0)
    (OutlineWaveform.baseRadius p).
Proof.
  intros Hsf Hwf Hi eps Heps.
  pose proof (fallingFactor_range p Hsf) as Hk.
  destruct (geometric_vanishes (1 - fallingFactor p)
              ((1 - outlineFactor p (constantBuffer 128) s)
               * (nth i (OutlineWaveform.currentRadii s) 0
                  - OutlineWaveform.baseRadius p))
              ltac:(lra) eps Heps) as [N HN].
  exists (S N). intros envs Hs Hlen.
  destruct Hs as [|env envs [Ha Hm] Hs]; [simpl in Hlen; lia|].
  rewrite outline_frames_cons.
  rewrite (outline_silent_frames p envs _ i Hs);
    [ | apply outlineWf_useFrame; exact Hwf
      | rewrite (outline_useFrame_level p env s _ Ha Hm), averageAudio_silent;
        lra
      | exact Hi ].
  rewrite (outline_useFrame_radius p env s _ i Ha Hm Hwf Hi).
  rewrite outline_nextRadius_silent by exact Hi.
  apply HN. simpl in Hlen. lia.
Qed.

Lemma outline_default_fallingFactor p :
  Props.smoothingFactor p = None -> Props.decreaseResponseRate p = None ->
  fallingFactor p = 0.04.
Proof.
  intros Hs Hd.
  unfold fallingFactor, OutlineWaveform.smoothingFactor,
    OutlineWaveform.decreaseResponseRate. rewrite Hs, Hd. simpl.
  destruct (Rmin_cases 0.04 (0.1 * 0.5)) as [[-> ?] | [-> ?]]; lra.
Qed.

(** C1, as the claim states it, fails for the outline layer, whose radius
    update uses the frame's dynamic smoothing factor (0.04 with the default
    props) and not [smoothingFactor] (0.1).

    First case, every frame silent: an outline instance is created with the
    default base radius 10, the size control then changes the [baseRadius]
    prop to 11 (the radius ref keeps its 512 entries of 10), and a silent
    frame follows.  Entry 0 becomes 10.04, and 10.04 - 11 is not
    0.9 * (10 - 11).

    Second case, props fixed: a frame of all-255 bytes (every random draw
    0.5) and then a silent frame, both with the default props.  The silent
    frame scales the distance of entry 0 from the base radius by 0.96, not
    by 0.9. *)
Lemma silent_frame_law_counterexample :
  (let p := propsWithRadius 11 in
   let s := OutlineWaveform.mount Props.empty (fun _ => 0) in
   let s' := OutlineWaveform.useFrame p (audioFrame (constantBuffer 128) 0 0.5) s in
   nth 0 (OutlineWaveform.currentRadii s') 0 - OutlineWaveform.baseRadius p
   <> (1 - OutlineWaveform.smoothingFactor p)
      * (nth 0 (OutlineWaveform.currentRadii s) 0
         - OutlineWaveform.baseRadius p)) /\
  (let p := Props.empty in
   let s :=
     OutlineWaveform.useFrame p (audioFrame (constantBuffer 255) 0 0.5)
       (OutlineWaveform.mount p (fun _ => 0)) in
   let s' := OutlineWaveform.useFrame p (audioFrame (constantBuffer 128) 1 0.5) s in
   nth 0 (OutlineWaveform.currentRadii s') 0 - OutlineWaveform.baseRadius p
   <> (1 - OutlineWaveform.smoothingFactor p)
      * (nth 0 (OutlineWaveform.currentRadii s) 0
         - OutlineWaveform.baseRadius p)).
Proof.
  assert (H0 : (0 < bufferLength)%nat) by (unfold bufferLength; lia).
  split; intros p s s'.
  - unfold s'.
    rewrite (outline_useFrame_radius p
               (audioFrame (constantBuffer 128) 0 0.5) s (constantBuffer 128) 0
               eq_refl eq_refl (outlineWf_mount _ _) H0).
    rewrite outline_nextRadius_silent by exact H0.
    rewrite outlineFactor_silent
      by (unfold s; cbn [OutlineWaveform.mount OutlineWaveform.previousAudioLevel];
          lra).
    rewrite (outline_default_fallingFactor p eq_refl eq_refl).
    unfold s. cbn [OutlineWaveform.mount OutlineWaveform.currentRadii].
    rewrite nth_repeat_lt by exact H0.
    unfold OutlineWaveform.baseRadius, OutlineWaveform.smoothingFactor.
    simpl. lra.
  - assert (Hwf : outlineWf s)
      by (apply outlineWf_useFrame, outlineWf_mount).
    assert (Hlevel : OutlineWaveform.previousAudioLevel s = 127 * 0.8).
    { unfold s.
      rewrite (outline_useFrame_level p
                 (audioFrame (constantBuffer 255) 0 0.5) _ (constantBuffer 255)
                 eq_refl eq_refl).
      rewrite averageAudio_loud. reflexivity. }
    assert (Hr : nth 0 (OutlineWaveform.currentRadii s) 0 = 10.29130625).
    { unfold s.
      rewrite (outline_useFrame_radius p
                 (audioFrame (constantBuffer 255) 0 0.5) _ (constantBuffer 255) 0
                 eq_refl eq_refl (outlineWf_mount _ _) H0).
      unfold OutlineWaveform.nextRadius, outlineFactor. cbv zeta.
      rewrite averageAudio_loud.
      unfold OutlineWaveform.dynamicSmoothingFactor.
      cbn [OutlineWaveform.mount OutlineWaveform.previousAudioLevel
           OutlineWaveform.currentRadii].
      rewrite nth_repeat_lt by exact H0.
      unfold audioEffect. rewrite smoothedAudio_constant by exact H0.
      unfold pulsedRadius, pulseEffect, audioAmplification,
        OutlineWaveform.randomness, OutlineWaveform.audioScale,
        OutlineWaveform.baseRadius, OutlineWaveform.pulseScale,
        OutlineWaveform.smoothingFactor, OutlineWaveform.increaseResponseRate.
      simpl.
      destruct (Rlt_dec 0 (127 * 0.8)); [|lra].
      destruct (Rmin_cases 0.08 (0.1 * 2.0)) as [[-> ?] | [-> ?]]; lra. }
    unfold s'.
    rewrite (outline_useFrame_radius p
               (audioFrame (constantBuffer 128) 1 0.5) s (constantBuffer 128) 0
               eq_refl eq_refl Hwf H0).
    rewrite outline_nextRadius_silent by exact H0.
    rewrite outlineFactor_silent by (rewrite Hlevel; lra).
    rewrite Hr.
    rewrite (outline_default_fallingFactor p eq_refl eq_refl).
    unfold OutlineWaveform.baseRadius, OutlineWaveform.smoothingFactor.
    simpl. lra.
Qed.

Lemma filled_useFrame_directions p env s :
  FilledWaveform.rotationDirections (FilledWaveform.useFrame p env s)
  = FilledWaveform.rotationDirections s.
Proof.
  unfold FilledWaveform.useFrame.
  destruct (analyser env); [destruct (meshRef env)|]; reflexivity.
Qed.

Lemma outline_useFrame_directions p env s :
  OutlineWaveform.rotationDirections (OutlineWaveform.useFrame p env s)
  = OutlineWaveform.rotationDirections s.
Proof.
  unfold OutlineWaveform.useFrame.
  destruct (analyser env); [destruct (meshRef env)|]; reflexivity.
Qed.

(** C1, amended.  In a frame whose buffer holds the byte 128 everywhere,
    averageAudio is exactly 0 and the randomness, pulse and audio-effect
    terms are exactly 0, in both layer kinds.  In the filled layer such a
    frame gives radius'[i] - baseRadius
    = (1 - smoothingFactor) * (radius[i] - baseRadius) for every index i,
    and for 0 < smoothingFactor <= 1 the radius converges to baseRadius
    under sustained silence.  In the outline layer the factor of the law is
    the frame's dynamic smoothing factor instead of smoothingFactor:
    radius'[i] - baseRadius = (1 - factor) * (radius[i] - baseRadius), where
    factor = min(0.04, smoothingFactor * decreaseResponseRate) whenever the
    previous level is not negative, which holds after every silent frame;
    the radius converges to baseRadius when
    0 < smoothingFactor * decreaseResponseRate.  In both layers the
    rendered radius is the radius state plus the undulation term, a
    function of the angle, the elapsed time, the rotation signs and the
    running speed multiplier, so the rendered radius minus the undulation
    term converges to baseRadius. *)
Theorem silent_frames_settle :
  (forall p env s i,
     silentFrame env -> filledWf s -> (i < 512)%nat ->
     let level := averageAudio (FilledWaveform.audioScale p) (constantBuffer 128) in
     let s' := FilledWaveform.useFrame p env s in
     level = 0 /\
     FilledWaveform.randomness (random env i) level = 0 /\
     pulseEffect (FilledWaveform.baseRadius p) (FilledWaveform.pulseScale p) level
     = 0 /\
     audioEffect (FilledWaveform.audioScale p) level (constantBuffer 128) i = 0 /\
     nth i (FilledWaveform.currentRadii s') 0 - FilledWaveform.baseRadius p
     = (1 - FilledWaveform.smoothingFactor p)
       * (nth i (FilledWaveform.currentRadii s) 0 - FilledWaveform.baseRadius p) /\
     FilledWaveform.renderedRadius p env s' i
     = nth i (FilledWaveform.currentRadii s') 0
       + undulation (FilledWaveform.undulationPattern p)
           (FilledWaveform.rotationDirections s) (angle i) (elapsedTime env)
           (FilledWaveform.previousSpeedMultiplier s')) /\
  (forall p s i,
     0 < FilledWaveform.smoothingFactor p <= 1 ->
     filledWf s -> (i < 512)%nat ->
     settlesTo
       (fun envs =>
          nth i (FilledWaveform.currentRadii (FilledWaveform.frames p envs s)) 0)
       (FilledWaveform.baseRadius p) /\
     forall env,
       settlesTo
         (fun envs =>
            let s' := FilledWaveform.frames p envs s in
            FilledWaveform.renderedRadius p env s' i
            - undulation (FilledWaveform.undulationPattern p)
                (FilledWaveform.rotationDirections s') (angle i)
                (elapsedTime env) (FilledWaveform.previousSpeedMultiplier s'))
         (FilledWaveform.baseRadius p)) /\
  (forall p env s i,
     silentFrame env -> outlineWf s -> (i < 512)%nat ->
     let level := averageAudio (OutlineWaveform.audioScale p) (constantBuffer 128) in
     let factor :=
       OutlineWaveform.dynamicSmoothingFactor p level
         (OutlineWaveform.previousAudioLevel s) in
     let s' := OutlineWaveform.useFrame p env s in
     level = 0 /\
     OutlineWaveform.randomness (random env i) level = 0 /\
     pulseEffect (OutlineWaveform.baseRadius p) (OutlineWaveform.pulseScale p)
       level = 0 /\
     audioEffect (OutlineWaveform.audioScale p) level (constantBuffer 128) i = 0 /\
     nth i (OutlineWaveform.currentRadii s') 0 - OutlineWaveform.baseRadius p
     = (1 - factor)
       * (nth i (OutlineWaveform.currentRadii s) 0 - OutlineWaveform.baseRadius p) /\
     (0 <= OutlineWaveform.previousAudioLevel s ->
      factor = Rmin 0.04 (OutlineWaveform.smoothingFactor p
                          * OutlineWaveform.decreaseResponseRate p)) /\
     OutlineWaveform.previousAudioLevel s' = 0 /\
     OutlineWaveform.renderedRadius p env s' i
     = nth i (OutlineWaveform.currentRadii s') 0
       + undulation (OutlineWaveform.undulationPattern p)
           (OutlineWaveform.rotationDirections s) (angle i) (elapsedTime env)
           (OutlineWaveform.previousSpeedMultiplier s')) /\
  (forall p s i,
     0 < OutlineWaveform.smoothingFactor p * OutlineWaveform.decreaseResponseRate p ->
     outlineWf s -> (i < 512)%nat ->
     settlesTo
       (fun envs =>
          nth i (OutlineWaveform.currentRadii (OutlineWaveform.frames p envs s)) 0)
       (OutlineWaveform.baseRadius p) /\
     forall env,
       settlesTo
         (fun envs =>
            let s' := OutlineWaveform.frames p envs s in
            OutlineWaveform.renderedRadius p env s' i
            - undulation (OutlineWaveform.undulationPattern p)
                (OutlineWaveform.rotationDirections s') (angle i)
                (elapsedTime env) (OutlineWaveform.previousSpeedMultiplier s'))
         (OutlineWaveform.baseRadius p)).
Proof.
  split; [|split; [|split]].
  - intros p env s i [Ha Hm] Hwf Hi level s'.
    assert (Hlevel : level = 0) by apply averageAudio_silent.
    rewrite Hlevel. repeat split.
    + apply filled_randomness_silent.
    + apply pulseEffect_silent.
    + apply audioEffect_silent; exact Hi.
    + unfold s'. rewrite (filled_useFrame_radius p env s _ i Ha Hm Hwf Hi).
      apply filled_nextRadius_silent; exact Hi.
    + unfold FilledWaveform.renderedRadius, s'.
      rewrite filled_useFrame_directions. reflexivity.
  - intros p s i Hsf Hwf Hi.
    pose proof (filled_radius_settles p s i Hsf Hwf Hi) as Hset.
    split; [exact Hset|].
    intros env eps Heps. destruct (Hset eps Heps) as [N HN].
    exists N. intros envs Hs Hlen. specialize (HN envs Hs Hlen).
    cbv zeta. unfold FilledWaveform.renderedRadius.
    match goal with
    | |- Rabs (?a + ?u - ?u - ?b) < _ =>
        replace (a + u - u - b) with (a - b) by ring
    end.
    exact HN.
  - intros p env s i [Ha Hm] Hwf Hi level factor s'.
    assert (Hlevel : level = 0) by apply averageAudio_silent.
    assert (Hfactor : factor = outlineFactor p (constantBuffer 128) s)
      by reflexivity.
    rewrite Hlevel. repeat split.
    + apply outline_randomness_silent.
    + apply pulseEffect_silent.
    + apply audioEffect_silent; exact Hi.
    + unfold s'. rewrite (outline_useFrame_radius p env s _ i Ha Hm Hwf Hi).
      rewrite Hfactor. apply outline_nextRadius_silent; exact Hi.
    + intros Hl. rewrite Hfactor. apply outlineFactor_silent; exact Hl.
    + unfold s'. rewrite (outline_useFrame_level p env s _ Ha Hm).
      apply averageAudio_silent.
    + unfold OutlineWaveform.renderedRadius, s'.
      rewrite outline_useFrame_directions. reflexivity.
  - intros p s i Hsf Hwf Hi.
    pose proof (outline_radius_settles p s i Hsf Hwf Hi) as Hset.
    split; [exact Hset|].
    intros env eps Heps. destruct (Hset eps Heps) as [N HN].
    exists N. intros envs Hs Hlen. specialize (HN envs Hs Hlen).
    cbv zeta. unfold OutlineWaveform.renderedRadius.
    match goal with
    | |- Rabs (?a + ?u - ?u - ?b) < _ =>
        replace (a + u - u - b) with (a - b) by ring
    end.
    exact HN.
Qed.

Lemma silent_frames_settle_witness :
  let p := Props.empty in
  let quiet := audioFrame (constantBuffer 128) 1 0.5 in
  let loud := audioFrame (constantBuffer 255) 0 0.5 in
  (let s := FilledWaveform.useFrame p loud
              (FilledWaveform.mount p (fun _ => 0)) in
   nth 3 (FilledWaveform.currentRadii (FilledWaveform.useFrame p quiet s)) 0
   - FilledWaveform.baseRadius p
   = (1 - FilledWaveform.smoothingFactor p)
     * (nth 3 (FilledWaveform.currentRadii s) 0 - FilledWaveform.baseRadius p) /\
   settlesTo
     (fun envs =>
        nth 3 (FilledWaveform.currentRadii (FilledWaveform.frames p envs s)) 0)
     (FilledWaveform.baseRadius p)) /\
  (let s := OutlineWaveform.useFrame p loud
              (OutlineWaveform.mount p (fun _ => 0)) in
   nth 3 (OutlineWaveform.currentRadii (OutlineWaveform.useFrame p quiet s)) 0
   - OutlineWaveform.baseRadius p
   = (1 - OutlineWaveform.dynamicSmoothingFactor p
            (averageAudio (OutlineWaveform.audioScale p) (constantBuffer 128))
            (OutlineWaveform.previousAudioLevel s))
     * (nth 3 (OutlineWaveform.currentRadii s) 0 - OutlineWaveform.baseRadius p) /\
   settlesTo
     (fun envs =>
        nth 3 (OutlineWaveform.currentRadii (OutlineWaveform.frames p envs s)) 0)
     (OutlineWaveform.baseRadius p)).
Proof.
  intros p quiet loud.
  assert (Hq : silentFrame quiet) by (split; reflexivity).
  assert (H3 : (3 < 512)%nat) by lia.
  split; intros s.
  - assert (Hwf : filledWf s) by apply filledWf_useFrame, filledWf_mount.
    assert (Hsf : 0 < FilledWaveform.smoothingFactor p <= 1)
      by (unfold p, FilledWaveform.smoothingFactor; simpl; lra).
    split.
    + exact (proj1 (proj2 (proj2 (proj2 (proj2
               (proj1 silent_frames_settle p quiet s 3%nat Hq Hwf H3)))))).
    + exact (proj1 (proj1 (proj2 silent_frames_settle) p s 3%nat Hsf Hwf H3)).
  - assert (Hwf : outlineWf s) by apply outlineWf_useFrame, outlineWf_mount.
    assert (Hsf : 0 < OutlineWaveform.smoothingFactor p
                      * OutlineWaveform.decreaseResponseRate p)
      by (unfold p, OutlineWaveform.smoothingFactor,
            OutlineWaveform.decreaseResponseRate; simpl; lra).
    split.
    + exact (proj1 (proj2 (proj2 (proj2 (proj2
               (proj1 (proj2 (proj2 silent_frames_settle))
                  p quiet s 3%nat Hq Hwf H3)))))).
    + exact (proj1 (proj2 (proj2 (proj2 silent_frames_settle))
                      p s 3%nat Hsf Hwf H3)).
Defined.

(** ** Sums of radii and the size of the undulation

    Used for the loud frames, which are treated at the end of the file. *)

Lemma Rabs_le_interval (a b : R) : Rabs a <= b -> - b <= a <= b.
Proof. unfold Rabs. destruct (Rcase_abs a); lra. Qed.





(** * Further properties of the code *)

(** ** The circular neighbours of a sample *)

Lemma prevIndex_spec i :
  (i < bufferLength)%nat ->
  prevIndex i = if Nat.eqb i 0 then 511%nat else (i - 1)%nat.
Proof.
  unfold prevIndex, bufferLength. intros Hi.
  destruct (Nat.eqb_spec i 0) as [-> | Hne]; [reflexivity|].
  apply Nat2Z.inj. rewrite Z2Nat.id.
  - rewrite Nat2Z.inj_sub by lia.
    change (Z.of_nat 512) with 512%Z. change (Z.of_nat 1) with 1%Z.
    Z.to_euclidean_division_equations; lia.
  - change (Z.of_nat 512) with 512%Z.
    Z.to_euclidean_division_equations; lia.
Qed.

Lemma nextIndex_spec i :
  (i < bufferLength)%nat ->
  nextIndex i = if Nat.eqb i 511 then 0%nat else (i + 1)%nat.
Proof.
  unfold nextIndex, bufferLength. intros Hi.
  destruct (Nat.eqb_spec i 511) as [-> | Hne]; [reflexivity|].
  apply Nat2Z.inj. rewrite Z2Nat.id.
  - rewrite Nat2Z.inj_add.
    change (Z.of_nat 512) with 512%Z. change (Z.of_nat 1) with 1%Z.
    Z.to_euclidean_division_equations; lia.
  - change (Z.of_nat 512) with 512%Z.
    Z.to_euclidean_division_equations; lia.
Qed.

(** X1.  The two neighbours that the sample interpolation reads for index
    i are inside the 512-byte array, they wrap around at both ends
    (the sample before index 0 is 511, the one after 511 is 0), and they
    undo each other. *)
Theorem neighbours_are_circular :
  forall i, (i < 512)%nat ->
    (prevIndex i < 512)%nat /\ (nextIndex i < 512)%nat /\
    prevIndex i = (if Nat.eqb i 0 then 511 else i - 1)%nat /\
    nextIndex i = (if Nat.eqb i 511 then 0 else i + 1)%nat /\
    nextIndex (prevIndex i) = i /\ prevIndex (nextIndex i) = i.
Proof.
  intros i Hi.
  pose proof (prevIndex_lt i) as Hp. pose proof (nextIndex_lt i) as Hn.
  pose proof (prevIndex_spec i Hi) as Ep.
  pose proof (nextIndex_spec i Hi) as En.
  split; [exact Hp | split; [exact Hn | split; [exact Ep | split; [exact En|]]]].
  rewrite (nextIndex_spec (prevIndex i) Hp), (prevIndex_spec (nextIndex i) Hn).
  rewrite Ep, En.
  destruct (Nat.eqb_spec i 0), (Nat.eqb_spec i 511); subst; try lia;
    split;
    repeat match goal with
           | |- context [Nat.eqb ?a ?b] => destruct (Nat.eqb_spec a b)
           end; lia.
Qed.

Lemma neighbours_are_circular_witness :
  prevIndex 0 = 511%nat /\ nextIndex 511 = 0%nat /\
  nextIndex (prevIndex 0) = 0%nat.
Proof.
  destruct (neighbours_are_circular 0 ltac:(lia)) as (_ & _ & Hp & _ & Hr & _).
  destruct (neighbours_are_circular 511 ltac:(lia)) as (_ & _ & _ & Hn & _).
  split; [exact Hp | split; [exact Hn | exact Hr]].
Defined.

(** ** Ranges of the audio statistics *)

Lemma nth_byte dataArray i :
  wf_dataArray dataArray -> (0 <= nth i dataArray 0 <= 255)%Z.
Proof.
  intros [_ Hb]. destruct (nth_in_or_default i dataArray 0%Z) as [Hin | ->];
    [|lia].
  rewrite Forall_forall in Hb. apply Hb. exact Hin.
Qed.

Lemma audioSum_loop_range dataArray n :
  let sum :=
    for_loop n (fun i acc => (acc + Z.abs (nth i dataArray 0 - 128))%Z) 0%Z in
  (0 <= sum)%Z /\
  ((forall i, (0 <= nth i dataArray 0 <= 255)%Z) ->
   (sum <= 128 * Z.of_nat n)%Z).
Proof.
  induction n as [|n [IH0 IH1]]; cbv zeta in *.
  - rewrite for_loop_0. split; [lia | intros _; simpl; lia].
  - rewrite for_loop_S. split; [lia|].
    intros Hb. specialize (IH1 Hb). specialize (Hb n). lia.
Qed.

Lemma audioSum_range dataArray :
  (0 <= audioSum dataArray)%Z /\
  (wf_dataArray dataArray -> (audioSum dataArray <= 128 * 512)%Z).
Proof.
  destruct (audioSum_loop_range dataArray bufferLength) as [H0 H1].
  split; [exact H0|].
  intros Hwf. apply H1. intros i. apply nth_byte. exact Hwf.
Qed.

Lemma averageAudio_nonneg audioScale dataArray :
  0 <= audioScale -> 0 <= averageAudio audioScale dataArray / 128.
Proof.
  intros Hs. unfold averageAudio. rewrite INR_bufferLength.
  pose proof (IZR_le _ _ (proj1 (audioSum_range dataArray))) as H.
  assert (0 <= IZR (audioSum dataArray) / 512) by lra.
  nra.
Qed.

Lemma averageAudio_le audioScale dataArray :
  wf_dataArray dataArray -> 0 <= audioScale ->
  averageAudio audioScale dataArray / 128 <= audioScale.
Proof.
  intros Hwf Hs. unfold averageAudio. rewrite INR_bufferLength.
  pose proof (IZR_le _ _ (proj1 (audioSum_range dataArray))) as H0.
  pose proof (IZR_le _ _ (proj2 (audioSum_range dataArray) Hwf)) as H1.
  rewrite mult_IZR in H1.
  assert (0 <= IZR (audioSum dataArray) / 512 <= 128) by lra.
  nra.
Qed.

Lemma audioSum_zero_bytes : audioSum (constantBuffer 0) = 65536%Z.
Proof. vm_compute. reflexivity. Qed.

(** X2.  For a 512-byte buffer and a non-negative audio scale the average
    audio level is between 0 and 128 * audioScale and the amplification
    factor is between 1 and 1 + 2 * audioScale.  Both ends are reached: a
    buffer of all-128 bytes gives level 0, a buffer of all-0 bytes gives
    128 * audioScale. *)
Theorem averageAudio_range :
  forall audioScale dataArray,
    wf_dataArray dataArray -> 0 <= audioScale ->
    0 <= averageAudio audioScale dataArray <= 128 * audioScale /\
    1 <= audioAmplification (averageAudio audioScale dataArray)
      <= 1 + 2 * audioScale /\
    averageAudio audioScale (constantBuffer 128) = 0 /\
    averageAudio audioScale (constantBuffer 0) = 128 * audioScale.
Proof.
  intros audioScale dataArray Hwf Hs.
  pose proof (averageAudio_nonneg audioScale dataArray Hs) as H0.
  pose proof (averageAudio_le audioScale dataArray Hwf Hs) as H1.
  unfold audioAmplification.
  split; [lra | split; [lra | split; [apply averageAudio_silent|]]].
  unfold averageAudio. rewrite audioSum_zero_bytes, INR_bufferLength. lra.
Qed.

Lemma averageAudio_range_witness :
  0 <= averageAudio 0.8 (constantBuffer 255) <= 128 * 0.8 /\
  1 <= audioAmplification (averageAudio 0.8 (constantBuffer 255))
    <= 1 + 2 * 0.8.
Proof.
  destruct (averageAudio_range 0.8 (constantBuffer 255)
              (constantBuffer_wf 255 ltac:(lia)) ltac:(lra))
    as (H0 & H1 & _).
  split; [exact H0 | exact H1].
Defined.

Lemma smoothedAudio_range dataArray i :
  wf_dataArray dataArray -> 0 <= smoothedAudio dataArray i <= 255.
Proof.
  intros Hwf. unfold smoothedAudio.
  pose proof (nth_byte dataArray (prevIndex i) Hwf) as Hp.
  pose proof (nth_byte dataArray i Hwf) as Hc.
  pose proof (nth_byte dataArray (nextIndex i) Hwf) as Hn.
  set (z := (nth (prevIndex i) dataArray 0 + nth i dataArray 0 * 2
             + nth (nextIndex i) dataArray 0)%Z).
  assert (Hz : (0 <= z <= 1020)%Z) by (unfold z; lia).
  pose proof (IZR_le _ _ (proj1 Hz)) as Hz0.
  pose proof (IZR_le _ _ (proj2 Hz)) as Hz1.
  lra.
Qed.

Lemma audioEffect_abs audioScale dataArray i :
  wf_dataArray dataArray -> 0 <= audioScale ->
  Rabs (audioEffect audioScale (averageAudio audioScale dataArray) dataArray i)
  <= audioScale * (1 + 2 * audioScale).
Proof.
  intros Hwf Hs. unfold audioEffect, audioAmplification.
  pose proof (smoothedAudio_range dataArray i Hwf) as Hsm.
  pose proof (averageAudio_nonneg audioScale dataArray Hs) as H0.
  pose proof (averageAudio_le audioScale dataArray Hwf Hs) as H1.
  set (q := (smoothedAudio dataArray i - 128) / 128).
  set (x := averageAudio audioScale dataArray / 128) in *.
  assert (Hq : -1 <= q <= 1) by (unfold q; lra).
  replace (averageAudio audioScale dataArray / 128 * 2) with (x * 2)
    by reflexivity.
  apply Rabs_le.
  assert (Hm : 0 <= audioScale * (1 + x * 2) <= audioScale * (1 + 2 * audioScale))
    by nra.
  split; nra.
Qed.

(** X3.  For a 512-byte buffer the interpolated sample of every index is
    between 0 and 255, a constant buffer is its own interpolation, and for
    a non-negative audio scale the audio effect of every vertex is at most
    audioScale * (1 + 2 * audioScale) in absolute value. *)
Theorem audioEffect_range :
  forall audioScale dataArray i,
    wf_dataArray dataArray -> 0 <= audioScale ->
    0 <= smoothedAudio dataArray i <= 255 /\
    Rabs (audioEffect audioScale (averageAudio audioScale dataArray)
            dataArray i)
    <= audioScale * (1 + 2 * audioScale) /\
    forall b, (i < 512)%nat -> smoothedAudio (constantBuffer b) i = IZR b.
Proof.
  intros audioScale dataArray i Hwf Hs.
  split; [apply smoothedAudio_range; exact Hwf|].
  split; [apply audioEffect_abs; assumption|].
  intros b Hi. apply smoothedAudio_constant. exact Hi.
Qed.

Lemma audioEffect_range_witness :
  0 <= smoothedAudio (constantBuffer 255) 7 <= 255 /\
  Rabs (audioEffect 0.8 (averageAudio 0.8 (constantBuffer 255))
          (constantBuffer 255) 7) <= 0.8 * (1 + 2 * 0.8) /\
  smoothedAudio (constantBuffer 200) 7 = 200.
Proof.
  destruct (audioEffect_range 0.8 (constantBuffer 255) 7
              (constantBuffer_wf 255 ltac:(lia)) ltac:(lra))
    as (H0 & H1 & H2).
  split; [exact H0 | split; [exact H1 | apply H2; lia]].
Defined.

(** ** The speed multiplier and the speed clamp *)

Lemma blend_between (m target b lo hi : R) :
  lo <= m <= hi -> lo <= target <= hi -> 0 <= b <= 1 ->
  lo <= m + (target - m) * b <= hi.
Proof. intros Hm Ht Hb. split; nra. Qed.

Lemma filled_target_range p dataArray :
  0 <= FilledWaveform.audioScale p -> 0 <= FilledWaveform.speedScale p ->
  1 <= FilledWaveform.targetSpeedMultiplier p
         (averageAudio (FilledWaveform.audioScale p) dataArray) <= 2.
Proof.
  intros Ha Hs. unfold FilledWaveform.targetSpeedMultiplier.
  pose proof (averageAudio_nonneg _ dataArray Ha) as Hx.
  set (x := averageAudio (FilledWaveform.audioScale p) dataArray / 128) in *.
  destruct (Rmin_cases 2.0 (1 + x * FilledWaveform.speedScale p))
    as [[-> ?] | [-> ?]]; split; nra.
Qed.

Lemma outline_target_range p dataArray :
  0 <= OutlineWaveform.audioScale p ->
  1 <= OutlineWaveform.targetSpeedMultiplier
         (averageAudio (OutlineWaveform.audioScale p) dataArray) <= 2.
Proof.
  intros Ha. unfold OutlineWaveform.targetSpeedMultiplier.
  pose proof (averageAudio_nonneg _ dataArray Ha) as Hx.
  set (x := averageAudio (OutlineWaveform.audioScale p) dataArray / 128) in *.
  destruct (Rmin_cases 2.0 (1 + x * 0.5)) as [[-> ?] | [-> ?]]; split; lra.
Qed.

Lemma filled_frames_speed_range p envs s :
  0 <= FilledWaveform.audioScale p -> 0 <= FilledWaveform.speedScale p ->
  0 <= FilledWaveform.speedBlend p <= 1 ->
  1 <= FilledWaveform.previousSpeedMultiplier s <= 2 ->
  1 <= FilledWaveform.previousSpeedMultiplier (FilledWaveform.frames p envs s)
    <= 2.
Proof.
  intros Ha Hs Hb. revert s.
  induction envs as [|env envs IH]; intros s Hm; [exact Hm|].
  rewrite filled_frames_cons. apply IH.
  destruct (analyser env) as [dataArray|] eqn:Hd;
    [destruct (meshRef env) eqn:Hr|].
  - rewrite (filled_useFrame_speed p env s dataArray Hd Hr).
    apply blend_between; [exact Hm | apply filled_target_range | exact Hb];
      assumption.
  - rewrite filled_useFrame_idle by (right; exact Hr). exact Hm.
  - rewrite filled_useFrame_idle by (left; exact Hd). exact Hm.
Qed.

Lemma outline_frames_speed_range p envs s :
  0 <= OutlineWaveform.audioScale p ->
  (forall a l, 0 <= OutlineWaveform.dynamicSmoothingFactor p a l <= 1) ->
  1 <= OutlineWaveform.previousSpeedMultiplier s <= 2 ->
  1 <= OutlineWaveform.previousSpeedMultiplier (OutlineWaveform.frames p envs s)
    <= 2.
Proof.
  intros Ha Hb. revert s.
  induction envs as [|env envs IH]; intros s Hm; [exact Hm|].
  rewrite outline_frames_cons. apply IH.
  destruct (analyser env) as [dataArray|] eqn:Hd;
    [destruct (meshRef env) eqn:Hr|].
  - rewrite (outline_useFrame_speed p env s dataArray Hd Hr).
    apply blend_between; [exact Hm | apply outline_target_range | apply Hb];
      assumption.
  - rewrite outline_useFrame_idle by (right; exact Hr). exact Hm.
  - rewrite outline_useFrame_idle by (left; exact Hd). exact Hm.
Qed.

Lemma mount_speed_filled p rnd :
  1 <= FilledWaveform.previousSpeedMultiplier (FilledWaveform.mount p rnd) <= 2.
Proof. cbn [FilledWaveform.mount FilledWaveform.previousSpeedMultiplier]. lra. Qed.

Lemma mount_speed_outline p rnd :
  1 <= OutlineWaveform.previousSpeedMultiplier (OutlineWaveform.mount p rnd) <= 2.
Proof.
  cbn [OutlineWaveform.mount OutlineWaveform.previousSpeedMultiplier]. lra.
Qed.

(** X4.  With a non-negative audio scale (and, for the filled layer, a
    non-negative speed scale) and a blend factor in [0, 1], the running
    speed multiplier of a layer never drops below 1 either: it is in
    [1, 2] after every sequence of frames, whatever the buffers hold. *)
Theorem speed_multiplier_between_1_and_2 :
  (forall p rnd envs,
     0 <= FilledWaveform.audioScale p -> 0 <= FilledWaveform.speedScale p ->
     0 <= FilledWaveform.speedBlend p <= 1 ->
     1 <= FilledWaveform.previousSpeedMultiplier
            (FilledWaveform.frames p envs (FilledWaveform.mount p rnd)) <= 2) /\
  (forall p rnd envs,
     0 <= OutlineWaveform.audioScale p ->
     (forall a l, 0 <= OutlineWaveform.dynamicSmoothingFactor p a l <= 1) ->
     1 <= OutlineWaveform.previousSpeedMultiplier
            (OutlineWaveform.frames p envs (OutlineWaveform.mount p rnd)) <= 2).
Proof.
  split.
  - intros p rnd envs Ha Hs Hb.
    apply filled_frames_speed_range; try assumption. apply mount_speed_filled.
  - intros p rnd envs Ha Hb.
    apply outline_frames_speed_range; try assumption. apply mount_speed_outline.
Qed.

Lemma default_filled_scales :
  0 <= FilledWaveform.audioScale Props.empty /\
  0 <= FilledWaveform.speedScale Props.empty.
Proof.
  unfold FilledWaveform.audioScale, FilledWaveform.speedScale. simpl. lra.
Qed.

Lemma default_outline_scale : 0 <= OutlineWaveform.audioScale Props.empty.
Proof. unfold OutlineWaveform.audioScale. simpl. lra. Qed.

Lemma speed_multiplier_between_1_and_2_witness :
  let envs :=
    [audioFrame (constantBuffer 255) 0 0.5;
     audioFrame (constantBuffer 128) 1 0.5] in
  1 <= FilledWaveform.previousSpeedMultiplier
         (FilledWaveform.frames Props.empty envs
            (FilledWaveform.mount Props.empty (fun _ => 0))) <= 2 /\
  1 <= OutlineWaveform.previousSpeedMultiplier
         (OutlineWaveform.frames Props.empty envs
            (OutlineWaveform.mount Props.empty (fun _ => 0))) <= 2.
Proof.
  intros envs. split.
  - apply (proj1 speed_multiplier_between_1_and_2);
      [exact (proj1 default_filled_scales)
      | exact (proj2 default_filled_scales)
      | rewrite filled_default_blend; lra].
  - apply (proj2 speed_multiplier_between_1_and_2);
      [exact default_outline_scale | apply outline_default_factor].
Defined.

Lemma clampedSpeed_below_cap sp m :
  m <= 2 ->
  (0 <= sp -> clampedSpeed sp m = sp * m) /\
  (sp <= 0 -> clampedSpeed sp m = sp * 2).
Proof.
  intros Hm. unfold clampedSpeed.
  destruct (Rmin_cases (sp * 2) (sp * m)) as [[-> ?] | [-> ?]];
    split; intros Hsp; nra.
Qed.

Lemma filled_frames_speed_le_2 p envs s :
  0 <= FilledWaveform.speedBlend p <= 1 ->
  FilledWaveform.previousSpeedMultiplier s <= 2 ->
  FilledWaveform.previousSpeedMultiplier (FilledWaveform.frames p envs s) <= 2.
Proof.
  intros Hb. revert s. induction envs as [|env envs IH]; intros s Hm;
    [exact Hm|].
  rewrite filled_frames_cons. apply IH, filled_useFrame_speed_le_2; assumption.
Qed.

Lemma outline_frames_speed_le_2 p envs s :
  (forall a l, 0 <= OutlineWaveform.dynamicSmoothingFactor p a l <= 1) ->
  OutlineWaveform.previousSpeedMultiplier s <= 2 ->
  OutlineWaveform.previousSpeedMultiplier (OutlineWaveform.frames p envs s) <= 2.
Proof.
  intros Hb. revert s. induction envs as [|env envs IH]; intros s Hm;
    [exact Hm|].
  rewrite outline_frames_cons. apply IH, outline_useFrame_speed_le_2; assumption.
Qed.

(** X5.  The speed clamp of the undulation never cuts anything off.  With
    a blend factor in [0, 1], in every reachable frame of either layer the
    clamped speed of a term with a non-negative speed is
    speed * multiplier, as if there were no clamp; for a term with a
    negative speed the minimum picks 2 * speed in every frame, so such a
    term always runs at twice its speed whatever the audio level. *)
Theorem speed_clamp_is_inactive :
  (forall p rnd envs sp,
     0 <= FilledWaveform.speedBlend p <= 1 ->
     let m := FilledWaveform.previousSpeedMultiplier
                (FilledWaveform.frames p envs (FilledWaveform.mount p rnd)) in
     (0 <= sp -> clampedSpeed sp m = sp * m) /\
     (sp <= 0 -> clampedSpeed sp m = sp * 2)) /\
  (forall p rnd envs sp,
     (forall a l, 0 <= OutlineWaveform.dynamicSmoothingFactor p a l <= 1) ->
     let m := OutlineWaveform.previousSpeedMultiplier
                (OutlineWaveform.frames p envs (OutlineWaveform.mount p rnd)) in
     (0 <= sp -> clampedSpeed sp m = sp * m) /\
     (sp <= 0 -> clampedSpeed sp m = sp * 2)).
Proof.
  split; intros p rnd envs sp Hb m; apply clampedSpeed_below_cap; unfold m.
  - apply filled_frames_speed_le_2; [exact Hb|].
    apply (proj2 (mount_speed_filled p rnd)).
  - apply outline_frames_speed_le_2; [exact Hb|].
    apply (proj2 (mount_speed_outline p rnd)).
Qed.

Lemma speed_clamp_is_inactive_witness :
  let envs := [audioFrame (constantBuffer 255) 0 0.5] in
  let mf := FilledWaveform.previousSpeedMultiplier
              (FilledWaveform.frames Props.empty envs
                 (FilledWaveform.mount Props.empty (fun _ => 0))) in
  let mo := OutlineWaveform.previousSpeedMultiplier
              (OutlineWaveform.frames Props.empty envs
                 (OutlineWaveform.mount Props.empty (fun _ => 0))) in
  clampedSpeed 0.8 mf = 0.8 * mf /\ clampedSpeed (-1) mo = -1 * 2.
Proof.
  intros envs mf mo. split.
  - apply (proj1 speed_clamp_is_inactive Props.empty (fun _ => 0) envs 0.8);
      [rewrite filled_default_blend; lra | lra].
  - apply (proj2 speed_clamp_is_inactive Props.empty (fun _ => 0) envs (-1));
      [apply outline_default_factor | lra].
Defined.

(** ** The radius state stays in a known interval *)

Lemma pulsedRadius_range baseRadius pulseScale audioScale dataArray :
  wf_dataArray dataArray -> 0 <= audioScale -> 0 <= baseRadius ->
  0 <= pulseScale ->
  baseRadius
  <= pulsedRadius baseRadius pulseScale (averageAudio audioScale dataArray)
  <= baseRadius * (1 + audioScale * pulseScale).
Proof.
  intros Hwf Ha Hb Hp. unfold pulsedRadius, pulseEffect.
  pose proof (averageAudio_nonneg audioScale dataArray Ha) as H0.
  pose proof (averageAudio_le audioScale dataArray Hwf Ha) as H1.
  set (x := averageAudio audioScale dataArray / 128) in *.
  assert (0 <= baseRadius * x <= baseRadius * audioScale) by nra.
  split; nra.
Qed.

Lemma jitter_range rnd audioScale dataArray :
  wf_dataArray dataArray -> 0 <= audioScale -> 0 <= rnd < 1 ->
  Rabs ((rnd - 0.5) * (averageAudio audioScale dataArray / 128))
  <= 0.5 * audioScale.
Proof.
  intros Hwf Ha Hr.
  pose proof (averageAudio_nonneg audioScale dataArray Ha) as H0.
  pose proof (averageAudio_le audioScale dataArray Hwf Ha) as H1.
  set (x := averageAudio audioScale dataArray / 128) in *.
  apply Rabs_le. split; nra.
Qed.

Lemma audioFrame_browser b t r :
  (0 <= b <= 255)%Z -> 0 <= r < 1 ->
  browserFrame (audioFrame (constantBuffer b) t r).
Proof.
  intros Hb Hr. split.
  - intros dataArray Hd. injection Hd as <-. apply constantBuffer_wf; exact Hb.
  - intros i. exact Hr.
Qed.

Lemma filled_nextRadius_hull p env dataArray i r lo hi :
  wf_dataArray dataArray -> (forall j, 0 <= random env j < 1) ->
  0 <= FilledWaveform.smoothingFactor p <= 1 ->
  0 <= FilledWaveform.audioScale p -> 0 <= FilledWaveform.baseRadius p ->
  0 <= FilledWaveform.pulseScale p ->
  lo <= FilledWaveform.baseRadius p
        - filledSlack (FilledWaveform.audioScale p) ->
  FilledWaveform.baseRadius p
  * (1 + FilledWaveform.audioScale p * FilledWaveform.pulseScale p)
  + filledSlack (FilledWaveform.audioScale p) <= hi ->
  lo <= r <= hi ->
  lo <= FilledWaveform.nextRadius p env dataArray i r <= hi.
Proof.
  intros Hwf Hrnd Hsf Ha Hb Hp Hlo Hhi Hr.
  unfold FilledWaveform.nextRadius, FilledWaveform.randomness, filledSlack in *.
  cbv zeta.
  pose proof (pulsedRadius_range _ _ _ dataArray Hwf Ha Hb Hp) as Hpulse.
  pose proof (Rabs_le_interval _ _
                (audioEffect_abs _ dataArray i Hwf Ha)) as Heff.
  pose proof (Rabs_le_interval _ _
                (jitter_range (random env i) _ dataArray Hwf Ha (Hrnd i)))
    as Hjit.
  set (P := pulsedRadius _ _ _) in *.
  set (E := audioEffect _ _ _ _) in *.
  set (J := (random env i - 0.5) * _) in *.
  set (sf := FilledWaveform.smoothingFactor p) in *.
  apply blend_between; [exact Hr | lra | exact Hsf].
Qed.

Lemma outline_nextRadius_hull p env dataArray k i r lo hi :
  wf_dataArray dataArray -> (forall j, 0 <= random env j < 1) ->
  0 <= k <= 1 ->
  0 <= OutlineWaveform.audioScale p -> 0 <= OutlineWaveform.baseRadius p ->
  0 <= OutlineWaveform.pulseScale p ->
  lo <= OutlineWaveform.baseRadius p
        - outlineSlack (OutlineWaveform.audioScale p) ->
  OutlineWaveform.baseRadius p
  * (1 + OutlineWaveform.audioScale p * OutlineWaveform.pulseScale p)
  + outlineSlack (OutlineWaveform.audioScale p) <= hi ->
  lo <= r <= hi ->
  lo <= OutlineWaveform.nextRadius p env dataArray k i r <= hi.
Proof.
  intros Hwf Hrnd Hk Ha Hb Hp Hlo Hhi Hr.
  unfold OutlineWaveform.nextRadius, OutlineWaveform.randomness,
    outlineSlack in *.
  cbv zeta.
  pose proof (pulsedRadius_range _ _ _ dataArray Hwf Ha Hb Hp) as Hpulse.
  pose proof (Rabs_le_interval _ _
                (audioEffect_abs _ dataArray i Hwf Ha)) as Heff.
  pose proof (Rabs_le_interval _ _
                (jitter_range (random env i) _ dataArray Hwf Ha (Hrnd i)))
    as Hjit.
  set (P := pulsedRadius _ _ _) in *.
  set (E := audioEffect _ _ _ _) in *.
  set (J := (random env i - 0.5) * _) in *.
  apply blend_between; [exact Hr | lra | exact Hk].
Qed.

(** One frame, run with the props [p] of the latest render, from any state
    of the live instance. *)
Lemma filled_useFrame_hull p env s lo hi :
  filledWf s -> browserFrame env ->
  0 <= FilledWaveform.smoothingFactor p <= 1 ->
  0 <= FilledWaveform.audioScale p -> 0 <= FilledWaveform.baseRadius p ->
  0 <= FilledWaveform.pulseScale p ->
  lo <= FilledWaveform.baseRadius p
        - filledSlack (FilledWaveform.audioScale p) ->
  FilledWaveform.baseRadius p
  * (1 + FilledWaveform.audioScale p * FilledWaveform.pulseScale p)
  + filledSlack (FilledWaveform.audioScale p) <= hi ->
  (forall i, (i < 512)%nat ->
     lo <= nth i (FilledWaveform.currentRadii s) 0 <= hi) ->
  forall i, (i < 512)%nat ->
    lo <= nth i (FilledWaveform.currentRadii (FilledWaveform.useFrame p env s)) 0
    <= hi.
Proof.
  intros Hwf [Hdata Hrnd] Hsf Ha Hb Hp Hlo Hhi Hs i Hi.
  destruct (analyser env) as [dataArray|] eqn:Hd;
    [destruct (meshRef env) eqn:Hr|].
  - rewrite (filled_useFrame_radius p env s dataArray i Hd Hr Hwf Hi).
    apply filled_nextRadius_hull; try assumption;
      [apply Hdata; reflexivity | apply Hs; exact Hi].
  - rewrite filled_useFrame_idle by (right; exact Hr). apply Hs; exact Hi.
  - rewrite filled_useFrame_idle by (left; exact Hd). apply Hs; exact Hi.
Qed.

Lemma outline_useFrame_hull p env s lo hi :
  outlineWf s -> browserFrame env ->
  (forall a l, 0 <= OutlineWaveform.dynamicSmoothingFactor p a l <= 1) ->
  0 <= OutlineWaveform.audioScale p -> 0 <= OutlineWaveform.baseRadius p ->
  0 <= OutlineWaveform.pulseScale p ->
  lo <= OutlineWaveform.baseRadius p
        - outlineSlack (OutlineWaveform.audioScale p) ->
  OutlineWaveform.baseRadius p
  * (1 + OutlineWaveform.audioScale p * OutlineWaveform.pulseScale p)
  + outlineSlack (OutlineWaveform.audioScale p) <= hi ->
  (forall i, (i < 512)%nat ->
     lo <= nth i (OutlineWaveform.currentRadii s) 0 <= hi) ->
  forall i, (i < 512)%nat ->
    lo <= nth i (OutlineWaveform.currentRadii
                   (OutlineWaveform.useFrame p env s)) 0
    <= hi.
Proof.
  intros Hwf [Hdata Hrnd] Hk Ha Hb Hp Hlo Hhi Hs i Hi.
  destruct (analyser env) as [dataArray|] eqn:Hd;
    [destruct (meshRef env) eqn:Hr|].
  - rewrite (outline_useFrame_radius p env s dataArray i Hd Hr Hwf Hi).
    apply outline_nextRadius_hull; try assumption;
      [apply Hdata; reflexivity | apply Hk | apply Hs; exact Hi].
  - rewrite outline_useFrame_idle by (right; exact Hr). apply Hs; exact Hi.
  - rewrite outline_useFrame_idle by (left; exact Hd). apply Hs; exact Hi.
Qed.

Lemma filled_mount_radius p rnd i :
  (i < 512)%nat ->
  nth i (FilledWaveform.currentRadii (FilledWaveform.mount p rnd)) 0
  = FilledWaveform.baseRadius p.
Proof.
  intros Hi. cbn [FilledWaveform.mount FilledWaveform.currentRadii].
  apply nth_repeat_lt. exact Hi.
Qed.

Lemma outline_mount_radius p rnd i :
  (i < 512)%nat ->
  nth i (OutlineWaveform.currentRadii (OutlineWaveform.mount p rnd)) 0
  = OutlineWaveform.baseRadius p.
Proof.
  intros Hi. cbn [OutlineWaveform.mount OutlineWaveform.currentRadii].
  apply nth_repeat_lt. exact Hi.
Qed.

(** X6.  The radius state cannot run away, and this survives re-renders
    with other props.  The radius array is a ref: it is set to baseRadius
    in every entry when the instance is created and from then on only the
    frame callback writes it, with the props of the latest render.  Take
    any interval [lo, hi].  If every entry is in [lo, hi] before a frame,
    and the props [p] that the frame runs with have a smoothing factor in
    [0, 1] (outline: a dynamic smoothing factor in [0, 1]), non-negative
    base radius, audio scale and pulse scale, and their own interval
    [baseRadius - slack, baseRadius * (1 + audioScale * pulseScale) + slack]
    inside [lo, hi], then every entry is in [lo, hi] after the frame, for
    any 512-byte buffer and random draws in [0, 1); slack is
    audioScale * (1 + 2 audioScale) + 0.5 audioScale for the filled layer
    and audioScale * (1 + 2 audioScale) + 0.375 audioScale for the outline
    layer.  The state before the frame is any state with arrays of the
    right lengths; it need not come from frames with the same props. *)
Theorem radius_interval_is_invariant :
  (forall p rnd i, (i < 512)%nat ->
     nth i (FilledWaveform.currentRadii (FilledWaveform.mount p rnd)) 0
     = FilledWaveform.baseRadius p) /\
  (forall p env s lo hi,
     filledWf s -> browserFrame env ->
     0 <= FilledWaveform.smoothingFactor p <= 1 ->
     0 <= FilledWaveform.audioScale p -> 0 <= FilledWaveform.baseRadius p ->
     0 <= FilledWaveform.pulseScale p ->
     lo <= FilledWaveform.baseRadius p
           - filledSlack (FilledWaveform.audioScale p) ->
     FilledWaveform.baseRadius p
     * (1 + FilledWaveform.audioScale p * FilledWaveform.pulseScale p)
     + filledSlack (FilledWaveform.audioScale p) <= hi ->
     (forall i, (i < 512)%nat ->
        lo <= nth i (FilledWaveform.currentRadii s) 0 <= hi) ->
     forall i, (i < 512)%nat ->
       lo <= nth i (FilledWaveform.currentRadii
                      (FilledWaveform.useFrame p env s)) 0
       <= hi) /\
  (forall p rnd i, (i < 512)%nat ->
     nth i (OutlineWaveform.currentRadii (OutlineWaveform.mount p rnd)) 0
     = OutlineWaveform.baseRadius p) /\
  (forall p env s lo hi,
     outlineWf s -> browserFrame env ->
     (forall a l, 0 <= OutlineWaveform.dynamicSmoothingFactor p a l <= 1) ->
     0 <= OutlineWaveform.audioScale p -> 0 <= OutlineWaveform.baseRadius p ->
     0 <= OutlineWaveform.pulseScale p ->
     lo <= OutlineWaveform.baseRadius p
           - outlineSlack (OutlineWaveform.audioScale p) ->
     OutlineWaveform.baseRadius p
     * (1 + OutlineWaveform.audioScale p * OutlineWaveform.pulseScale p)
     + outlineSlack (OutlineWaveform.audioScale p) <= hi ->
     (forall i, (i < 512)%nat ->
        lo <= nth i (OutlineWaveform.currentRadii s) 0 <= hi) ->
     forall i, (i < 512)%nat ->
       lo <= nth i (OutlineWaveform.currentRadii
                      (OutlineWaveform.useFrame p env s)) 0
       <= hi).
Proof.
  split; [exact filled_mount_radius|].
  split; [exact filled_useFrame_hull|].
  split; [exact outline_mount_radius | exact outline_useFrame_hull].
Qed.

Lemma reradius_filled_params :
  0 <= FilledWaveform.smoothingFactor (propsWithRadius 7) <= 1 /\
  0 <= FilledWaveform.audioScale (propsWithRadius 7) /\
  0 <= FilledWaveform.baseRadius (propsWithRadius 7) /\
  0 <= FilledWaveform.pulseScale (propsWithRadius 7) /\
  4 <= FilledWaveform.baseRadius (propsWithRadius 7)
       - filledSlack (FilledWaveform.audioScale (propsWithRadius 7)) /\
  FilledWaveform.baseRadius (propsWithRadius 7)
  * (1 + FilledWaveform.audioScale (propsWithRadius 7)
         * FilledWaveform.pulseScale (propsWithRadius 7))
  + filledSlack (FilledWaveform.audioScale (propsWithRadius 7)) <= 12.
Proof.
  unfold filledSlack, FilledWaveform.smoothingFactor,
    FilledWaveform.audioScale, FilledWaveform.baseRadius,
    FilledWaveform.pulseScale.
  simpl. lra.
Qed.

Lemma reradius_outline_params :
  0 <= OutlineWaveform.audioScale (propsWithRadius 7) /\
  0 <= OutlineWaveform.baseRadius (propsWithRadius 7) /\
  0 <= OutlineWaveform.pulseScale (propsWithRadius 7) /\
  4 <= OutlineWaveform.baseRadius (propsWithRadius 7)
       - outlineSlack (OutlineWaveform.audioScale (propsWithRadius 7)) /\
  OutlineWaveform.baseRadius (propsWithRadius 7)
  * (1 + OutlineWaveform.audioScale (propsWithRadius 7)
         * OutlineWaveform.pulseScale (propsWithRadius 7))
  + outlineSlack (OutlineWaveform.audioScale (propsWithRadius 7)) <= 12.
Proof.
  unfold outlineSlack, OutlineWaveform.audioScale,
    OutlineWaveform.baseRadius, OutlineWaveform.pulseScale.
  simpl. lra.
Qed.

Lemma reradius_outline_factor a l :
  0 <= OutlineWaveform.dynamicSmoothingFactor (propsWithRadius 7) a l <= 1.
Proof.
  unfold OutlineWaveform.dynamicSmoothingFactor,
    OutlineWaveform.smoothingFactor, OutlineWaveform.increaseResponseRate,
    OutlineWaveform.decreaseResponseRate.
  simpl.
  destruct (Rlt_dec l a);
    match goal with
    | |- context [Rmin ?x ?y] =>
        destruct (Rmin_cases x y) as [[-> ?] | [-> ?]]
    end; lra.
Qed.

Lemma mounted_default_radii_filled i :
  (i < 512)%nat ->
  4 <= nth i (FilledWaveform.currentRadii
                (FilledWaveform.mount Props.empty (fun _ => 0))) 0 <= 12.
Proof.
  intros Hi. rewrite filled_mount_radius by exact Hi.
  unfold FilledWaveform.baseRadius. simpl. lra.
Qed.

Lemma mounted_default_radii_outline i :
  (i < 512)%nat ->
  4 <= nth i (OutlineWaveform.currentRadii
                (OutlineWaveform.mount Props.empty (fun _ => 0))) 0 <= 12.
Proof.
  intros Hi. rewrite outline_mount_radius by exact Hi.
  unfold OutlineWaveform.baseRadius. simpl. lra.
Qed.

Lemma radius_interval_is_invariant_witness :
  let env := audioFrame (constantBuffer 255) 0 0.25 in
  nth 9 (FilledWaveform.currentRadii
           (FilledWaveform.mount Props.empty (fun _ => 0))) 0
  = FilledWaveform.baseRadius Props.empty /\
  nth 9 (OutlineWaveform.currentRadii
           (OutlineWaveform.mount Props.empty (fun _ => 0))) 0
  = OutlineWaveform.baseRadius Props.empty /\
  (4 <= nth 9 (FilledWaveform.currentRadii
                 (FilledWaveform.useFrame (propsWithRadius 7) env
                    (FilledWaveform.mount Props.empty (fun _ => 0)))) 0
   <= 12) /\
  (4 <= nth 9 (OutlineWaveform.currentRadii
                 (OutlineWaveform.useFrame (propsWithRadius 7) env
                    (OutlineWaveform.mount Props.empty (fun _ => 0)))) 0
   <= 12).
Proof.
  intros env.
  assert (Henv : browserFrame env) by (apply audioFrame_browser; [lia | lra]).
  destruct reradius_filled_params as (Hsf & Ha & Hb & Hp & Hlo & Hhi).
  destruct reradius_outline_params as (Ha' & Hb' & Hp' & Hlo' & Hhi').
  split; [|split; [|split]].
  - apply (proj1 radius_interval_is_invariant Props.empty (fun _ => 0) 9%nat).
    lia.
  - apply (proj1 (proj2 (proj2 radius_interval_is_invariant))
             Props.empty (fun _ => 0) 9%nat).
    lia.
  - apply (proj1 (proj2 radius_interval_is_invariant)
             (propsWithRadius 7) env
             (FilledWaveform.mount Props.empty (fun _ => 0)) 4 12
             (filledWf_mount _ _) Henv Hsf Ha Hb Hp Hlo Hhi
             mounted_default_radii_filled).
    lia.
  - apply (proj2 (proj2 (proj2 radius_interval_is_invariant))
             (propsWithRadius 7) env
             (OutlineWaveform.mount Props.empty (fun _ => 0)) 4 12
             (outlineWf_mount _ _) Henv reradius_outline_factor
             Ha' Hb' Hp' Hlo' Hhi' mounted_default_radii_outline).
    lia.
Defined.

(** ** Vertices lie on circles *)

Lemma point_on_circle (a r : R) :
  (cos a * r) * (cos a * r) + (sin a * r) * (sin a * r) = r * r.
Proof.
  pose proof (sin2_cos2 a) as H. unfold Rsqr in H.
  replace (cos a * r * (cos a * r) + sin a * r * (sin a * r))
    with ((sin a * sin a + cos a * cos a) * (r * r)) by ring.
  rewrite H. ring.
Qed.

(** X7.  Every edge vertex that a frame with audio writes is on the circle
    around the origin whose radius is the vertex's rendered radius:
    x * x + y * y = radius * radius, in both layers; before any frame every
    edge vertex is on the circle of radius baseRadius. *)
Theorem edge_vertices_on_circles :
  (forall p rnd envs env dataArray i,
     analyser env = Some dataArray -> meshRef env = true -> (i < 512)%nat ->
     let s' :=
       FilledWaveform.useFrame p env
         (FilledWaveform.frames p envs (FilledWaveform.mount p rnd)) in
     let x := nth (i * 6) (FilledWaveform.positions s') 0 in
     let y := nth (i * 6 + 1) (FilledWaveform.positions s') 0 in
     x * x + y * y
     = FilledWaveform.renderedRadius p env s' i
       * FilledWaveform.renderedRadius p env s' i) /\
  (forall p rnd envs env dataArray i,
     analyser env = Some dataArray -> meshRef env = true -> (i < 512)%nat ->
     let s' :=
       OutlineWaveform.useFrame p env
         (OutlineWaveform.frames p envs (OutlineWaveform.mount p rnd)) in
     let x := nth (i * 3) (OutlineWaveform.positions s') 0 in
     let y := nth (i * 3 + 1) (OutlineWaveform.positions s') 0 in
     x * x + y * y
     = OutlineWaveform.renderedRadius p env s' i
       * OutlineWaveform.renderedRadius p env s' i) /\
  (forall p rnd i, (i < 512)%nat ->
     let x := nth (i * 6) (FilledWaveform.positions (FilledWaveform.mount p rnd)) 0 in
     let y := nth (i * 6 + 1)
                (FilledWaveform.positions (FilledWaveform.mount p rnd)) 0 in
     x * x + y * y = FilledWaveform.baseRadius p * FilledWaveform.baseRadius p) /\
  (forall p rnd i, (i < 512)%nat ->
     let x := nth (i * 3)
                (OutlineWaveform.positions (OutlineWaveform.mount p rnd)) 0 in
     let y := nth (i * 3 + 1)
                (OutlineWaveform.positions (OutlineWaveform.mount p rnd)) 0 in
     x * x + y * y
     = OutlineWaveform.baseRadius p * OutlineWaveform.baseRadius p).
Proof.
  split; [|split; [|split]].
  - intros p rnd envs env dataArray i Hd Hr Hi s' x y.
    destruct (filled_useFrame_vertex p env _ dataArray i Hd Hr
                (filledWf_frames p envs _ (filledWf_mount p rnd)) Hi)
      as [Hx Hy].
    unfold x, y, s'. rewrite Hx, Hy. apply point_on_circle.
  - intros p rnd envs env dataArray i Hd Hr Hi s' x y.
    destruct (outline_useFrame_vertex p env _ dataArray i Hd Hr
                (outlineWf_frames p envs _ (outlineWf_mount p rnd)) Hi)
      as [Hx Hy].
    unfold x, y, s'. rewrite Hx, Hy. apply point_on_circle.
  - intros p rnd i Hi x y. unfold x, y.
    cbn [FilledWaveform.mount FilledWaveform.positions].
    pose proof (filled_initialPositions_nth p i 0 Hi ltac:(lia)) as Hx.
    rewrite Nat.add_0_r in Hx.
    rewrite Hx, (filled_initialPositions_nth p i 1 Hi) by lia.
    apply point_on_circle.
  - intros p rnd i Hi x y. unfold x, y.
    cbn [OutlineWaveform.mount OutlineWaveform.positions].
    pose proof (outline_initialPositions_nth p i 0 Hi ltac:(lia)) as Hx.
    rewrite Nat.add_0_r in Hx.
    rewrite Hx, (outline_initialPositions_nth p i 1 Hi) by lia.
    apply point_on_circle.
Qed.

Lemma edge_vertices_on_circles_witness :
  let p := Props.empty in
  let env := audioFrame (constantBuffer 255) 1 0.25 in
  (let s' :=
     FilledWaveform.useFrame p env
       (FilledWaveform.frames p [env] (FilledWaveform.mount p (fun _ => 0))) in
   let x := nth (40 * 6) (FilledWaveform.positions s') 0 in
   let y := nth (40 * 6 + 1) (FilledWaveform.positions s') 0 in
   x * x + y * y
   = FilledWaveform.renderedRadius p env s' 40
     * FilledWaveform.renderedRadius p env s' 40) /\
  (let s' :=
     OutlineWaveform.useFrame p env
       (OutlineWaveform.frames p [env] (OutlineWaveform.mount p (fun _ => 0))) in
   let x := nth (40 * 3) (OutlineWaveform.positions s') 0 in
   let y := nth (40 * 3 + 1) (OutlineWaveform.positions s') 0 in
   x * x + y * y
   = OutlineWaveform.renderedRadius p env s' 40
     * OutlineWaveform.renderedRadius p env s' 40).
Proof.
  intros p env. split.
  - apply (proj1 edge_vertices_on_circles p (fun _ => 0) [env] env
             (constantBuffer 255)); [reflexivity | reflexivity | lia].
  - apply (proj1 (proj2 edge_vertices_on_circles) p (fun _ => 0) [env] env
             (constantBuffer 255)); [reflexivity | reflexivity | lia].
Defined.

(** ** Rotation directions *)

Lemma newRotationDirections_signs pattern rnd :
  length (newRotationDirections pattern rnd) = length pattern /\
  Forall (fun d => d = 1 \/ d = -1) (newRotationDirections pattern rnd).
Proof.
  unfold newRotationDirections. split.
  - rewrite length_map, length_seq. reflexivity.
  - apply Forall_forall. intros d Hd. apply in_map_iff in Hd.
    destruct Hd as (k & <- & _).
    destruct (Rlt_dec 0.5 (rnd k)); [left | right]; reflexivity.
Qed.

Lemma nth_map_seq {A : Type} (f : nat -> A) (d : A) (n k start : nat) :
  (k < n)%nat -> nth k (map f (seq start n)) d = f (start + k)%nat.
Proof.
  revert k start; induction n as [|n IH]; intros k start Hk; [lia|].
  destruct k as [|k]; simpl.
  - rewrite Nat.add_0_r. reflexivity.
  - rewrite IH by lia. f_equal. lia.
Qed.

Lemma filled_frames_directions p envs s :
  FilledWaveform.rotationDirections (FilledWaveform.frames p envs s)
  = FilledWaveform.rotationDirections s.
Proof.
  revert s; induction envs as [|env envs IH]; intros s; [reflexivity|].
  rewrite filled_frames_cons, IH. apply filled_useFrame_directions.
Qed.

Lemma outline_frames_directions p envs s :
  OutlineWaveform.rotationDirections (OutlineWaveform.frames p envs s)
  = OutlineWaveform.rotationDirections s.
Proof.
  revert s; induction envs as [|env envs IH]; intros s; [reflexivity|].
  rewrite outline_frames_cons, IH. apply outline_useFrame_directions.
Qed.

(** X8.  The rotation directions of a layer are drawn once, at creation:
    there is one per undulation term, each is 1 or -1 (1 exactly when the
    draw was above 0.5), and no frame changes them. *)
Theorem rotation_directions_are_fixed_signs :
  (forall p rnd envs,
     let d := FilledWaveform.rotationDirections
                (FilledWaveform.frames p envs (FilledWaveform.mount p rnd)) in
     d = newRotationDirections (FilledWaveform.undulationPattern p) rnd /\
     length d = length (FilledWaveform.undulationPattern p) /\
     Forall (fun x => x = 1 \/ x = -1) d /\
     forall k, (k < length (FilledWaveform.undulationPattern p))%nat ->
       (nth k d 0 = 1 <-> 0.5 < rnd k)) /\
  (forall p rnd envs,
     let d := OutlineWaveform.rotationDirections
                (OutlineWaveform.frames p envs (OutlineWaveform.mount p rnd)) in
     d = newRotationDirections (OutlineWaveform.undulationPattern p) rnd /\
     length d = length (OutlineWaveform.undulationPattern p) /\
     Forall (fun x => x = 1 \/ x = -1) d /\
     forall k, (k < length (OutlineWaveform.undulationPattern p))%nat ->
       (nth k d 0 = 1 <-> 0.5 < rnd k)).
Proof.
  assert (Hnth : forall pattern rnd k, (k < length pattern)%nat ->
            (nth k (newRotationDirections pattern rnd) 0 = 1 <-> 0.5 < rnd k)).
  { intros pattern rnd k Hk. unfold newRotationDirections.
    rewrite nth_map_seq by exact Hk. simpl.
    destruct (Rlt_dec 0.5 (rnd k)); split; intros H; try lra; contradiction. }
  split; intros p rnd envs d.
  - assert (Hd : d = newRotationDirections (FilledWaveform.undulationPattern p) rnd)
      by (unfold d; rewrite filled_frames_directions; reflexivity).
    rewrite Hd.
    split; [reflexivity|].
    split; [apply newRotationDirections_signs|].
    split; [apply newRotationDirections_signs | apply Hnth].
  - assert (Hd : d = newRotationDirections (OutlineWaveform.undulationPattern p) rnd)
      by (unfold d; rewrite outline_frames_directions; reflexivity).
    rewrite Hd.
    split; [reflexivity|].
    split; [apply newRotationDirections_signs|].
    split; [apply newRotationDirections_signs | apply Hnth].
Qed.

Lemma rotation_directions_are_fixed_signs_witness :
  let rnd := fun k : nat => if Nat.eqb k 1 then 0.9 else 0.2 in
  let d := FilledWaveform.rotationDirections
             (FilledWaveform.frames Props.empty
                [audioFrame (constantBuffer 255) 0 0.5]
                (FilledWaveform.mount Props.empty rnd)) in
  nth 1 d 0 = 1.
Proof.
  intros rnd d.
  destruct (proj1 rotation_directions_are_fixed_signs Props.empty rnd
              [audioFrame (constantBuffer 255) 0 0.5]) as (_ & _ & _ & H).
  apply (H 1%nat); [simpl; lia | unfold rnd; simpl; lra].
Defined.

(** ** Frames that do not pass the guard *)

Lemma hasAudio_false env :
  hasAudio env = false -> analyser env = None \/ meshRef env = false.
Proof.
  unfold hasAudio. destruct (analyser env); [right | left]; auto.
Qed.

(** X9.  Frames that do not pass the guard (no analyser, or no mesh) can be
    dropped from any sequence of frames without changing the state the
    sequence leads to, in both layers. *)
Theorem guarded_frames_can_be_dropped :
  (forall p envs s,
     FilledWaveform.frames p envs s
     = FilledWaveform.frames p (filter hasAudio envs) s) /\
  (forall p envs s,
     OutlineWaveform.frames p envs s
     = OutlineWaveform.frames p (filter hasAudio envs) s).
Proof.
  split; intros p envs; induction envs as [|env envs IH]; intros s;
    try reflexivity; cbn [filter]; destruct (hasAudio env) eqn:Hh.
  - rewrite !filled_frames_cons. apply IH.
  - rewrite filled_frames_cons,
      filled_useFrame_idle by (apply hasAudio_false; exact Hh).
    apply IH.
  - rewrite !outline_frames_cons. apply IH.
  - rewrite outline_frames_cons,
      outline_useFrame_idle by (apply hasAudio_false; exact Hh).
    apply IH.
Qed.

(** ** The fade-in *)

Lemma filled_useFrame_opacity p env s :
  FilledWaveform.currentOpacity (FilledWaveform.useFrame p env s)
  = if hasAudio env
    then if Req_dec_T (FilledWaveform.currentOpacity s) 0
         then FilledWaveform.opacity p else FilledWaveform.currentOpacity s
    else FilledWaveform.currentOpacity s.
Proof.
  unfold FilledWaveform.useFrame, hasAudio.
  destruct (analyser env); [destruct (meshRef env)|]; reflexivity.
Qed.

Lemma outline_useFrame_opacity p env s :
  OutlineWaveform.currentOpacity (OutlineWaveform.useFrame p env s)
  = if hasAudio env
    then if Req_dec_T (OutlineWaveform.currentOpacity s) 0
         then OutlineWaveform.opacity p else OutlineWaveform.currentOpacity s
    else OutlineWaveform.currentOpacity s.
Proof.
  unfold OutlineWaveform.useFrame, hasAudio.
  destruct (analyser env); [destruct (meshRef env)|]; reflexivity.
Qed.

Lemma filledPlay_opacity p evs s :
  FilledWaveform.currentOpacity s = 0
  \/ FilledWaveform.currentOpacity s = FilledWaveform.opacity p ->
  FilledWaveform.currentOpacity (filledPlay p evs s)
  = if existsb startsFade evs then FilledWaveform.opacity p
    else FilledWaveform.currentOpacity s.
Proof.
  revert s; induction evs as [|ev evs IH]; intros s Hs; [reflexivity|].
  change (filledPlay p (ev :: evs) s) with (filledPlay p evs (filledStep p s ev)).
  assert (Hstep : FilledWaveform.currentOpacity (filledStep p s ev)
                  = if startsFade ev then FilledWaveform.opacity p
                    else FilledWaveform.currentOpacity s).
  { destruct ev as [env|]; [|reflexivity].
    cbn [filledStep startsFade]. rewrite filled_useFrame_opacity.
    destruct (hasAudio env); [|reflexivity].
    destruct (Req_dec_T (FilledWaveform.currentOpacity s) 0) as [E|N];
      [reflexivity | destruct Hs; [contradiction | assumption]]. }
  rewrite IH.
  - cbn [existsb]. rewrite Hstep.
    destruct (startsFade ev); cbn [orb]; [|reflexivity].
    destruct (existsb startsFade evs); reflexivity.
  - rewrite Hstep. destruct (startsFade ev); [right; reflexivity | exact Hs].
Qed.

Lemma outlinePlay_opacity p evs s :
  OutlineWaveform.currentOpacity s = 0
  \/ OutlineWaveform.currentOpacity s = OutlineWaveform.opacity p ->
  OutlineWaveform.currentOpacity (outlinePlay p evs s)
  = if existsb startsFade evs then OutlineWaveform.opacity p
    else OutlineWaveform.currentOpacity s.
Proof.
  revert s; induction evs as [|ev evs IH]; intros s Hs; [reflexivity|].
  change (outlinePlay p (ev :: evs) s)
    with (outlinePlay p evs (outlineStep p s ev)).
  assert (Hstep : OutlineWaveform.currentOpacity (outlineStep p s ev)
                  = if startsFade ev then OutlineWaveform.opacity p
                    else OutlineWaveform.currentOpacity s).
  { destruct ev as [env|]; [|reflexivity].
    cbn [outlineStep startsFade]. rewrite outline_useFrame_opacity.
    destruct (hasAudio env); [|reflexivity].
    destruct (Req_dec_T (OutlineWaveform.currentOpacity s) 0) as [E|N];
      [reflexivity | destruct Hs; [contradiction | assumption]]. }
  rewrite IH.
  - cbn [existsb]. rewrite Hstep.
    destruct (startsFade ev); cbn [orb]; [|reflexivity].
    destruct (existsb startsFade evs); reflexivity.
  - rewrite Hstep. destruct (startsFade ev); [right; reflexivity | exact Hs].
Qed.

Lemma play_opacity_from_mount :
  (forall p rnd evs,
     FilledWaveform.currentOpacity
       (filledPlay p evs (FilledWaveform.mount p rnd))
     = if existsb startsFade evs then FilledWaveform.opacity p else 0) /\
  (forall p rnd evs,
     OutlineWaveform.currentOpacity
       (outlinePlay p evs (OutlineWaveform.mount p rnd))
     = if existsb startsFade evs then OutlineWaveform.opacity p else 0).
Proof.
  split; intros p rnd evs.
  - rewrite filledPlay_opacity by (left; reflexivity). reflexivity.
  - rewrite outlinePlay_opacity by (left; reflexivity). reflexivity.
Qed.

(** X10.  The opacity of a layer has two values over its lifetime.  It is
    0 from creation until the first event that starts the fade-in (the
    100 ms timer, or a frame that passes the guard), and the [opacity] prop
    after that: the order of the timer and the frames does not matter, the
    later of the two changes nothing, and frames without a sampler never
    start the fade-in. *)
Theorem opacity_is_zero_until_fade_starts :
  (forall p rnd evs,
     FilledWaveform.currentOpacity
       (filledPlay p evs (FilledWaveform.mount p rnd))
     = if existsb startsFade evs then FilledWaveform.opacity p else 0) /\
  (forall p rnd evs,
     OutlineWaveform.currentOpacity
       (outlinePlay p evs (OutlineWaveform.mount p rnd))
     = if existsb startsFade evs then OutlineWaveform.opacity p else 0).
Proof. exact play_opacity_from_mount. Qed.

(** ** The fragment shader of the filled layer *)

Lemma length2_nonneg x y : 0 <= length2 x y.
Proof. apply sqrt_pos. Qed.

Lemma length2_le x y r :
  0 <= r -> x * x + y * y <= r * r -> length2 x y <= r.
Proof.
  intros Hr H. unfold length2.
  rewrite <- (sqrt_square r Hr). apply sqrt_le_1_alt. exact H.
Qed.

Lemma mix_between x y a :
  0 <= a <= 1 -> Rmin x y <= mix x y a <= Rmax x y.
Proof.
  intros Ha. unfold mix, Rmin, Rmax. destruct (Rle_dec x y); split; nra.
Qed.

(** X11.  The fill shader discards a fragment exactly when the opacity
    uniform is below 0.01, and otherwise writes that opacity as alpha.  So
    a filled layer draws nothing from creation until its fade-in starts,
    and once it has started every fragment is drawn with alpha
    [opacity], provided the [opacity] prop is at least 0.01 (below 0.01
    the layer never draws). *)
Theorem filled_layer_is_hidden_until_fade :
  forall p rnd evs c1 c2 x y z,
    let s := filledPlay p evs (FilledWaveform.mount p rnd) in
    let out := GradientFillMaterial.fragment (filledUniforms c1 c2 s) x y z in
    (existsb startsFade evs = false -> out = None) /\
    (FilledWaveform.opacity p < 0.01 -> out = None) /\
    (existsb startsFade evs = true -> 0.01 <= FilledWaveform.opacity p ->
     out = Some (mix3 c1 c2 (length2 x y * 0.1), FilledWaveform.opacity p)).
Proof.
  intros p rnd evs c1 c2 x y z s out.
  pose proof (proj1 play_opacity_from_mount p rnd evs) as Hop.
  unfold out, GradientFillMaterial.fragment, filledUniforms.
  cbn [GradientFillMaterial.opacity GradientFillMaterial.color1
       GradientFillMaterial.color2].
  fold s in Hop. rewrite Hop.
  split; [|split].
  - intros ->. destruct (Rlt_dec 0 0.01); [reflexivity | lra].
  - intros Hlow. destruct (existsb startsFade evs).
    + destruct (Rlt_dec (FilledWaveform.opacity p) 0.01);
        [reflexivity | contradiction].
    + destruct (Rlt_dec 0 0.01); [reflexivity | lra].
  - intros -> Hhigh.
    destruct (Rlt_dec (FilledWaveform.opacity p) 0.01); [lra | reflexivity].
Qed.

Lemma filled_layer_is_hidden_until_fade_witness :
  let p := Props.empty in
  let dim := {| Props.baseRadius := None; Props.color := None;
                Props.opacity := Some 0.005; Props.smoothingFactor := None;
                Props.audioScale := None; Props.undulationPattern := None;
                Props.increaseResponseRate := None;
                Props.decreaseResponseRate := None;
                Props.color2 := None; Props.pulseScale := None;
                Props.speedScale := None |} in
  let c1 := mkVec3 0.2 0.6 1 in
  let c2 := mkVec3 0 0.4 0.8 in
  GradientFillMaterial.fragment
    (filledUniforms c1 c2
       (filledPlay p [FrameEvent (deafFrame 0)]
          (FilledWaveform.mount p (fun _ => 0)))) 3 4 0 = None /\
  GradientFillMaterial.fragment
    (filledUniforms c1 c2
       (filledPlay p [FrameEvent (deafFrame 0); FadeTimer]
          (FilledWaveform.mount p (fun _ => 0)))) 3 4 0
  = Some (mix3 c1 c2 (length2 3 4 * 0.1), FilledWaveform.opacity p) /\
  GradientFillMaterial.fragment
    (filledUniforms c1 c2
       (filledPlay dim [FadeTimer] (FilledWaveform.mount dim (fun _ => 0))))
    3 4 0 = None.
Proof.
  intros p dim c1 c2. split; [|split].
  - apply (proj1 (filled_layer_is_hidden_until_fade p (fun _ => 0)
                    [FrameEvent (deafFrame 0)] c1 c2 3 4 0)).
    reflexivity.
  - apply (proj2 (proj2 (filled_layer_is_hidden_until_fade p (fun _ => 0)
                           [FrameEvent (deafFrame 0); FadeTimer] c1 c2 3 4 0)));
      [reflexivity | unfold p, FilledWaveform.opacity; simpl; lra].
  - apply (proj1 (proj2 (filled_layer_is_hidden_until_fade dim (fun _ => 0)
                           [FadeTimer] c1 c2 3 4 0))).
    unfold dim, FilledWaveform.opacity. simpl. lra.
Defined.

Lemma length2_gt x y r :
  0 <= r -> r * r < x * x + y * y -> r < length2 x y.
Proof.
  intros Hr H. unfold length2.
  rewrite <- (sqrt_square r Hr) at 1. apply sqrt_lt_1_alt. split; nra.
Qed.

Lemma length2_origin : length2 0 0 = 0.
Proof.
  unfold length2. replace (0 * 0 + 0 * 0) with 0 by ring. apply sqrt_0.
Qed.

(** X12.  The colour of a drawn fragment of the filled layer is
    color1 + (color2 - color1) * d / 10 in each channel, for the distance d
    of the fragment from the origin: color1 at the origin, a value between
    the two colours up to distance 10, and beyond distance 10 the mix is
    not clamped: a channel in which color2 is larger than color1 gets
    larger than color2. *)
Theorem fill_colour_follows_distance :
  forall un x y z col alpha,
    GradientFillMaterial.fragment un x y z = Some (col, alpha) ->
    let c1 := GradientFillMaterial.color1 un in
    let c2 := GradientFillMaterial.color2 un in
    red col = red c1 + (red c2 - red c1) * (length2 x y / 10) /\
    green col = green c1 + (green c2 - green c1) * (length2 x y / 10) /\
    blue col = blue c1 + (blue c2 - blue c1) * (length2 x y / 10) /\
    (x = 0 -> y = 0 -> col = c1) /\
    (x * x + y * y <= 100 ->
     Rmin (red c1) (red c2) <= red col <= Rmax (red c1) (red c2) /\
     Rmin (green c1) (green c2) <= green col <= Rmax (green c1) (green c2) /\
     Rmin (blue c1) (blue c2) <= blue col <= Rmax (blue c1) (blue c2)) /\
    (100 < x * x + y * y -> red c1 < red c2 -> red c2 < red col).
Proof.
  intros un x y z col alpha Hf c1 c2.
  unfold GradientFillMaterial.fragment in Hf. cbv zeta in Hf.
  destruct (Rlt_dec (GradientFillMaterial.opacity un) 0.01); [discriminate|].
  injection Hf as <- _. fold c1 c2.
  cbn [mix3 red green blue]. unfold mix.
  split; [lra | split; [lra | split; [lra | split; [|split]]]].
  - intros -> ->. rewrite length2_origin. destruct c1 as [r g b].
    unfold mix3, mix. cbn [red green blue]. f_equal; lra.
  - intros Hin.
    assert (Hd : 0 <= length2 x y * 0.1 <= 1).
    { pose proof (length2_nonneg x y).
      pose proof (length2_le x y 10 ltac:(lra) ltac:(lra)). lra. }
    repeat split; apply (mix_between _ _ _ Hd).
  - intros Hout Hc.
    pose proof (length2_gt x y 10 ltac:(lra) ltac:(lra)). nra.
Qed.

Lemma fill_colour_follows_distance_witness :
  let c1 := mkVec3 0.2 0.6 1 in
  let c2 := mkVec3 0.4 0.4 0.8 in
  let un := GradientFillMaterial.mkUniforms c1 c2 0.4 0 in
  Rmin 0.2 0.4 <= red (mix3 c1 c2 (length2 3 4 * 0.1)) <= Rmax 0.2 0.4 /\
  mix3 c1 c2 (length2 0 0 * 0.1) = c1 /\
  0.4 < red (mix3 c1 c2 (length2 30 40 * 0.1)).
Proof.
  intros c1 c2 un.
  assert (Hf : forall x y,
            GradientFillMaterial.fragment un x y 0
            = Some (mix3 c1 c2 (length2 x y * 0.1), 0.4)).
  { intros x y. unfold GradientFillMaterial.fragment, un. cbv zeta.
    cbn [GradientFillMaterial.opacity GradientFillMaterial.color1
         GradientFillMaterial.color2].
    destruct (Rlt_dec 0.4 0.01); [lra | reflexivity]. }
  split; [|split].
  - destruct (fill_colour_follows_distance un 3 4 0 _ _ (Hf 3 4))
      as (_ & _ & _ & _ & Hin & _).
    exact (proj1 (Hin ltac:(lra))).
  - destruct (fill_colour_follows_distance un 0 0 0 _ _ (Hf 0 0))
      as (_ & _ & _ & Horigin & _).
    exact (Horigin eq_refl eq_refl).
  - destruct (fill_colour_follows_distance un 30 40 0 _ _ (Hf 30 40))
      as (_ & _ & _ & _ & _ & Hout).
    apply Hout; [lra | simpl; lra].
Defined.

(** ** The fragment shader of the gradient material *)

Lemma clamp_unit t : 0 <= clamp t 0 1 <= 1.
Proof.
  unfold clamp, Rmin, Rmax.
  destruct (Rle_dec t 0); destruct (Rle_dec _ 1); lra.
Qed.

Lemma smoothstep_range e0 e1 x :
  e0 < e1 ->
  0 <= smoothstep e0 e1 x <= 1 /\
  (x <= e0 -> smoothstep e0 e1 x = 0) /\
  (e1 <= x -> smoothstep e0 e1 x = 1).
Proof.
  intros He. unfold smoothstep. cbv zeta.
  pose proof (clamp_unit ((x - e0) / (e1 - e0))) as Ht.
  set (t := clamp ((x - e0) / (e1 - e0)) 0 1) in *.
  assert (Hk : 0 < / (e1 - e0)) by (apply Rinv_0_lt_compat; lra).
  assert (Hone : (e1 - e0) * / (e1 - e0) = 1) by (field; lra).
  split; [|split].
  - split.
    + apply Rmult_le_pos; [apply Rle_0_sqr || nra | lra].
    + assert (H1 : 0 <= (1 - t) * (1 - t) * (1 + 2 * t))
        by (apply Rmult_le_pos; [nra | lra]).
      replace (t * t * (3 - 2 * t))
        with (1 - (1 - t) * (1 - t) * (1 + 2 * t)) by ring.
      lra.
  - intros Hx.
    assert (Hr : (x - e0) / (e1 - e0) <= 0) by (unfold Rdiv; nra).
    assert (Et : t = 0).
    { unfold t, clamp, Rmin, Rmax.
      destruct (Rle_dec ((x - e0) / (e1 - e0)) 0); [|lra].
      destruct (Rle_dec 0 1); lra. }
    rewrite Et. ring.
  - intros Hx.
    assert (Hr : 1 <= (x - e0) / (e1 - e0)) by (unfold Rdiv; nra).
    assert (Et : t = 1).
    { unfold t, clamp, Rmin, Rmax.
      destruct (Rle_dec ((x - e0) / (e1 - e0)) 0); [lra|].
      destruct (Rle_dec ((x - e0) / (e1 - e0)) 1); lra. }
    rewrite Et. ring.
Qed.

(** X13.  The gradient material never writes an alpha outside [0, 0.5]: it
    writes exactly 0.5 inside the disc of radius 0.4 around the centre of
    the uv square, and exactly 0 from radius 0.405 on. *)
Theorem gradient_alpha_is_a_disc_mask :
  forall u v,
    let alpha := snd (GradientMaterial.fragment u v) in
    let d := (u - 0.5) * (u - 0.5) + (v - 0.5) * (v - 0.5) in
    0 <= alpha <= 0.5 /\
    (d <= 0.4 * 0.4 -> alpha = 0.5) /\
    (0.405 * 0.405 <= d -> alpha = 0).
Proof.
  intros u v alpha d.
  unfold alpha, GradientMaterial.fragment. cbv zeta. cbn [snd].
  destruct (smoothstep_range 0.8 0.81
              (length2 (u - 0.5) (v - 0.5) * 2.0) ltac:(lra))
    as (Hr & Hlo & Hhi).
  split; [lra | split].
  - intros Hd.
    pose proof (length2_le (u - 0.5) (v - 0.5) 0.4 ltac:(lra) Hd).
    rewrite Hlo by lra. lra.
  - intros Hd.
    assert (0.405 <= length2 (u - 0.5) (v - 0.5)).
    { unfold length2. rewrite <- (sqrt_square 0.405) by lra.
      apply sqrt_le_1_alt. exact Hd. }
    rewrite Hhi by lra. lra.
Qed.

Lemma gradient_alpha_is_a_disc_mask_witness :
  snd (GradientMaterial.fragment 0.5 0.6) = 0.5 /\
  snd (GradientMaterial.fragment 1 1) = 0.
Proof.
  split.
  - apply (proj1 (proj2 (gradient_alpha_is_a_disc_mask 0.5 0.6))). lra.
  - apply (proj2 (proj2 (gradient_alpha_is_a_disc_mask 1 1))). lra.
Defined.

(** ** Silent frames do not read the random draws *)

Lemma for_loop_ext {T : Type} (n : nat) (b b' : nat -> T -> T) (init : T) :
  (forall i st, (i < n)%nat -> b i st = b' i st) ->
  for_loop n b init = for_loop n b' init.
Proof.
  induction n as [|n IH]; intros H; [reflexivity|].
  rewrite !for_loop_S, IH by (intros i st Hi; apply H; lia).
  apply H. lia.
Qed.

Lemma filled_nextRadius_silent_eq p env env' i r :
  (i < bufferLength)%nat ->
  FilledWaveform.nextRadius p env (constantBuffer 128) i r
  = FilledWaveform.nextRadius p env' (constantBuffer 128) i r.
Proof.
  intros Hi.
  pose proof (filled_nextRadius_silent p env i r Hi).
  pose proof (filled_nextRadius_silent p env' i r Hi). lra.
Qed.

Lemma outline_nextRadius_silent_eq p env env' k i r :
  (i < bufferLength)%nat ->
  OutlineWaveform.nextRadius p env (constantBuffer 128) k i r
  = OutlineWaveform.nextRadius p env' (constantBuffer 128) k i r.
Proof.
  intros Hi.
  pose proof (outline_nextRadius_silent p env k i r Hi).
  pose proof (outline_nextRadius_silent p env' k i r Hi). lra.
Qed.

(** X14.  A frame whose buffer holds the byte 128 everywhere is
    deterministic: two such frames at the same elapsed time lead from the
    same state to the same state, whatever [Math.random] returns in each,
    in both layers. *)
Theorem silent_frame_ignores_random :
  (forall p env env' s,
     silentFrame env -> silentFrame env' ->
     elapsedTime env = elapsedTime env' ->
     FilledWaveform.useFrame p env s = FilledWaveform.useFrame p env' s) /\
  (forall p env env' s,
     silentFrame env -> silentFrame env' ->
     elapsedTime env = elapsedTime env' ->
     OutlineWaveform.useFrame p env s = OutlineWaveform.useFrame p env' s).
Proof.
  split; intros p env env' s [Ha Hm] [Ha' Hm'] Ht.
  - rewrite (filled_useFrame_audio p env s _ Ha Hm),
      (filled_useFrame_audio p env' s _ Ha' Hm').
    cbv zeta.
    set (m := filledNextSpeed p (constantBuffer 128)
                (FilledWaveform.previousSpeedMultiplier s)).
    assert (Hloop :
      FilledWaveform.vertexLoop p env (constantBuffer 128) m s
      = FilledWaveform.vertexLoop p env' (constantBuffer 128) m s).
    { rewrite !filled_vertexLoop_eq, Ht. apply for_loop_ext.
      intros i st Hi. unfold vertexBody.
      rewrite (filled_nextRadius_silent_eq p env env' i _ Hi). reflexivity. }
    rewrite Hloop. reflexivity.
  - rewrite (outline_useFrame_audio p env s _ Ha Hm),
      (outline_useFrame_audio p env' s _ Ha' Hm').
    cbv zeta.
    set (k := outlineFactor p (constantBuffer 128) s).
    set (m := outlineNextSpeed p (constantBuffer 128) s).
    assert (Hloop :
      OutlineWaveform.vertexLoop p env (constantBuffer 128) k m s
      = OutlineWaveform.vertexLoop p env' (constantBuffer 128) k m s).
    { rewrite !outline_vertexLoop_eq, Ht. apply for_loop_ext.
      intros i st Hi. unfold vertexBody.
      rewrite (outline_nextRadius_silent_eq p env env' k i _ Hi). reflexivity. }
    rewrite Hloop. reflexivity.
Qed.

Lemma silent_frame_ignores_random_witness :
  let s := FilledWaveform.useFrame Props.empty
             (audioFrame (constantBuffer 255) 0 0.5)
             (FilledWaveform.mount Props.empty (fun _ => 0)) in
  FilledWaveform.useFrame Props.empty (audioFrame (constantBuffer 128) 1 0.1) s
  = FilledWaveform.useFrame Props.empty (audioFrame (constantBuffer 128) 1 0.9) s.
Proof.
  intros s.
  apply (proj1 silent_frame_ignores_random);
    [split; reflexivity | split; reflexivity | reflexivity].
Defined.

(** ** The index buffer for any buffer length *)

Lemma indices_loop (N n : nat) (d : Z) :
  let a :=
    for_loop n
      (fun i indices =>
         let nextI := Z.rem (Z.of_nat i + 1) (Z.of_nat N) in
         let indices :=
           store (i * 3) ((Z.of_nat i * 2) mod 65536)%Z indices in
         let indices :=
           store (i * 3 + 1) ((nextI * 2) mod 65536)%Z indices in
         store (i * 3 + 2) ((Z.of_nat i * 2 + 1) mod 65536)%Z indices)
      (repeat 0%Z (N * 3)) in
  length a = (N * 3)%nat /\
  forall j, (j < n)%nat -> (j < N)%nat ->
    nth (j * 3) a d = ((Z.of_nat j * 2) mod 65536)%Z /\
    nth (j * 3 + 1) a d
    = ((Z.rem (Z.of_nat j + 1) (Z.of_nat N) * 2) mod 65536)%Z /\
    nth (j * 3 + 2) a d = ((Z.of_nat j * 2 + 1) mod 65536)%Z.
Proof.
  induction n as [|n [IHlen IH]]; cbv zeta.
  - rewrite for_loop_0. split; [apply repeat_length | intros j Hj; lia].
  - rewrite for_loop_S. cbv zeta in IHlen, IH. split.
    + rewrite !length_store. exact IHlen.
    + intros j Hj HjN.
      destruct (Nat.eq_dec j n) as [->|Hne].
      * split; [|split].
        -- do 2 store_other. store_same. reflexivity.
        -- do 1 store_other. store_same. reflexivity.
        -- store_same. reflexivity.
      * repeat store_other. apply IH; lia.
Qed.

(** X15.  For every buffer length N up to 32768 the index buffer has 3 N
    entries, triangle i is (2 i, 2 ((i + 1) mod N), 2 i + 1) with every
    entry a vertex slot in 0 .. 2 N - 1, and no value is cut by the 16-bit
    store; the last triangle returns to edge vertex 0, which closes the
    fan.  For N = 0 the buffer is empty. *)
Theorem indices_for_any_length :
  forall N, (Z.of_nat N <= 32768)%Z ->
    length (FilledWaveform.indices N) = (3 * N)%nat /\
    (forall i, (i < N)%nat ->
       let a := nth (3 * i) (FilledWaveform.indices N) (-1)%Z in
       let b := nth (3 * i + 1) (FilledWaveform.indices N) (-1)%Z in
       let c := nth (3 * i + 2) (FilledWaveform.indices N) (-1)%Z in
       a = (2 * Z.of_nat i)%Z /\
       b = (2 * ((Z.of_nat i + 1) mod Z.of_nat N))%Z /\
       c = (2 * Z.of_nat i + 1)%Z /\
       (0 <= a <= 2 * Z.of_nat N - 1)%Z /\
       (0 <= b <= 2 * Z.of_nat N - 1)%Z /\
       (0 <= c <= 2 * Z.of_nat N - 1)%Z) /\
    (forall i, S i = N ->
       nth (3 * i + 1) (FilledWaveform.indices N) (-1)%Z = 0%Z) /\
    FilledWaveform.indices 0 = [].
Proof.
  intros N HN.
  destruct (indices_loop N N (-1)%Z) as [Hlen Hnth]. cbv zeta in Hlen, Hnth.
  fold (FilledWaveform.indices N) in Hlen, Hnth.
  assert (Htri : forall i, (i < N)%nat ->
     nth (3 * i) (FilledWaveform.indices N) (-1)%Z = (2 * Z.of_nat i)%Z /\
     nth (3 * i + 1) (FilledWaveform.indices N) (-1)%Z
     = (2 * ((Z.of_nat i + 1) mod Z.of_nat N))%Z /\
     nth (3 * i + 2) (FilledWaveform.indices N) (-1)%Z
     = (2 * Z.of_nat i + 1)%Z).
  { intros i Hi. destruct (Hnth i Hi Hi) as (Ha & Hb & Hc).
    replace (3 * i)%nat with (i * 3)%nat by lia.
    rewrite Ha, Hb, Hc.
    rewrite Z.rem_mod_nonneg by lia.
    pose proof (Z.mod_pos_bound (Z.of_nat i + 1) (Z.of_nat N) ltac:(lia)).
    set (q := ((Z.of_nat i + 1) mod Z.of_nat N)%Z) in *.
    rewrite (Z.mod_small (Z.of_nat i * 2) 65536) by lia.
    rewrite (Z.mod_small (q * 2) 65536) by lia.
    rewrite (Z.mod_small (Z.of_nat i * 2 + 1) 65536) by lia.
    lia. }
  split; [lia | split; [|split]].
  - intros i Hi a b c. destruct (Htri i Hi) as (Ha & Hb & Hc).
    pose proof (Z.mod_pos_bound (Z.of_nat i + 1) (Z.of_nat N) ltac:(lia)).
    unfold a, b, c. rewrite Ha, Hb, Hc. lia.
  - intros i Hi. destruct (Htri i ltac:(lia)) as (_ & Hb & _).
    rewrite Hb. replace (Z.of_nat i + 1)%Z with (Z.of_nat N) by lia.
    rewrite Z.mod_same by lia. reflexivity.
  - reflexivity.
Qed.

Lemma indices_for_any_length_witness :
  length (FilledWaveform.indices 4) = 12%nat /\
  nth (3 * 3 + 1) (FilledWaveform.indices 4) (-1)%Z = 0%Z /\
  nth (3 * 2 + 1) (FilledWaveform.indices 4) (-1)%Z
  = (2 * ((Z.of_nat 2 + 1) mod Z.of_nat 4))%Z.
Proof.
  destruct (indices_for_any_length 4 ltac:(lia)) as (Hlen & Htri & Hlast & _).
  split; [exact Hlen | split].
  - exact (Hlast 3%nat eq_refl).
  - exact (proj1 (proj2 (Htri 2%nat ltac:(lia)))).
Defined.

(** ** The size of the undulation *)

Lemma sin_cos_sum_bound x : Rabs (sin x + cos x) <= sqrt 2.
Proof.
  rewrite <- sqrt_Rsqr_abs. apply sqrt_le_1_alt. unfold Rsqr.
  pose proof (sin2_cos2 x) as H. unfold Rsqr in H.
  pose proof (Rle_0_sqr (sin x - cos x)) as Hsq. unfold Rsqr in Hsq.
  generalize dependent (cos x). generalize dependent (sin x).
  intros s c H Hsq. nra.
Qed.

Lemma undulationStep_abs angle time m acc term direction :
  Rabs (undulationStep angle time m acc term direction - acc)
  <= sqrt 2 * Rabs (amplitude term).
Proof.
  unfold undulationStep.
  set (x := angle * frequency term
            + time * clampedSpeed (speed term) m * direction).
  replace (acc + sin x * amplitude term + cos x * amplitude term - acc)
    with ((sin x + cos x) * amplitude term) by ring.
  rewrite Rabs_mult.
  apply Rmult_le_compat_r; [apply Rabs_pos | apply sin_cos_sum_bound].
Qed.

Lemma undulation_fold_abs angle time m directions items acc :
  Rabs
    (fold_left
       (fun acc (it : nat * UndulationTerm) =>
          undulationStep angle time m acc (snd it) (nth (fst it) directions 0))
       items acc - acc)
  <= sqrt 2 * amplitudeSum (map snd items).
Proof.
  revert acc; induction items as [|[k term] items IH]; intros acc.
  - simpl. rewrite Rminus_diag, Rabs_R0. lra.
  - cbn [fold_left map amplitudeSum fold_right fst snd].
    fold (amplitudeSum (map snd items)).
    set (acc' := undulationStep angle time m acc term (nth k directions 0)).
    specialize (IH acc').
    pose proof (undulationStep_abs angle time m acc term (nth k directions 0))
      as Hstep. fold acc' in Hstep.
    match goal with
    | |- Rabs (?f - acc) <= _ =>
        replace (f - acc) with ((f - acc') + (acc' - acc)) by ring
    end.
    eapply Rle_trans; [apply Rabs_triang|]. lra.
Qed.

Lemma combine_seq_snd {A : Type} (l : list A) (start : nat) :
  map snd (combine (seq start (length l)) l) = l.
Proof.
  revert start; induction l as [|a l IH]; intros start; simpl;
    [reflexivity | f_equal; apply IH].
Qed.

Lemma undulation_abs pattern directions angle time m :
  Rabs (undulation pattern directions angle time m)
  <= sqrt 2 * amplitudeSum pattern.
Proof.
  unfold undulation.
  pose proof (undulation_fold_abs angle time m directions
                (combine (seq 0 (length pattern)) pattern) 0) as H.
  rewrite combine_seq_snd, Rminus_0_r in H. exact H.
Qed.

(** X16.  The undulation of a vertex is at most sqrt 2 times the sum of the
    absolute amplitudes of the terms, whatever the angle, the time, the
    speed multiplier and the rotation directions, so the rendered radius
    of a vertex differs from its radius state by at most that much; with
    no undulation term the undulation is 0. *)
Theorem undulation_is_bounded :
  (forall pattern directions angle time m,
     Rabs (undulation pattern directions angle time m)
     <= sqrt 2 * amplitudeSum pattern) /\
  (forall directions angle time m, undulation [] directions angle time m = 0) /\
  (forall p env s i,
     Rabs (FilledWaveform.renderedRadius p env s i
           - nth i (FilledWaveform.currentRadii s) 0)
     <= sqrt 2 * amplitudeSum (FilledWaveform.undulationPattern p)) /\
  (forall p env s i,
     Rabs (OutlineWaveform.renderedRadius p env s i
           - nth i (OutlineWaveform.currentRadii s) 0)
     <= sqrt 2 * amplitudeSum (OutlineWaveform.undulationPattern p)).
Proof.
  split; [exact undulation_abs | split; [reflexivity | split]].
  - intros p env s i. unfold FilledWaveform.renderedRadius.
    match goal with
    | |- Rabs (?r + ?u - ?r) <= _ => replace (r + u - r) with u by ring
    end.
    apply undulation_abs.
  - intros p env s i. unfold OutlineWaveform.renderedRadius.
    match goal with
    | |- Rabs (?r + ?u - ?r) <= _ => replace (r + u - r) with u by ring
    end.
    apply undulation_abs.
Qed.

(** ** The drawn shape stays inside a disc *)

Lemma square_le_of_abs (v D : R) : Rabs v <= D -> v * v <= D * D.
Proof.
  intros H. pose proof (Rabs_le_interval _ _ H) as [H0 H1].
  pose proof (Rabs_pos v). nra.
Qed.

(** X17.  The drawn shape of the filled layer stays inside a disc, also
    across re-renders with other props.  Take any interval [lo, hi] with
    - hi <= lo that holds every radius entry of the live instance before a
    frame.  If the frame has audio and runs
    with props [p] that have a smoothing factor in [0, 1], non-negative
    base radius, audio scale and pulse scale, and their interval
    [baseRadius - slack, baseRadius * (1 + audioScale * pulseScale) + slack]
    inside [lo, hi], then every edge vertex that the frame writes is inside
    the disc around the origin of radius
    hi + sqrt 2 * (sum of the |amplitude| of p's undulation terms), for any
    512-byte buffer and random draws in [0, 1).  The state before the frame
    is any state with arrays of the right lengths. *)
Theorem written_vertices_stay_in_disc :
  forall p env dataArray s lo hi i,
    filledWf s -> browserFrame env ->
    analyser env = Some dataArray -> meshRef env = true ->
    0 <= FilledWaveform.smoothingFactor p <= 1 ->
    0 <= FilledWaveform.audioScale p -> 0 <= FilledWaveform.baseRadius p ->
    0 <= FilledWaveform.pulseScale p ->
    - hi <= lo ->
    lo <= FilledWaveform.baseRadius p
          - filledSlack (FilledWaveform.audioScale p) ->
    FilledWaveform.baseRadius p
    * (1 + FilledWaveform.audioScale p * FilledWaveform.pulseScale p)
    + filledSlack (FilledWaveform.audioScale p) <= hi ->
    (forall j, (j < 512)%nat ->
       lo <= nth j (FilledWaveform.currentRadii s) 0 <= hi) ->
    (i < 512)%nat ->
    let s' := FilledWaveform.useFrame p env s in
    let x := nth (i * 6) (FilledWaveform.positions s') 0 in
    let y := nth (i * 6 + 1) (FilledWaveform.positions s') 0 in
    let D := hi + sqrt 2 * amplitudeSum (FilledWaveform.undulationPattern p) in
    x * x + y * y <= D * D.
Proof.
  intros p env dataArray s lo hi i Hwf Henv Hd Hm Hsf Ha Hb Hp Hsym Hlo Hhi
    Hs Hi s' x y D.
  destruct (filled_useFrame_vertex p env s dataArray i Hd Hm Hwf Hi)
    as [Hx Hy].
  fold s' in Hx, Hy. unfold x, y. rewrite Hx, Hy, point_on_circle.
  apply square_le_of_abs.
  pose proof (filled_useFrame_hull p env s lo hi Hwf Henv Hsf Ha Hb Hp
                Hlo Hhi Hs i Hi) as Hnew.
  fold s' in Hnew.
  pose proof (undulation_abs (FilledWaveform.undulationPattern p)
                (FilledWaveform.rotationDirections s') (angle i)
                (elapsedTime env) (FilledWaveform.previousSpeedMultiplier s'))
    as Hund.
  apply Rabs_le_interval in Hund.
  unfold FilledWaveform.renderedRadius, D.
  set (u := undulation _ _ _ _ _) in *.
  set (r := nth i (FilledWaveform.currentRadii s') 0) in *.
  apply Rabs_le. split; lra.
Qed.

Lemma written_vertices_stay_in_disc_witness :
  let p := propsWithRadius 7 in
  let env := audioFrame (constantBuffer 255) 1 0.25 in
  let s' :=
    FilledWaveform.useFrame p env
      (FilledWaveform.mount Props.empty (fun _ => 0)) in
  let x := nth (40 * 6) (FilledWaveform.positions s') 0 in
  let y := nth (40 * 6 + 1) (FilledWaveform.positions s') 0 in
  let D := 12 + sqrt 2 * amplitudeSum (FilledWaveform.undulationPattern p) in
  x * x + y * y <= D * D.
Proof.
  intros p env.
  assert (Henv : browserFrame env) by (apply audioFrame_browser; [lia | lra]).
  destruct reradius_filled_params as (Hsf & Ha & Hb & Hp & Hlo & Hhi).
  apply (written_vertices_stay_in_disc p env (constantBuffer 255)
           (FilledWaveform.mount Props.empty (fun _ => 0)) 4 12 40%nat
           (filledWf_mount _ _) Henv eq_refl eq_refl Hsf Ha Hb Hp);
    [ lra | exact Hlo | exact Hhi | exact mounted_default_radii_filled | lia ].
Defined.

(** ** The six layers of the scene *)

Ltac layer_params :=
  unfold layerBaseRadius;
  unfold FilledWaveform.speedBlend, FilledWaveform.smoothingFactor,
    FilledWaveform.audioScale, FilledWaveform.speedScale,
    FilledWaveform.baseRadius, FilledWaveform.pulseScale,
    OutlineWaveform.dynamicSmoothingFactor, OutlineWaveform.smoothingFactor,
    OutlineWaveform.increaseResponseRate, OutlineWaveform.decreaseResponseRate,
    OutlineWaveform.audioScale, OutlineWaveform.baseRadius,
    OutlineWaveform.pulseScale, filledProps, outlineProps, withDefault;
  cbn [Props.baseRadius Props.smoothingFactor Props.audioScale
       Props.speedScale Props.pulseScale Props.increaseResponseRate
       Props.decreaseResponseRate];
  try (let a := fresh "a" in let l := fresh "l" in
       intros a l; destruct (Rlt_dec l a));
  repeat match goal with
         | |- context [Rmin ?a ?b] =>
             destruct (Rmin_cases a b) as [[-> ?] | [-> ?]]
         end;
  lra.

Lemma filled_scene_hull b a q :
  0 <= b <= 8 -> 0 <= a <= 4.5 -> 0 <= q <= 5 ->
  -48 <= b - filledSlack a /\ b * (1 + a * q) + filledSlack a <= 236.
Proof.
  intros Hb Ha Hq. unfold filledSlack.
  assert (Haq : 0 <= a * q <= 22.5).
  { split; [apply Rmult_le_pos; lra|].
    replace 22.5 with (4.5 * 5) by lra. apply Rmult_le_compat; lra. }
  assert (Hbaq : 0 <= b * (a * q) <= 180).
  { split; [apply Rmult_le_pos; lra|].
    replace 180 with (8 * 22.5) by lra. apply Rmult_le_compat; lra. }
  assert (Haa : 0 <= a * a <= 20.25).
  { split; [apply Rmult_le_pos; lra|].
    replace 20.25 with (4.5 * 4.5) by lra. apply Rmult_le_compat; lra. }
  split; nra.
Qed.

Lemma outline_scene_hull b a q :
  0 <= b <= 8 -> 0 <= a <= 7.5 -> 0 <= q <= 5 ->
  -123 <= b - outlineSlack a /\ b * (1 + a * q) + outlineSlack a <= 431.
Proof.
  intros Hb Ha Hq. unfold outlineSlack.
  assert (Haq : 0 <= a * q <= 37.5).
  { split; [apply Rmult_le_pos; lra|].
    replace 37.5 with (7.5 * 5) by lra. apply Rmult_le_compat; lra. }
  assert (Hbaq : 0 <= b * (a * q) <= 300).
  { split; [apply Rmult_le_pos; lra|].
    replace 300 with (8 * 37.5) by lra. apply Rmult_le_compat; lra. }
  assert (Haa : 0 <= a * a <= 56.25).
  { split; [apply Rmult_le_pos; lra|].
    replace 56.25 with (7.5 * 7.5) by lra. apply Rmult_le_compat; lra. }
  split; nra.
Qed.

Lemma filled_layer_keeps_within p :
  0 <= FilledWaveform.smoothingFactor p <= 1 ->
  0 <= FilledWaveform.speedBlend p <= 1 ->
  0 <= FilledWaveform.audioScale p <= 4.5 ->
  0 <= FilledWaveform.speedScale p ->
  0 <= FilledWaveform.baseRadius p <= 8 ->
  0 <= FilledWaveform.pulseScale p <= 5 ->
  (forall rnd, filledWithin (-48) 236 (FilledWaveform.mount p rnd)) /\
  (forall env s, browserFrame env -> filledWithin (-48) 236 s ->
     filledWithin (-48) 236 (FilledWaveform.useFrame p env s)).
Proof.
  intros Hsf Hblend Ha Hs Hb Hp.
  destruct (filled_scene_hull _ _ _ Hb Ha Hp) as [Hlo Hhi].
  split.
  - intros rnd. split; [apply filledWf_mount|].
    split; [apply mount_speed_filled|].
    intros i Hi. rewrite filled_mount_radius by exact Hi. lra.
  - intros env s Henv (Hwf & Hm & Hr).
    split; [apply filledWf_useFrame; exact Hwf|].
    split.
    + apply (filled_frames_speed_range p [env] s); [lra | lra | exact Hblend | exact Hm].
    + apply filled_useFrame_hull; try assumption; lra.
Qed.

Lemma outline_layer_keeps_within p :
  (forall a l, 0 <= OutlineWaveform.dynamicSmoothingFactor p a l <= 1) ->
  0 <= OutlineWaveform.audioScale p <= 7.5 ->
  0 <= OutlineWaveform.baseRadius p <= 8 ->
  0 <= OutlineWaveform.pulseScale p <= 5 ->
  (forall rnd, outlineWithin (-123) 431 (OutlineWaveform.mount p rnd)) /\
  (forall env s, browserFrame env -> outlineWithin (-123) 431 s ->
     outlineWithin (-123) 431 (OutlineWaveform.useFrame p env s)).
Proof.
  intros Hk Ha Hb Hp.
  destruct (outline_scene_hull _ _ _ Hb Ha Hp) as [Hlo Hhi].
  split.
  - intros rnd. split; [apply outlineWf_mount|].
    split; [apply mount_speed_outline|].
    intros i Hi. rewrite outline_mount_radius by exact Hi. lra.
  - intros env s Henv (Hwf & Hm & Hr).
    split; [apply outlineWf_useFrame; exact Hwf|].
    split.
    + apply (outline_frames_speed_range p [env] s); [lra | exact Hk | exact Hm].
    + apply outline_useFrame_hull; try assumption; lra.
Qed.

(** X18.  The scene under slider moves.  For every setting of the five
    sliders within their ranges the six layers are nested, outline 1
    < filled 1 < outline 2 < filled 2 < outline 3 < filled 3 by base radius,
    all positive.  Each layer has an invariant that does not depend on the
    setting: the arrays have their lengths, the speed multiplier is in
    [1, 2], and every radius entry is in [-48, 236] for a filled layer, in
    [-123, 431] for an outline layer.  An instance created at any setting
    within the ranges satisfies it, and a frame that runs with the props of
    any setting within the ranges, from any state that satisfies it, leaves
    a state that satisfies it, for any 512-byte buffer and random draws in
    [0, 1).  The setting of the frame need not be the setting at which the
    instance was created or at which earlier frames ran, so the invariant
    holds through any sequence of frames and slider moves. *)
Theorem scene_layers_stay_bounded_under_slider_moves :
  forall c, sliderRanges c ->
    let layer k := nth k (AudioWaveform c) noLayer in
    (0 < layerBaseRadius (layer 1%nat)
     /\ layerBaseRadius (layer 1%nat) < layerBaseRadius (layer 0%nat)
     /\ layerBaseRadius (layer 0%nat) < layerBaseRadius (layer 3%nat)
     /\ layerBaseRadius (layer 3%nat) < layerBaseRadius (layer 2%nat)
     /\ layerBaseRadius (layer 2%nat) < layerBaseRadius (layer 5%nat)
     /\ layerBaseRadius (layer 5%nat) < layerBaseRadius (layer 4%nat)) /\
    forall k, (k < 6)%nat ->
      match layer k with
      | Filled p =>
          (forall rnd, filledWithin (-48) 236 (FilledWaveform.mount p rnd)) /\
          (forall env s, browserFrame env -> filledWithin (-48) 236 s ->
             filledWithin (-48) 236 (FilledWaveform.useFrame p env s))
      | Outline p =>
          (forall rnd, outlineWithin (-123) 431 (OutlineWaveform.mount p rnd)) /\
          (forall env s, browserFrame env -> outlineWithin (-123) 431 s ->
             outlineWithin (-123) 431 (OutlineWaveform.useFrame p env s))
      end.
Proof.
  intros c (Hsize & Hamp & Haudio & Hspeed & Hpulse) layer.
  split.
  - unfold layer. cbn [nth AudioWaveform].
    repeat split; layer_params.
  - intros k Hk. unfold layer.
    destruct k as [|[|[|[|[|[|k]]]]]]; [| | | | | | lia];
      cbn [nth AudioWaveform].
    + apply filled_layer_keeps_within; layer_params.
    + apply outline_layer_keeps_within; layer_params.
    + apply filled_layer_keeps_within; layer_params.
    + apply outline_layer_keeps_within; layer_params.
    + apply filled_layer_keeps_within; layer_params.
    + apply outline_layer_keeps_within; layer_params.
Qed.

Lemma initialControls_in_range : sliderRanges initialControls.
Proof. unfold sliderRanges, initialControls. simpl. lra. Qed.

Lemma movedControls_in_range : sliderRanges movedControls.
Proof. unfold sliderRanges, movedControls. simpl. lra. Qed.

Lemma scene_layers_stay_bounded_under_slider_moves_witness :
  layerBaseRadius (nth 1 (AudioWaveform initialControls) noLayer)
  < layerBaseRadius (nth 0 (AudioWaveform initialControls) noLayer) /\
  match nth 0 (AudioWaveform initialControls) noLayer,
        nth 0 (AudioWaveform movedControls) noLayer with
  | Filled p, Filled p' =>
      filledWithin (-48) 236
        (FilledWaveform.useFrame p' (audioFrame (constantBuffer 128) 0 0.5)
           (FilledWaveform.mount p (fun _ => 0)))
  | _, _ => False
  end.
Proof.
  destruct (scene_layers_stay_bounded_under_slider_moves initialControls
              initialControls_in_range) as [Hnest Hinitial].
  destruct (scene_layers_stay_bounded_under_slider_moves movedControls
              movedControls_in_range) as [_ Hmoved].
  split; [exact (proj1 (proj2 Hnest))|].
  assert (Henv : browserFrame (audioFrame (constantBuffer 128) 0 0.5))
    by (apply audioFrame_browser; [lia | lra]).
  exact (proj2 (Hmoved 0%nat ltac:(lia)) _ _ Henv
           (proj1 (Hinitial 0%nat ltac:(lia)) (fun _ => 0))).
Defined.

(** ** The speed multiplier in silence *)

Lemma filled_target_silent p :
  FilledWaveform.targetSpeedMultiplier p
    (averageAudio (FilledWaveform.audioScale p) (constantBuffer 128)) = 1.
Proof.
  rewrite averageAudio_silent. unfold FilledWaveform.targetSpeedMultiplier.
  destruct (Rmin_cases 2.0 (1 + 0 / 128 * FilledWaveform.speedScale p))
    as [[-> ?] | [-> ?]]; lra.
Qed.

Lemma outline_target_silent p :
  OutlineWaveform.targetSpeedMultiplier
    (averageAudio (OutlineWaveform.audioScale p) (constantBuffer 128)) = 1.
Proof.
  rewrite averageAudio_silent. unfold OutlineWaveform.targetSpeedMultiplier.
  destruct (Rmin_cases 2.0 (1 + 0 / 128 * 0.5)) as [[-> ?] | [-> ?]]; lra.
Qed.

Lemma filled_silent_frames_speed p envs s :
  Forall silentFrame envs ->
  FilledWaveform.previousSpeedMultiplier (FilledWaveform.frames p envs s) - 1
  = (1 - FilledWaveform.speedBlend p) ^ length envs
    * (FilledWaveform.previousSpeedMultiplier s - 1).
Proof.
  intros Hs; revert s. induction Hs as [|env envs [Ha Hm] _ IH]; intros s.
  - simpl. lra.
  - rewrite filled_frames_cons, IH.
    rewrite (filled_useFrame_speed p env s _ Ha Hm).
    unfold filledNextSpeed. rewrite filled_target_silent. simpl. lra.
Qed.

Lemma outline_silent_frames_speed p envs s :
  Forall silentFrame envs -> 0 <= OutlineWaveform.previousAudioLevel s ->
  OutlineWaveform.previousSpeedMultiplier (OutlineWaveform.frames p envs s) - 1
  = (1 - fallingFactor p) ^ length envs
    * (OutlineWaveform.previousSpeedMultiplier s - 1).
Proof.
  intros Hs; revert s. induction Hs as [|env envs [Ha Hm] _ IH]; intros s Hl.
  - simpl. lra.
  - rewrite outline_frames_cons, IH
      by (rewrite (outline_useFrame_level p env s _ Ha Hm), averageAudio_silent;
          lra).
    rewrite (outline_useFrame_speed p env s _ Ha Hm).
    unfold outlineNextSpeed. rewrite outline_target_silent.
    rewrite outlineFactor_silent by exact Hl. simpl. lra.
Qed.

(** X19.  In silence the animation speed relaxes.  Every silent frame
    moves the speed multiplier of the filled layer towards 1 by the factor
    1 - min(0.05, smoothingFactor), so it converges to 1 when
    smoothingFactor is positive; in the outline layer the factor is
    1 - min(0.04, smoothingFactor * decreaseResponseRate) once the previous
    level is not negative, and the multiplier converges to 1 when
    smoothingFactor * decreaseResponseRate is positive. *)
Theorem speed_multiplier_relaxes_in_silence :
  (forall p envs s,
     Forall silentFrame envs ->
     FilledWaveform.previousSpeedMultiplier (FilledWaveform.frames p envs s) - 1
     = (1 - Rmin 0.05 (FilledWaveform.smoothingFactor p)) ^ length envs
       * (FilledWaveform.previousSpeedMultiplier s - 1)) /\
  (forall p s,
     0 < FilledWaveform.smoothingFactor p ->
     settlesTo
       (fun envs =>
          FilledWaveform.previousSpeedMultiplier (FilledWaveform.frames p envs s))
       1) /\
  (forall p envs s,
     Forall silentFrame envs -> 0 <= OutlineWaveform.previousAudioLevel s ->
     OutlineWaveform.previousSpeedMultiplier (OutlineWaveform.frames p envs s) - 1
     = (1 - Rmin 0.04 (OutlineWaveform.smoothingFactor p
                       * OutlineWaveform.decreaseResponseRate p)) ^ length envs
       * (OutlineWaveform.previousSpeedMultiplier s - 1)) /\
  (forall p s,
     0 < OutlineWaveform.smoothingFactor p * OutlineWaveform.decreaseResponseRate p ->
     0 <= OutlineWaveform.previousAudioLevel s ->
     settlesTo
       (fun envs =>
          OutlineWaveform.previousSpeedMultiplier
            (OutlineWaveform.frames p envs s))
       1).
Proof.
  split; [exact filled_silent_frames_speed | split; [|split]].
  - intros p s Hsf eps Heps.
    assert (Hb : 0 < FilledWaveform.speedBlend p <= 0.05).
    { unfold FilledWaveform.speedBlend.
      destruct (Rmin_cases 0.05 (FilledWaveform.smoothingFactor p))
        as [[-> ?] | [-> ?]]; lra. }
    destruct (geometric_vanishes (1 - FilledWaveform.speedBlend p)
                (FilledWaveform.previousSpeedMultiplier s - 1)
                ltac:(lra) eps Heps) as [N HN].
    exists N. intros envs Hs Hlen.
    rewrite (filled_silent_frames_speed p envs s Hs). apply HN. exact Hlen.
  - exact outline_silent_frames_speed.
  - intros p s Hsf Hl eps Heps.
    pose proof (fallingFactor_range p Hsf) as Hk.
    destruct (geometric_vanishes (1 - fallingFactor p)
                (OutlineWaveform.previousSpeedMultiplier s - 1)
                ltac:(lra) eps Heps) as [N HN].
    exists N. intros envs Hs Hlen.
    rewrite (outline_silent_frames_speed p envs s Hs Hl). apply HN. exact Hlen.
Qed.

Lemma speed_multiplier_relaxes_in_silence_witness :
  let p := Props.empty in
  let quiet := audioFrame (constantBuffer 128) 1 0.5 in
  let loud := audioFrame (constantBuffer 255) 0 0.5 in
  (let s := FilledWaveform.useFrame p loud
              (FilledWaveform.mount p (fun _ => 0)) in
   FilledWaveform.previousSpeedMultiplier
     (FilledWaveform.frames p [quiet; quiet] s) - 1
   = (1 - Rmin 0.05 (FilledWaveform.smoothingFactor p)) ^ 2
     * (FilledWaveform.previousSpeedMultiplier s - 1) /\
   settlesTo
     (fun envs =>
        FilledWaveform.previousSpeedMultiplier (FilledWaveform.frames p envs s))
     1) /\
  (let s := OutlineWaveform.mount p (fun _ => 0) in
   OutlineWaveform.previousSpeedMultiplier
     (OutlineWaveform.frames p [quiet; quiet] s) - 1
   = (1 - Rmin 0.04 (OutlineWaveform.smoothingFactor p
                     * OutlineWaveform.decreaseResponseRate p)) ^ 2
     * (OutlineWaveform.previousSpeedMultiplier s - 1) /\
   settlesTo
     (fun envs =>
        OutlineWaveform.previousSpeedMultiplier
          (OutlineWaveform.frames p envs s))
     1).
Proof.
  intros p quiet loud.
  assert (Hq : Forall silentFrame [quiet; quiet]).
  { repeat (apply Forall_cons; [split; reflexivity|]). apply Forall_nil. }
  split; intros s.
  - split.
    + exact (proj1 speed_multiplier_relaxes_in_silence p [quiet; quiet] s Hq).
    + apply (proj1 (proj2 speed_multiplier_relaxes_in_silence) p s).
      unfold p, FilledWaveform.smoothingFactor. simpl. lra.
  - assert (Hl : 0 <= OutlineWaveform.previousAudioLevel s)
      by (unfold s; cbn [OutlineWaveform.mount
                          OutlineWaveform.previousAudioLevel]; lra).
    split.
    + exact (proj1 (proj2 (proj2 speed_multiplier_relaxes_in_silence))
               p [quiet; quiet] s Hq Hl).
    + apply (proj2 (proj2 (proj2 speed_multiplier_relaxes_in_silence)) p s);
        [|exact Hl].
      unfold p, OutlineWaveform.smoothingFactor,
        OutlineWaveform.decreaseResponseRate. simpl. lra.
Defined.

(** ** The outline layer's notion of a rising level *)

Lemma outline_frames_level_nonneg p envs s :
  0 <= OutlineWaveform.audioScale p ->
  0 <= OutlineWaveform.previousAudioLevel s ->
  0 <= OutlineWaveform.previousAudioLevel (OutlineWaveform.frames p envs s).
Proof.
  intros Ha. revert s. induction envs as [|env envs IH]; intros s Hl;
    [exact Hl|].
  rewrite outline_frames_cons. apply IH.
  destruct (analyser env) as [dataArray|] eqn:Hd;
    [destruct (meshRef env) eqn:Hr|].
  - rewrite (outline_useFrame_level p env s dataArray Hd Hr).
    pose proof (averageAudio_nonneg _ dataArray Ha). lra.
  - rewrite outline_useFrame_idle by (right; exact Hr). exact Hl.
  - rewrite outline_useFrame_idle by (left; exact Hd). exact Hl.
Qed.

(** X20.  The outline layer calls a level rising only when it is strictly
    above the level of the previous frame with audio.  So a frame that
    repeats the level of the frame before it (a steady signal, however
    loud) is smoothed with the falling factor
    min(0.04, smoothingFactor * decreaseResponseRate); and with a
    non-negative audio scale the stored level is never negative, so a
    silent frame is never rising. *)
Theorem steady_level_counts_as_falling :
  (forall p env1 env2 s d1 d2,
     analyser env1 = Some d1 -> meshRef env1 = true ->
     analyser env2 = Some d2 -> meshRef env2 = true ->
     averageAudio (OutlineWaveform.audioScale p) d2
     <= averageAudio (OutlineWaveform.audioScale p) d1 ->
     outlineFactor p d2 (OutlineWaveform.useFrame p env1 s) = fallingFactor p) /\
  (forall p rnd envs,
     0 <= OutlineWaveform.audioScale p ->
     let s := OutlineWaveform.frames p envs (OutlineWaveform.mount p rnd) in
     0 <= OutlineWaveform.previousAudioLevel s /\
     outlineFactor p (constantBuffer 128) s = fallingFactor p).
Proof.
  split.
  - intros p env1 env2 s d1 d2 Hd1 Hm1 Hd2 Hm2 Hle.
    unfold outlineFactor, OutlineWaveform.dynamicSmoothingFactor.
    rewrite (outline_useFrame_level p env1 s d1 Hd1 Hm1).
    destruct (Rlt_dec _ _); [lra | reflexivity].
  - intros p rnd envs Ha s.
    assert (Hl : 0 <= OutlineWaveform.previousAudioLevel s).
    { apply outline_frames_level_nonneg; [exact Ha|].
      cbn [OutlineWaveform.mount OutlineWaveform.previousAudioLevel]. lra. }
    split; [exact Hl | apply outlineFactor_silent; exact Hl].
Qed.

Lemma steady_level_counts_as_falling_witness :
  let p := Props.empty in
  let loud := audioFrame (constantBuffer 255) 0 0.5 in
  outlineFactor p (constantBuffer 255)
    (OutlineWaveform.useFrame p loud (OutlineWaveform.mount p (fun _ => 0)))
  = fallingFactor p /\
  outlineFactor p (constantBuffer 128)
    (OutlineWaveform.frames p [loud] (OutlineWaveform.mount p (fun _ => 0)))
  = fallingFactor p.
Proof.
  intros p loud. split.
  - apply (proj1 steady_level_counts_as_falling p loud loud _
             (constantBuffer 255) (constantBuffer 255));
      [reflexivity | reflexivity | reflexivity | reflexivity | lra].
  - apply (proj2 steady_level_counts_as_falling p (fun _ => 0) [loud]).
    exact default_outline_scale.
Defined.

(** ** The position arrays *)

(** X21.  The position array of a layer keeps the length it is created
    with, 3072 numbers for the filled layer (512 edge and 512 centre
    vertices) and 1536 for the outline layer, through any sequence of
    frames and timer events. *)
Theorem position_arrays_keep_their_length :
  (forall p rnd evs,
     length (FilledWaveform.positions
               (filledPlay p evs (FilledWaveform.mount p rnd))) = 3072%nat) /\
  (forall p rnd evs,
     length (OutlineWaveform.positions
               (outlinePlay p evs (OutlineWaveform.mount p rnd))) = 1536%nat).
Proof.
  split.
  - intros p rnd evs.
    assert (H : forall s, length (FilledWaveform.positions (filledPlay p evs s))
                          = length (FilledWaveform.positions s)).
    { induction evs as [|ev evs IH]; intros s; [reflexivity|].
      change (filledPlay p (ev :: evs) s)
        with (filledPlay p evs (filledStep p s ev)).
      rewrite IH. destruct ev as [env|]; [|reflexivity].
      apply filled_useFrame_lengths. }
    rewrite H. cbn [FilledWaveform.mount FilledWaveform.positions].
    rewrite filled_initialPositions_length. reflexivity.
  - intros p rnd evs.
    assert (H : forall s, length (OutlineWaveform.positions (outlinePlay p evs s))
                          = length (OutlineWaveform.positions s)).
    { induction evs as [|ev evs IH]; intros s; [reflexivity|].
      change (outlinePlay p (ev :: evs) s)
        with (outlinePlay p evs (outlineStep p s ev)).
      rewrite IH. destruct ev as [env|]; [|reflexivity].
      apply outline_useFrame_lengths. }
    rewrite H. cbn [OutlineWaveform.mount OutlineWaveform.positions].
    rewrite outline_initialPositions_length. reflexivity.
Qed.

(** * Loud frames in the scene's configuration *)

(** ** One loud frame *)






(** ** The radius state after loud frames *)




(** ** The vertex at the angle 0 *)




(** ** The middle filled layer of the scene *)






(** ** The filled layers of the scene *)



